(** * vtkDecimatePolylineFilter: a shallow embedding and its properties

    The development follows [Filters/Core/vtkDecimatePolylineFilter.cxx]:
    the [Polyline] class (a doubly linked list laid over an array of
    vertices), [ComputeError], and [RequestData] with its three inner loops
    (seeding the priority queue, the reduction loop, the emission of the
    surviving vertices).

    Conventions of the embedding.
    - [vtkIdType] is a signed 64-bit integer; it is modelled by [Z].  Every
      [vtkIdType] the filter computes is an array index, a cell size or a
      sum of cell sizes of the input, so no wrap-around can occur; the
      [unsigned] field [Vertex::index] is narrower and its truncation is
      written out ([unsigned_of_id]).
    - [double] is IEEE-754 binary64, modelled by Rocq's primitive [float].
    - A [Vertex*] that points into [Polyline::Vertices] is the slot number
      it points to ([option nat], [None] for [nullptr]).
    - A computation that would dereference [nullptr] or read outside an
      array has undefined behaviour in C++; it is [None] in the model, and
      the theorems show that it does not happen on well-formed input.
    - Classes of the toolkit that the file uses but does not define
      ([vtkPriorityQueue], [vtkLine], [vtkMath], [vtkPoints],
      [vtkCellArray], the attribute tables) are interfaces or small models
      that follow the specification's description of them. *)

From Stdlib Require Import ZArith Floats.
From stdpp Require Import base tactics option list gmap.

Local Open Scope Z_scope.

(** ** Numbers *)

(** Conversion of a [vtkIdType] to the [unsigned] field of a vertex. *)
Definition unsigned_of_id (z : Z) : Z := z mod 2 ^ 32.

(** [static_cast<double>(n)] for a [vtkIdType] [n]. *)
Definition double_of_id (n : Z) : float :=
  if n <? 0 then PrimFloat.opp (PrimFloat.of_uint63 (Uint63.of_Z (- n)))
  else PrimFloat.of_uint63 (Uint63.of_Z n).

(** [a[i]] for a [vtkIdType] index: undefined outside the array. *)
Definition lookup_id {A : Type} (l : list A) (i : Z) : option A :=
  if i <? 0 then None else l !! Z.to_nat i.

(** ** External collaborators *)

Definition Point3 : Type := float * float * float.

(** [vtkPoints]: a data type tag and the coordinates, read as doubles. *)
Record vtkPoints := mkPoints { DataType : Z; Data : list Point3 }.

Definition VTK_FLOAT : Z := 10.
Definition VTK_DOUBLE : Z := 11.

Definition GetNumberOfPoints (pts : vtkPoints) : Z := Z.of_nat (length (Data pts)).
Definition GetPoint (pts : vtkPoints) (i : Z) : option Point3 := lookup_id (Data pts) i.
Definition SetDataType (t : Z) (pts : vtkPoints) : vtkPoints := mkPoints t (Data pts).

(** Modelled from the spec: "Output point coordinate precision follows a
    configured policy: match input precision, force single precision, or
    force double precision."  What is missing is the array behind
    [vtkPoints]: one whose data type is [VTK_FLOAT] holds floats, so that a
    coordinate given as a double is converted on the way in.
    [float_of_double] is that conversion, [static_cast<float>], read back
    as a double: rounding to the nearest binary32 number, ties to even, a
    value beyond the largest float becoming an infinity. *)
Definition float_of_double (x : float) : float :=
  match Prim2SF x with
  | S754_finite s m e => SF2Prim (binary_round 24 128 s m e)
  | _ => x
  end.

(** A point as an array of data type [t] holds it.  The model knows the
    two floating types; under any other tag the double is kept. *)
Definition stored (t : Z) (x : Point3) : Point3 :=
  if bool_decide (t = VTK_FLOAT)
  then (float_of_double x.1.1, float_of_double x.1.2, float_of_double x.2)
  else x.

(** [InsertNextPoint] appends the point, converted to the data type of the
    array, and returns the identifier of the new point. *)
Definition InsertNextPoint (x : Point3) (pts : vtkPoints) : Z * vtkPoints :=
  (Z.of_nat (length (Data pts)),
   mkPoints (DataType pts) (Data pts ++ [stored (DataType pts) x])).

(** [vtkAlgorithm::DesiredOutputPrecision]. *)
Definition SINGLE_PRECISION : Z := 0.
Definition DOUBLE_PRECISION : Z := 1.
Definition DEFAULT_PRECISION : Z := 2.

(** Modelled from the spec: [vtkCellArray] as far as the filter writes it.
    "Allocate one new output cell with the number of surviving vertices";
    "append the new id to the output cell's point list".  A cell keeps the
    size it was allocated with and the identifiers appended to it. *)
Record Cell := mkCell { npts : Z; pts : list Z }.

Definition InsertNextCell (n : Z) (cells : list Cell) : Z * list Cell :=
  (Z.of_nat (length cells), cells ++ [mkCell n []]).

(** [InsertCellPoint] appends to the cell inserted last; there is none to
    append to when the array is empty. *)
Definition InsertCellPoint (k : Z) (cells : list Cell) : option (list Cell) :=
  match reverse cells with
  | [] => None
  | c :: earlier => Some (reverse earlier ++ [mkCell (npts c) (pts c ++ [k])])
  end.

(** Modelled from the spec: the attribute tables ([vtkPointData],
    [vtkCellData]) support "copy-one-record(sourceId -> destId)".  The model
    keeps the log of the copies, in the order they were made. *)
Abbreviation AttributeCopies := (list (Z * Z)).

Definition CopyData (fromId toId : Z) (log : AttributeCopies) : AttributeCopies :=
  log ++ [(fromId, toId)].

(** [vtkPolyData] on the input side: the line cells and the points, either
    of which may be missing (a null pointer). *)
Record PolyData := mkPolyData {
  Lines : option (list (list Z));
  Points : option vtkPoints
}.

(** The output object: what [SetPoints], [SetLines] and the two attribute
    tables hold when [RequestData] returns.  [GetPoints]/[GetLines] of an
    output that was never set are null. *)
Record Output := mkOutput {
  outPoints : option vtkPoints;
  outLines : option (list Cell);
  outPD : AttributeCopies;
  outCD : AttributeCopies
}.

Definition empty_output : Output := mkOutput None None [] [].

(** The two geometric primitives of [vtkMath] and [vtkLine] the error
    estimator calls.  Their code is not part of this file's sources, so
    they are an interface. *)
Class LineGeometry := {
  Distance2BetweenPoints : Point3 → Point3 → float;
  DistanceToLine : Point3 → Point3 → Point3 → float
}.

(** [vtkPriorityQueue], as the specification describes it: "insert(priority,
    id), pop-minimum (returns id or a sentinel empty value), delete-by-id
    (removes a specific id regardless of its priority, no-op if absent), and
    reset (clear all entries)".

    [pq_ids] is the abstraction the laws are stated on: the identifiers the
    queue currently holds, with multiplicity and in no particular order.
    The laws say nothing on which entry [Pop] selects: no property proved
    below depends on it, so they hold for every tie-breaking rule. *)
Class PriorityQueue := {
  pq : Type;
  pq_New : pq;
  Insert : float → Z → pq → pq;
  Pop : pq → Z * pq;
  DeleteId : Z → pq → pq;
  Reset : pq → pq;
  pq_ids : pq → list Z;
  pq_ids_New : pq_ids pq_New = [];
  pq_ids_Insert p i q :
    0 ≤ i → i ∉ pq_ids q → pq_ids (Insert p i q) ≡ₚ i :: pq_ids q;
  pq_ids_DeleteId i q :
    pq_ids (DeleteId i q) ≡ₚ filter (λ j, j ≠ i) (pq_ids q);
  pq_ids_Reset q : pq_ids (Reset q) = [];
  pq_Pop_empty q : pq_ids q = [] → (Pop q).1 = -1 ∧ pq_ids (Pop q).2 = [];
  pq_Pop_nonempty q :
    pq_ids q ≠ [] → pq_ids q ≡ₚ (Pop q).1 :: pq_ids (Pop q).2
}.

(** ** The [Polyline] class *)

Module Vertex.

Record t := mk {
  index : Z;
  id : Z;
  prev : option nat;
  next : option nat;
  removable : bool
}.

Definition set_prev (p : option nat) (v : t) : t :=
  mk (index v) (id v) p (next v) (removable v).
Definition set_next (n : option nat) (v : t) : t :=
  mk (index v) (id v) (prev v) n (removable v).
Definition set_removable (b : bool) (v : t) : t :=
  mk (index v) (id v) (prev v) (next v) b.

End Vertex.

Module Polyline.

Record t := mk {
  Size : Z;
  Vertices : list Vertex.t;
  IsLoop : bool
}.

(** The body of the constructor's [for] loop at [idx]. *)
Definition init_vertex (size : Z) (idx : nat) (pointId : Z) : Vertex.t :=
  Vertex.mk (unsigned_of_id (Z.of_nat idx)) pointId
    (if 0 <? Z.of_nat idx then Some (Nat.pred idx) else None)
    (if Z.of_nat idx <? size - 1 then Some (S idx) else None)
    true.

(** [Polyline(vertexOrdering, size)], with [size] the length of the
    ordering as [GetCurrentCell] delivers it.  The two assignments to
    [removable] write outside the array when [size] is 0. *)
Definition new (vertexOrdering : list Z) : option t :=
  let size := Z.of_nat (length vertexOrdering) in
  let vs := imap (init_vertex size) vertexOrdering in
  vl ← lookup_id vs (size - 1);
  let vs := <[Z.to_nat (size - 1) := Vertex.set_removable false vl]> vs in
  v0 ← lookup_id vs 0;
  let vs := <[0%nat := Vertex.set_removable false v0]> vs in
  v0 ← lookup_id vs 0;
  vl ← lookup_id vs (size - 1);
  Some (mk size vs (bool_decide (Vertex.id v0 = Vertex.id vl))).

(** [Remove(vertexIdx)]: both neighbours are dereferenced without a test. *)
Definition Remove (this : t) (vertexIdx : Z) : option t :=
  let vs := Vertices this in
  v ← lookup_id vs vertexIdx;
  p ← Vertex.prev v;
  pv ← vs !! p;
  let vs := <[p := Vertex.set_next (Vertex.next v) pv]> vs in
  v ← lookup_id vs vertexIdx;
  n ← Vertex.next v;
  nv ← vs !! n;
  let vs := <[n := Vertex.set_prev (Vertex.prev v) nv]> vs in
  Some (mk (Size this - 1) vs (IsLoop this)).

End Polyline.

(** ** The filter *)

Section Filter.
Context {Geometry : LineGeometry} {Queue : PriorityQueue}.

(** The members of [vtkDecimatePolylineFilter]. *)
Record Filter := mkFilter {
  TargetReduction : float;
  MaximumError : float;
  OutputPointsPrecision : Z;
  PriorityQueue_ : pq
}.

(** Modelled from the spec: [VTK_DOUBLE_MAX], "the largest representable
    value, meaning unconstrained". *)
Definition VTK_DOUBLE_MAX : float := 0x1.fffffffffffffp1023%float.

(** The constructor: "create object with specified reduction of 90%".
    [0x1.ccccccccccccdp-1] is the double that the literal [0.90] denotes. *)
Definition vtkDecimatePolylineFilter_new : Filter :=
  mkFilter 0x1.ccccccccccccdp-1%float VTK_DOUBLE_MAX DEFAULT_PRECISION pq_New.

(** [ComputeError(input, polyline, idx)]. *)
Definition ComputeError (input : PolyData) (polyline : Polyline.t) (idx : Z)
  : option float :=
  inputPoints ← Points input;
  v ← lookup_id (Polyline.Vertices polyline) idx;
  p ← Vertex.prev v;
  pv ← Polyline.Vertices polyline !! p;
  x1 ← GetPoint inputPoints (Vertex.id pv);
  x ← GetPoint inputPoints (Vertex.id v);
  n ← Vertex.next v;
  nv ← Polyline.Vertices polyline !! n;
  x2 ← GetPoint inputPoints (Vertex.id nv);
  Some (if PrimFloat.eqb (Distance2BetweenPoints x1 x2) 0%float then 0%float
        else DistanceToLine x x1 x2).

(** One round of the seeding loop, at [vertexIdx]. *)
Definition seed_vertex (self : Filter) (input : PolyData) (polyline : Polyline.t)
    (q : pq) (vertexIdx : Z) : option pq :=
  v ← lookup_id (Polyline.Vertices polyline) vertexIdx;
  if Vertex.removable v then
    error ← ComputeError input polyline vertexIdx;
    Some (if PrimFloat.leb error (MaximumError self) then Insert error vertexIdx q
          else q)
  else Some q.

(** [for (vertexIdx = 0; vertexIdx < polyline->Size; ++vertexIdx)]. *)
Fixpoint seed_from (self : Filter) (input : PolyData) (polyline : Polyline.t)
    (indices : list Z) (q : pq) : option pq :=
  match indices with
  | [] => Some q
  | vertexIdx :: rest =>
      q ← seed_vertex self input polyline q vertexIdx;
      seed_from self input polyline rest q
  end.

Definition seed (self : Filter) (input : PolyData) (polyline : Polyline.t) (q : pq)
  : option pq :=
  seed_from self input polyline (seqZ 0 (Polyline.Size polyline)) q.

(** The state of the reduction loop. *)
Record LoopState := mkLoop {
  polyline_ : Polyline.t;
  queue_ : pq;
  currentNumPts : Z
}.

(** The first conjunct of the condition of the [while]: the reduction
    reached so far is below the target. *)
Definition below_target (self : Filter) (polylineSize currentNumPts : Z) : bool :=
  PrimFloat.ltb
    (1 - double_of_id currentNumPts / double_of_id polylineSize)%float
    (TargetReduction self).

(** Its second conjunct: more than two vertices are left, more than three
    in a loop. *)
Definition above_floor (IsLoop : bool) (currentNumPts : Z) : bool :=
  (negb IsLoop && (2 <? currentNumPts)) || (IsLoop && (3 <? currentNumPts)).

(** The condition of the [while]. *)
Definition loop_guard (self : Filter) (polylineSize : Z) (s : LoopState) : bool :=
  below_target self polylineSize (currentNumPts s)
  && above_floor (Polyline.IsLoop (polyline_ s)) (currentNumPts s).

(** The update of a neighbour of the removed vertex: recompute, delete the
    stale entry, insert again when the error is within the ceiling. *)
Definition requeue (self : Filter) (input : PolyData) (polyline : Polyline.t)
    (q : pq) (idx : Z) : option pq :=
  error ← ComputeError input polyline idx;
  let q := DeleteId idx q in
  Some (if PrimFloat.leb error (MaximumError self) then Insert error idx q else q).

(** How one round of the [while] body ends. *)
Inductive Round :=
  | Break (s : LoopState)
  | Continue (s : LoopState).

Definition loop_body (self : Filter) (input : PolyData) (s : LoopState)
  : option Round :=
  let '(poppedIdx, q) := Pop (queue_ s) in
  if poppedIdx <? 0 then Some (Break (mkLoop (polyline_ s) q (currentNumPts s)))
  else
    let currentNumPts := currentNumPts s - 1 in
    polyline ← Polyline.Remove (polyline_ s) poppedIdx;
    v ← lookup_id (Polyline.Vertices polyline) poppedIdx;
    p ← Vertex.prev v;
    pv ← Polyline.Vertices polyline !! p;
    let prevIdx := Vertex.index pv in
    n ← Vertex.next v;
    nv ← Polyline.Vertices polyline !! n;
    let nextIdx := Vertex.index nv in
    q ← (if Vertex.removable pv then requeue self input polyline q prevIdx
         else Some q);
    q ← (if Vertex.removable nv then requeue self input polyline q nextIdx
         else Some q);
    Some (Continue (mkLoop polyline q currentNumPts)).

(** The [while] loop.  Each round that continues takes one vertex away and
    the guard asks for more than two, so [polylineSize] rounds of fuel are
    never used up ([reduce_spec] below). *)
Fixpoint reduce (fuel : nat) (self : Filter) (input : PolyData)
    (polylineSize : Z) (s : LoopState) : option LoopState :=
  if loop_guard self polylineSize s then
    match fuel with
    | O => None
    | S fuel =>
        match loop_body self input s with
        | None => None
        | Some (Break s) => Some s
        | Some (Continue s) => reduce fuel self input polylineSize s
        end
    end
  else Some s.

(** What the emission loop carries: the new points and lines, the two
    attribute tables and [pointIdMap]. *)
Record Assembly := mkAssembly {
  newPts : vtkPoints;
  newLines : list Cell;
  asmPD : AttributeCopies;
  asmCD : AttributeCopies;
  pointIdMap : gmap Z Z
}.

(** The body of the emission loop, for the vertex whose [id] is [pointId]. *)
Definition emit_point (inputPoints : vtkPoints) (pointId : Z) (a : Assembly)
  : option Assembly :=
  match pointIdMap a !! pointId with
  | None =>
      x ← GetPoint inputPoints pointId;
      let '(newId, newPts) := InsertNextPoint x (newPts a) in
      newLines ← InsertCellPoint newId (newLines a);
      Some (mkAssembly newPts newLines
              (CopyData pointId newId (asmPD a)) (asmCD a)
              (<[pointId := newId]> (pointIdMap a)))
  | Some newId =>
      newLines ← InsertCellPoint newId (newLines a);
      Some (mkAssembly (newPts a) newLines (asmPD a) (asmCD a) (pointIdMap a))
  end.

(** [while (vertex != nullptr) { ...; vertex = vertex->next; }].  The walk
    never visits a slot twice ([emit_walk_chain] below), so one unit of fuel
    per slot is enough. *)
Fixpoint emit_walk (fuel : nat) (inputPoints : vtkPoints) (vs : list Vertex.t)
    (vertex : option nat) (a : Assembly) : option Assembly :=
  match vertex with
  | None => Some a
  | Some slot =>
      match fuel with
      | O => None
      | S fuel =>
          v ← vs !! slot;
          a ← emit_point inputPoints (Vertex.id v) a;
          emit_walk fuel inputPoints vs (Vertex.next v) a
      end
  end.

(** What the outer loop carries from one polyline to the next. *)
Record RunState := mkRun {
  assembly : Assembly;
  runQueue : pq;
  firstVertexIndex : Z
}.

(** The body of the outer loop after the abort check, for the cell
    [polyLineVerts]. *)
Definition process_polyline (self : Filter) (input : PolyData)
    (inputPoints : vtkPoints) (polyLineVerts : list Z) (r : RunState)
  : option RunState :=
  let polylineSize := Z.of_nat (length polyLineVerts) in
  polyline ← Polyline.new polyLineVerts;
  q ← seed self input polyline (runQueue r);
  s ← reduce (Z.to_nat polylineSize) self input polylineSize
        (mkLoop polyline q polylineSize);
  let a := assembly r in
  let '(newId, newLines) := InsertNextCell (currentNumPts s) (newLines a) in
  let outCD := CopyData (firstVertexIndex r) newId (asmCD a) in
  let a := mkAssembly (newPts a) newLines (asmPD a) outCD (pointIdMap a) in
  _ ← lookup_id (Polyline.Vertices (polyline_ s)) 0;
  a ← emit_walk (length (Polyline.Vertices (polyline_ s))) inputPoints
        (Polyline.Vertices (polyline_ s)) (Some 0%nat) a;
  Some (mkRun a (Reset (queue_ s)) (firstVertexIndex r + polylineSize)).

(** The outer loop.  [CheckAbort] is the cooperative cancellation test of
    the pipeline: [aborts n] is its answer at the [n]-th call. *)
Fixpoint process_lines (self : Filter) (input : PolyData) (inputPoints : vtkPoints)
    (aborts : nat → bool) (call : nat) (lines : list (list Z)) (r : RunState)
  : option RunState :=
  match lines with
  | [] => Some r
  | polyLineVerts :: rest =>
      if aborts call then Some r
      else
        r ← process_polyline self input inputPoints polyLineVerts r;
        process_lines self input inputPoints aborts (S call) rest r
  end.

(** The data type of the new points, from [OutputPointsPrecision]; a fresh
    [vtkPoints] holds floats. *)
Definition output_data_type (self : Filter) (inputPoints : vtkPoints) : Z :=
  if bool_decide (OutputPointsPrecision self = DEFAULT_PRECISION)
  then DataType inputPoints
  else if bool_decide (OutputPointsPrecision self = SINGLE_PRECISION)
  then VTK_FLOAT
  else if bool_decide (OutputPointsPrecision self = DOUBLE_PRECISION)
  then VTK_DOUBLE
  else VTK_FLOAT.

(** [RequestData]: the return value, the filter's queue afterwards and the
    output object (which starts empty). *)
Definition RequestData (self : Filter) (aborts : nat → bool) (input : PolyData)
  : option (Z * pq * Output) :=
  match Lines input, Points input with
  | Some inputLines, Some inputPoints =>
      let numLines := Z.of_nat (length inputLines) in
      let numPts := GetNumberOfPoints inputPoints in
      if (numLines <? 1) || (numPts <? 1)
      then Some (1, PriorityQueue_ self, empty_output)
      else
        let a :=
          mkAssembly (mkPoints (output_data_type self inputPoints) []) [] [] [] ∅ in
        r ← process_lines self input inputPoints aborts 0 inputLines
              (mkRun a (PriorityQueue_ self) 0);
        Some (1, runQueue r,
              mkOutput (Some (newPts (assembly r))) (Some (newLines (assembly r)))
                (asmPD (assembly r)) (asmCD (assembly r)))
  | _, _ => Some (1, PriorityQueue_ self, empty_output)
  end.

End Filter.

(** ** Reference instances of the two interfaces

    They make the filter executable; the concrete runs below use them. *)

(** Modelled from the spec: "a squared-distance-between-points primitive
    operating on 3-component coordinates". *)
Definition squared_distance (p q : Point3) : float :=
  let '(p0, p1, p2) := p in
  let '(q0, q1, q2) := q in
  ((p0 - q0) * (p0 - q0) + (p1 - q1) * (p1 - q1) + (p2 - q2) * (p2 - q2))%float.

(** Modelled from the spec: "a point-to-line perpendicular distance
    primitive", "the perpendicular (point-to-line) distance from the slot's
    position to the infinite line through prev and next": the length of the
    cross product of [x - p1] and [p2 - p1] over the length of [p2 - p1]. *)
Definition perpendicular_distance (x p1 p2 : Point3) : float :=
  let '(x0, x1, x2) := x in
  let '(a0, a1, a2) := p1 in
  let '(b0, b1, b2) := p2 in
  let '(u0, u1, u2) := ((x0 - a0)%float, (x1 - a1)%float, (x2 - a2)%float) in
  let '(d0, d1, d2) := ((b0 - a0)%float, (b1 - a1)%float, (b2 - a2)%float) in
  let '(c0, c1, c2) :=
    ((u1 * d2 - u2 * d1)%float, (u2 * d0 - u0 * d2)%float, (u0 * d1 - u1 * d0)%float) in
  PrimFloat.sqrt
    ((c0 * c0 + c1 * c1 + c2 * c2) / (d0 * d0 + d1 * d1 + d2 * d2))%float.

#[export] Instance EuclideanGeometry : LineGeometry := {|
  Distance2BetweenPoints := squared_distance;
  DistanceToLine := perpendicular_distance
|}.

(** [vtkMath::Dot], [vtkMath::Norm] and the three-argument
    [vtkLine::DistanceToLine] as the toolkit's vtkMath.h and vtkLine.cxx
    write them.  Those files are not among the sources of the filter; the
    definitions record the toolkit's arithmetic, operation by operation,
    for the comparison with [perpendicular_distance]: the value is the
    square of the distance, and it is obtained as the difference of two
    rounded terms. *)
Definition Dot (a b : Point3) : float :=
  (a.1.1 * b.1.1 + a.1.2 * b.1.2 + a.2 * b.2)%float.

Definition Norm (v : Point3) : float :=
  PrimFloat.sqrt (v.1.1 * v.1.1 + v.1.2 * v.1.2 + v.2 * v.2)%float.

Definition vtkLine_DistanceToLine (x p1 p2 : Point3) : float :=
  let np1 : Point3 := ((x.1.1 - p1.1.1)%float, (x.1.2 - p1.1.2)%float,
                       (x.2 - p1.2)%float) in
  let p1p2 : Point3 := ((p1.1.1 - p2.1.1)%float, (p1.1.2 - p2.1.2)%float,
                        (p1.2 - p2.2)%float) in
  let den := Norm p1p2 in
  if PrimFloat.eqb den 0%float then Dot np1 np1
  else
    let p1p2 : Point3 := ((p1p2.1.1 / den)%float, (p1p2.1.2 / den)%float,
                          (p1p2.2 / den)%float) in
    let proj := Dot np1 p1p2 in
    (Dot np1 np1 - proj * proj)%float.

(** The two primitives as the toolkit has them.  It is not registered as
    an instance: a statement that is to be read with it says so. *)
Definition VtkGeometry : LineGeometry := {|
  Distance2BetweenPoints := squared_distance;
  DistanceToLine := vtkLine_DistanceToLine
|}.

(** Modelled from the spec: the min-priority queue as a list of
    (priority, id) entries kept in ascending order of priority; among equal
    priorities the entry inserted first is popped first. *)
Fixpoint sorted_insert (p : float) (i : Z) (q : list (float * Z)) : list (float * Z) :=
  match q with
  | [] => [(p, i)]
  | e :: rest =>
      if PrimFloat.ltb p e.1 then (p, i) :: q else e :: sorted_insert p i rest
  end.

Definition list_pop (q : list (float * Z)) : Z * list (float * Z) :=
  match q with
  | [] => (-1, [])
  | e :: rest => (e.2, rest)
  end.

Definition list_delete (i : Z) (q : list (float * Z)) : list (float * Z) :=
  filter (λ e, e.2 ≠ i) q.

Lemma sorted_insert_ids p i q : (sorted_insert p i q).*2 ≡ₚ i :: q.*2.
Proof.
  induction q as [|e rest IH]; simpl; [done|].
  destruct (PrimFloat.ltb p e.1); simpl; [done|].
  rewrite IH. apply Permutation_swap.
Qed.

Lemma list_delete_ids i q : (list_delete i q).*2 = filter (λ j, j ≠ i) q.*2.
Proof.
  unfold list_delete. induction q as [|e rest IH]; [done|].
  rewrite fmap_cons, !filter_cons, <- IH.
  destruct (decide (e.2 ≠ i)); done.
Qed.

Lemma list_pop_nonempty q :
  q.*2 ≠ [] → q.*2 ≡ₚ (list_pop q).1 :: ((list_pop q).2).*2.
Proof. destruct q; [done|]. reflexivity. Qed.

Lemma list_delete_ids_perm i q :
  (list_delete i q).*2 ≡ₚ filter (λ j, j ≠ i) q.*2.
Proof. by rewrite list_delete_ids. Qed.

Lemma list_pop_empty (q : list (float * Z)) :
  q.*2 = [] → (list_pop q).1 = -1 ∧ ((list_pop q).2).*2 = [].
Proof. by destruct q. Qed.

#[export] Instance ListQueue : PriorityQueue := {|
  pq := list (float * Z);
  pq_New := [];
  Insert := sorted_insert;
  Pop := list_pop;
  DeleteId := list_delete;
  Reset := λ _, [];
  pq_ids := λ q, q.*2;
  pq_ids_New := eq_refl;
  pq_ids_Insert := λ p i q _ _, sorted_insert_ids p i q;
  pq_ids_DeleteId := list_delete_ids_perm;
  pq_ids_Reset := λ _, eq_refl;
  pq_Pop_empty := list_pop_empty;
  pq_Pop_nonempty := list_pop_nonempty
|}.

(** ** The vocabulary of the statements *)

(** The slots met from [vertex] by following [next]: the live vertices, in
    list order. *)
Fixpoint walk_slots (fuel : nat) (vs : list Vertex.t) (vertex : option nat)
  : list nat :=
  match vertex, fuel with
  | Some slot, S fuel =>
      match vs !! slot with
      | Some v => slot :: walk_slots fuel vs (Vertex.next v)
      | None => []
      end
  | _, _ => []
  end.

Definition live_slots (polyline : Polyline.t) : list nat :=
  walk_slots (length (Polyline.Vertices polyline)) (Polyline.Vertices polyline)
    (Some 0%nat).

(** The original point identifiers of the live vertices. *)
Definition live_ids (polyline : Polyline.t) : list Z :=
  omap (λ slot, Vertex.id <$> Polyline.Vertices polyline !! slot)
    (live_slots polyline).

(** [chain vs p l]: the slots [l] are linked to each other in this order,
    forwards and backwards, the first one having [p] for its [prev] and the
    last one no [next]; slot numbers increase along the list. *)
Fixpoint chain (vs : list Vertex.t) (p : option nat) (l : list nat) : Prop :=
  match l with
  | [] => True
  | a :: rest =>
      ∃ v, vs !! a = Some v ∧ Vertex.prev v = p ∧ Vertex.next v = head rest ∧
           (∀ p', p = Some p' → (p' < a)%nat) ∧ chain vs (Some a) rest
  end.

(** The fields of a vertex that [Remove] never writes. *)
Definition static (ordering : list Z) (vs : list Vertex.t) : Prop :=
  length vs = length ordering ∧
  ∀ i v, vs !! i = Some v →
    Vertex.index v = Z.of_nat i ∧ ordering !! i = Some (Vertex.id v) ∧
    Vertex.removable v = bool_decide (0 < i < length ordering - 1)%nat.

(** [linked ordering polyline live]: the polyline built from [ordering]
    has exactly the vertices [live] left, the two ends among them. *)
Definition linked (ordering : list Z) (polyline : Polyline.t) (live : list nat)
  : Prop :=
  static ordering (Polyline.Vertices polyline) ∧
  chain (Polyline.Vertices polyline) None live ∧
  head live = Some 0%nat ∧
  last live = Some (length ordering - 1)%nat ∧
  Polyline.Size polyline = Z.of_nat (length live) ∧
  Polyline.IsLoop polyline = bool_decide (head ordering = last ordering).

Section Vocabulary.
Context {Geometry : LineGeometry} {Queue : PriorityQueue}.

(** [i] is the slot of a live vertex other than the two ends. *)
Definition interior (ordering : list Z) (live : list nat) (i : Z) : Prop :=
  ∃ k : nat, i = Z.of_nat k ∧ k ∈ live ∧ (0 < k < length ordering - 1)%nat.

(** The error of slot [i], computed on the present links, is within the
    ceiling. *)
Definition within_ceiling (self : Filter) (input : PolyData)
    (polyline : Polyline.t) (i : Z) : Prop :=
  ∃ error, ComputeError input polyline i = Some error ∧
           PrimFloat.leb error (MaximumError self) = true.

(** What holds of the queue between two rounds, up to the slots [stale]
    whose error is about to be recomputed: it holds no slot twice, and
    the slots it holds are the interior live vertices whose error is
    within the ceiling. *)
Definition queue_ok (self : Filter) (input : PolyData) (ordering : list Z)
    (polyline : Polyline.t) (live : list nat) (stale : list Z) (q : pq) : Prop :=
  NoDup (pq_ids q) ∧
  (∀ i, i ∈ pq_ids q →
     interior ordering live i ∧
     (i ∉ stale → within_ceiling self input polyline i)) ∧
  (∀ i, interior ordering live i → i ∉ stale →
     within_ceiling self input polyline i → i ∈ pq_ids q).

(** The invariant of the [while] loop. *)
Definition reducing (self : Filter) (input : PolyData) (ordering : list Z)
    (live : list nat) (s : LoopState) : Prop :=
  linked ordering (polyline_ s) live ∧
  queue_ok self input ordering (polyline_ s) live [] (queue_ s) ∧
  currentNumPts s = Z.of_nat (length live).

(** The states the loop passes through at the head of a round. *)
Inductive rounds (self : Filter) (input : PolyData) (polylineSize : Z)
    (s : LoopState) : LoopState → Prop :=
  | rounds_start : rounds self input polylineSize s s
  | rounds_next s1 s2 :
      rounds self input polylineSize s s1 →
      loop_guard self polylineSize s1 = true →
      loop_body self input s1 = Some (Continue s2) →
      rounds self input polylineSize s s2.

(** The states of the reduction of the cell [ordering]: those the loop
    reaches from the seeded queue, the queue being empty beforehand. *)
Definition reduction_state (self : Filter) (input : PolyData) (ordering : list Z)
    (q0 : pq) (s : LoopState) : Prop :=
  ∃ polyline q,
    Polyline.new ordering = Some polyline ∧
    seed self input polyline q0 = Some q ∧
    rounds self input (Z.of_nat (length ordering))
      (mkLoop polyline q (Z.of_nat (length ordering))) s.

(** The error of a vertex from the point identifiers of its neighbours. *)
Definition error_at (inputPoints : vtkPoints) (prevId pointId nextId : Z)
  : option float :=
  x1 ← GetPoint inputPoints prevId;
  x ← GetPoint inputPoints pointId;
  x2 ← GetPoint inputPoints nextId;
  Some (if PrimFloat.eqb (Distance2BetweenPoints x1 x2) 0%float then 0%float
        else DistanceToLine x x1 x2).

(** The least number of vertices the loop leaves. *)
Definition floor_size (ordering : list Z) : nat :=
  if bool_decide (head ordering = last ordering) then 3%nat else 2%nat.

(** The condition of the [while] for the cell [ordering] when
    [currentNumPts] vertices are left. *)
Definition guard_at (self : Filter) (ordering : list Z) (currentNumPts : Z) : bool :=
  below_target self (Z.of_nat (length ordering)) currentNumPts
  && above_floor (bool_decide (head ordering = last ordering)) currentNumPts.

(** No vertex of the cell is ever kept out of the queue by its error:
    between whichever two points of the cell it comes to lie, its error is
    within the ceiling. *)
Definition always_within (self : Filter) (inputPoints : vtkPoints)
    (ordering : list Z) : Prop :=
  ∀ a k b, a ∈ ordering → k ∈ ordering → b ∈ ordering →
    ∃ error, error_at inputPoints a k b = Some error ∧
             PrimFloat.leb error (MaximumError self) = true.

(** The emission loop as a fold over the point identifiers it meets. *)
Fixpoint emit_ids (inputPoints : vtkPoints) (ids : list Z) (a : Assembly)
  : option Assembly :=
  match ids with
  | [] => Some a
  | x :: rest => a ← emit_point inputPoints x a; emit_ids inputPoints rest a
  end.

(** The emission of one cell whose surviving identifiers are [kept]. *)
Definition emit_cell (inputPoints : vtkPoints) (firstVertexIndex : Z)
    (kept : list Z) (a : Assembly) : option Assembly :=
  let '(newId, newLines) := InsertNextCell (Z.of_nat (length kept)) (newLines a) in
  emit_ids inputPoints kept
    (mkAssembly (newPts a) newLines (asmPD a)
       (CopyData firstVertexIndex newId (asmCD a)) (pointIdMap a)).

(** What is left of a cell: a sublist of its identifiers that keeps both
    ends and has not shrunk under the floor. *)
Definition survivors (self : Filter) (inputPoints : vtkPoints)
    (ordering kept : list Z) : Prop :=
  kept `sublist_of` ordering ∧
  head kept = head ordering ∧
  last kept = last ordering ∧
  (length ordering `min` floor_size ordering ≤ length kept)%nat ∧
  (below_target self (Z.of_nat (length ordering))
     (Z.of_nat (length ordering)) = false →
   kept = ordering) ∧
  (always_within self inputPoints ordering →
   guard_at self ordering (Z.of_nat (length kept)) = false).

(** The new points, the log of point-attribute copies and [pointIdMap]
    tell the same story: the [k]-th new point is the copy of the source of
    the [k]-th log entry, whose destination is [k]; no source occurs twice;
    the map sends each source to its destination. *)
Definition asm_ok (inputPoints : vtkPoints) (a : Assembly) : Prop :=
  (asmPD a).*2 = seqZ 0 (Z.of_nat (length (asmPD a))) ∧
  NoDup (asmPD a).*1 ∧
  Forall2 (λ x p, stored (DataType (newPts a)) <$> GetPoint inputPoints x
                  = Some p)
    (asmPD a).*1 (Data (newPts a)) ∧
  (∀ x k, pointIdMap a !! x = Some k ↔ (x, k) ∈ asmPD a).

(** The cell [c] lists the new identifiers of the points [kept]. *)
Definition cell_ok (m : gmap Z Z) (kept : list Z) (c : Cell) : Prop :=
  npts c = Z.of_nat (length kept) ∧
  Forall2 (λ k x, m !! x = Some k) (pts c) kept.

(** The cell-attribute copies of the outer loop: sources step by the sizes
    of the input cells, destinations by one. *)
Fixpoint cell_data_log (firstVertexIndex cellId : Z) (lines : list (list Z))
  : AttributeCopies :=
  match lines with
  | [] => []
  | line :: rest =>
      (firstVertexIndex, cellId)
      :: cell_data_log (firstVertexIndex + Z.of_nat (length line)) (cellId + 1) rest
  end.

(** The emission of several cells, each given by its input cell and by
    what is left of it. *)
Fixpoint emit_cells (inputPoints : vtkPoints) (firstVertexIndex : Z)
    (cells : list (list Z * list Z)) (a : Assembly) : option Assembly :=
  match cells with
  | [] => Some a
  | (line, kept) :: rest =>
      a ← emit_cell inputPoints firstVertexIndex kept a;
      emit_cells inputPoints (firstVertexIndex + Z.of_nat (length line)) rest a
  end.

(** How many cells the outer loop handles before the abort test says
    stop. *)
Fixpoint processed (aborts : nat → bool) (call : nat) (n : nat) : nat :=
  match n with
  | O => O
  | S n => if aborts call then O else S (processed aborts (S call) n)
  end.

(** The line cells of the input, none when it has no cell array. *)
Definition input_lines (input : PolyData) : list (list Z) :=
  default [] (Lines input).

(** The number of points of the input, zero when it has no points. *)
Definition input_point_count (input : PolyData) : Z :=
  from_option GetNumberOfPoints 0 (Points input).

(** The cells and the points of the output, none when the call returned
    before setting them. *)
Definition output_cells (out : Output) : list Cell := default [] (outLines out).

Definition output_points (out : Output) : list Point3 :=
  from_option Data [] (outPoints out).

(** A well-formed line cell: it has a point, fewer than [2^32] of them (so
    that [Vertex::index] numbers its slots), and every identifier names a
    point of the input. *)
Definition wf_line (numPts : Z) (line : list Z) : Prop :=
  line ≠ [] ∧ Z.of_nat (length line) < 2 ^ 32 ∧
  Forall (λ x, 0 ≤ x < numPts) line.

(** A well-formed call: well-formed line cells, and the filter's queue
    empty, as the constructor and every earlier call leave it. *)
Definition wf_input (self : Filter) (input : PolyData) : Prop :=
  pq_ids (PriorityQueue_ self) = [] ∧
  Forall (wf_line (input_point_count input)) (input_lines input).

(** The original identifier of the new point [k]: the source of the
    point-attribute copy made into [k]. *)
Definition source_of (out : Output) (k : Z) : Z :=
  from_option fst (-1) (lookup_id (outPD out) k).

(** An output cell in terms of the identifiers of the input. *)
Definition cell_source_ids (out : Output) (c : Cell) : list Z :=
  source_of out <$> pts c.

(** New point identifiers are handed out in order: reading the
    identifiers [ks] from left to right, when [next] identifiers are in
    use, each one is either the first unused number, which it then takes,
    or a number already in use.  The result is the number of identifiers
    in use at the end. *)
Fixpoint numbered_from (next : Z) (ks : list Z) : option Z :=
  match ks with
  | [] => Some next
  | k :: rest =>
      if bool_decide (k = next) then numbered_from (next + 1) rest
      else if bool_decide (0 ≤ k < next) then numbered_from next rest
      else None
  end.

End Vocabulary.

(** ** The inputs the statements are run on *)

(** The four points of the specification's scenario, (0,0,0), (1,0.01,0),
    (2,0,0), (3,0,0); [0x1.47ae147ae147bp-7] is the double that the
    literal [0.01] denotes. *)
Definition scenario_points : vtkPoints :=
  mkPoints VTK_DOUBLE
    [(0, 0, 0); (1, 0x1.47ae147ae147bp-7, 0); (2, 0, 0); (3, 0, 0)]%float.

(** Line cells over the scenario's points. *)
Definition lines_over_scenario (lines : list (list Z)) : PolyData :=
  mkPolyData (Some lines) (Some scenario_points).

(** The filter as constructed, with the reference queue, on the target
    reduction and error ceiling given. *)
Definition reference_filter (targetReduction maximumError : float)
  : Filter (Queue := ListQueue) :=
  mkFilter targetReduction maximumError DEFAULT_PRECISION [].

(** No cancellation. *)
Definition never_aborts : nat → bool := λ _, false.

(** The double that the literal [0.9] denotes. *)
Definition ninety_percent : float := 0x1.ccccccccccccdp-1%float.

(** The scenario's polyline as the constructor builds it. *)
Definition scenario_polyline : Polyline.t :=
  Eval vm_compute in default (Polyline.mk 0 [] false) (Polyline.new [0; 1; 2; 3]).


(** The scenario's points visited in the order 1, 0, 2, 3: point 0 lies
    off the line through points 1 and 2, point 2 lies on the line through
    points 0 and 3. *)
Definition reordered_polyline : Polyline.t :=
  Eval vm_compute in default (Polyline.mk 0 [] false) (Polyline.new [1; 0; 2; 3]).

(** Three points on a diagonal, (0,0,0), (0,1,1) and (0,3,3), and the one
    cell through them. *)
Definition diagonal_points : vtkPoints :=
  mkPoints VTK_DOUBLE [(0, 0, 0); (0, 1, 1); (0, 3, 3)]%float.

Definition diagonal_input : PolyData :=
  mkPolyData (Some [[0; 1; 2]]) (Some diagonal_points).

Definition diagonal_polyline : Polyline.t :=
  Eval vm_compute in default (Polyline.mk 0 [] false) (Polyline.new [0; 1; 2]).

(** The filter with a maximum error of zero. *)
Definition zero_ceiling_filter : Filter (Queue := ListQueue) :=
  reference_filter ninety_percent 0.

(** The reordered polyline after seeding under a maximum error of zero:
    slot 1 has a positive error and is left out, slot 2 has error zero and
    is in the queue. *)
Definition reordered_seeded : LoopState (Queue := ListQueue) :=
  mkLoop reordered_polyline [(0%float, 2)] 4.

(** The run state before the first cell, for the scenario's points. *)
Definition first_run_state : RunState (Queue := ListQueue) :=
  mkRun (mkAssembly (mkPoints VTK_DOUBLE []) [] [] [] ∅) [] 0.

(** The scenario after seeding under a maximum error of zero: neither
    interior vertex has error zero, the queue is empty. *)
Definition scenario_unseeded : LoopState (Queue := ListQueue) :=
  mkLoop scenario_polyline [] 4.

(** The scenario after seeding under the default maximum error: both
    interior vertices are in the queue, slot 2 with the smaller error. *)
Definition scenario_seeded : LoopState (Queue := ListQueue) :=
  Eval vm_compute in
    mkLoop scenario_polyline
      (default []
         (seed (reference_filter ninety_percent VTK_DOUBLE_MAX)
            (lines_over_scenario [[0; 1; 2; 3]]) scenario_polyline []))
      4.

(** The filter with its defaults but single precision asked for. *)
Definition single_precision_filter : Filter (Queue := ListQueue) :=
  mkFilter ninety_percent VTK_DOUBLE_MAX SINGLE_PRECISION [].

(** Cancellation at the [k]-th abort test, and not before. *)
Definition aborts_at (k : nat) : nat → bool := λ n, Nat.eqb n k.

(** The scenario's points with two cells, the second of three vertices. *)
Definition two_cells : PolyData :=
  lines_over_scenario [[0; 1; 2; 3]; [3; 2; 1]].

(** ** The linked list *)

Section LinkedList.
Implicit Types (vs : list Vertex.t) (l : list nat) (p : option nat).

Lemma lookup_id_nat {A} (xs : list A) (i : nat) :
  lookup_id xs (Z.of_nat i) = xs !! i.
Proof.
  unfold lookup_id. destruct (Z.ltb_spec (Z.of_nat i) 0); [lia|].
  by rewrite Nat2Z.id.
Qed.

Lemma lookup_id_Some {A} (xs : list A) (i : Z) (x : A) :
  lookup_id xs i = Some x ↔ 0 ≤ i ∧ xs !! Z.to_nat i = Some x.
Proof.
  unfold lookup_id. destruct (Z.ltb_spec i 0).
  - split; [done|lia].
  - split; [by split|by intros [_ ?]].
Qed.

Lemma chain_lt vs a l : chain vs (Some a) l → Forall (λ x, (a < x)%nat) l.
Proof.
  revert a. induction l as [|b rest IH]; intros a; [constructor|].
  intros (v & _ & _ & _ & Hlt & Hrest). specialize (Hlt a eq_refl).
  constructor; [done|].
  eapply Forall_impl; [apply IH, Hrest|]. simpl. lia.
Qed.

Lemma chain_NoDup vs p l : chain vs p l → NoDup l.
Proof.
  revert p. induction l as [|a rest IH]; intros p; [constructor|].
  intros (v & _ & _ & _ & _ & Hrest). constructor; [|by eapply IH].
  intros Hin. pose proof (chain_lt _ _ _ Hrest) as Hlt.
  rewrite Forall_forall in Hlt. specialize (Hlt _ Hin). lia.
Qed.

Lemma chain_lookup vs p l a :
  chain vs p l → a ∈ l → is_Some (vs !! a).
Proof.
  revert p. induction l as [|b rest IH]; intros p; [by rewrite elem_of_nil|].
  intros (v & Hv & _ & _ & _ & Hrest). rewrite elem_of_cons.
  intros [->|Hin]; [by eexists|]. by eapply IH.
Qed.

Lemma chain_length vs p a rest :
  chain vs p (a :: rest) → (a + length (a :: rest) ≤ length vs)%nat.
Proof.
  revert p a. induction rest as [|b r IH]; intros p a.
  - intros (v & Hv & _). apply lookup_lt_Some in Hv. simpl. lia.
  - intros (v & _ & _ & _ & _ & Hrest).
    pose proof (IH _ _ Hrest) as Hb.
    destruct Hrest as (_ & _ & _ & _ & Hlt & _).
    specialize (Hlt a eq_refl). simpl in *. lia.
Qed.

Lemma chain_frame vs p l k w :
  chain vs p l → k ∉ l → chain (<[k:=w]> vs) p l.
Proof.
  revert p. induction l as [|a rest IH]; intros p; [done|].
  intros (v & Hv & Hp & Hn & Hlt & Hrest) Hk.
  apply not_elem_of_cons in Hk as [Hka Hk].
  exists v. rewrite list_lookup_insert_ne by done. split_and!; auto.
Qed.

Lemma chain_walk vs p a rest fuel :
  chain vs p (a :: rest) → (length (a :: rest) ≤ fuel)%nat →
  walk_slots fuel vs (Some a) = a :: rest.
Proof.
  revert p a fuel. induction rest as [|b r IH]; intros p a fuel.
  - intros (v & Hv & _ & Hn & _) Hfuel.
    destruct fuel as [|fuel]; simpl in *; [lia|].
    rewrite Hv, Hn. by destruct fuel.
  - intros (v & Hv & _ & Hn & _ & Hrest) Hfuel.
    destruct fuel as [|fuel]; simpl in *; [lia|].
    rewrite Hv, Hn. simpl. f_equal. eapply IH; [done|]. simpl. lia.
Qed.

(** The vertices the constructor leaves, in closed form. *)
Lemma new_spec ordering :
  ordering ≠ [] →
  ∃ polyline,
    Polyline.new ordering = Some polyline ∧
    Polyline.Size polyline = Z.of_nat (length ordering) ∧
    Polyline.IsLoop polyline = bool_decide (head ordering = last ordering) ∧
    length (Polyline.Vertices polyline) = length ordering ∧
    ∀ i x, ordering !! i = Some x →
      Polyline.Vertices polyline !! i =
        Some (Vertex.mk (unsigned_of_id (Z.of_nat i)) x
                (if decide (0 < i)%nat then Some (Nat.pred i) else None)
                (if decide (i < length ordering - 1)%nat then Some (S i) else None)
                (bool_decide (0 < i < length ordering - 1)%nat)).
Proof.
  intros Hne. set (N := length ordering).
  assert (HN : (0 < N)%nat) by (unfold N; destruct ordering; [done|simpl; lia]).
  set (vs0 := imap (Polyline.init_vertex (Z.of_nat N)) ordering).
  assert (Hlen0 : length vs0 = N) by apply length_imap.
  assert (Hvs0 : ∀ i x, ordering !! i = Some x →
            vs0 !! i = Some (Polyline.init_vertex (Z.of_nat N) i x)).
  { intros i x Hx. unfold vs0. by rewrite list_lookup_imap, Hx. }
  destruct (lookup_lt_is_Some_2 ordering (N - 1)) as [xl Hxl]; [lia|].
  destruct (lookup_lt_is_Some_2 ordering 0) as [x0 Hx0]; [lia|].
  unfold Polyline.new. fold N. fold vs0.
  replace (Z.of_nat N - 1) with (Z.of_nat (N - 1)) by lia.
  rewrite !lookup_id_nat, Nat2Z.id, (Hvs0 _ _ Hxl). simpl.
  set (vs1 := <[(N - 1)%nat := _]> vs0).
  assert (Hlen1 : length vs1 = N) by (unfold vs1; by rewrite length_insert).
  change 0 with (Z.of_nat 0). rewrite !lookup_id_nat.
  destruct (lookup_lt_is_Some_2 vs1 0) as [v0 Hv0]; [lia|].
  rewrite Hv0. simpl.
  set (vs2 := <[0%nat := _]> vs1).
  assert (Hlen2 : length vs2 = N) by (unfold vs2; by rewrite length_insert).
  assert (Hvs2 : ∀ i x, ordering !! i = Some x →
            vs2 !! i =
              Some (Vertex.mk (unsigned_of_id (Z.of_nat i)) x
                      (if decide (0 < i)%nat then Some (Nat.pred i) else None)
                      (if decide (i < N - 1)%nat then Some (S i) else None)
                      (bool_decide (0 < i < N - 1)%nat))).
  { intros i x Hx. pose proof (lookup_lt_Some _ _ _ Hx) as Hi. fold N in Hi.
    assert (Hv1 : vs1 !! i =
              Some (Vertex.mk (unsigned_of_id (Z.of_nat i)) x
                      (if decide (0 < i)%nat then Some (Nat.pred i) else None)
                      (if decide (i < N - 1)%nat then Some (S i) else None)
                      (bool_decide (i < N - 1)%nat))).
    { unfold vs1. destruct (decide (i = N - 1)%nat) as [->|Hi1].
      - rewrite list_lookup_insert_eq by lia.
        assert (x = xl) as -> by congruence.
        unfold Polyline.init_vertex, Vertex.set_removable. simpl.
        repeat case_decide; try lia.
        all: destruct (Z.ltb_spec 0 (Z.of_nat (N - 1)));
          destruct (Z.ltb_spec (Z.of_nat (N - 1)) (Z.of_nat N - 1)); try lia.
        all: by rewrite bool_decide_eq_false_2 by lia.
      - rewrite list_lookup_insert_ne by done. rewrite (Hvs0 _ _ Hx).
        unfold Polyline.init_vertex.
        repeat case_decide; try lia.
        all: destruct (Z.ltb_spec 0 (Z.of_nat i));
          destruct (Z.ltb_spec (Z.of_nat i) (Z.of_nat N - 1)); try lia.
        all: by rewrite bool_decide_eq_true_2 by lia. }
    unfold vs2. destruct (decide (i = 0)%nat) as [->|Hi0].
    - rewrite list_lookup_insert_eq by lia.
      rewrite Hv1 in Hv0. injection Hv0 as <-.
      unfold Vertex.set_removable. by simpl.
    - rewrite list_lookup_insert_ne by done. rewrite Hv1. do 2 f_equal.
      apply bool_decide_ext. lia. }
  rewrite !lookup_id_nat, (Hvs2 _ _ Hx0). simpl.
  rewrite (Hvs2 _ _ Hxl). simpl.
  eexists. split; [reflexivity|]. simpl. split_and!; try done.
  apply bool_decide_ext.
  rewrite <- head_lookup in Hx0. rewrite Hx0.
  rewrite last_lookup. replace (Nat.pred (length ordering)) with (N - 1)%nat
    by (unfold N; lia).
  rewrite Hxl. naive_solver.
Qed.

Lemma chain_seq vs N :
  (∀ i, (i < N)%nat → ∃ v, vs !! i = Some v ∧
     Vertex.prev v = (if decide (0 < i)%nat then Some (Nat.pred i) else None) ∧
     Vertex.next v = (if decide (i < N - 1)%nat then Some (S i) else None)) →
  ∀ k a, (a + k = N)%nat →
    chain vs (if decide (0 < a)%nat then Some (Nat.pred a) else None) (seq a k).
Proof.
  intros Hvs k. induction k as [|k IH]; intros a Hak; [done|].
  destruct (Hvs a) as (v & Hv & Hp & Hn); [lia|].
  exists v. split_and!; try done.
  - rewrite Hn. destruct k as [|k]; simpl; case_decide; (done || lia).
  - intros p'. destruct (decide (0 < a)%nat); [intros [= ?]; lia|intros [=]].
  - specialize (IH (S a)). simpl in IH. apply IH. lia.
Qed.

Lemma new_linked ordering :
  ordering ≠ [] → Z.of_nat (length ordering) < 2 ^ 32 →
  ∃ polyline,
    Polyline.new ordering = Some polyline ∧
    linked ordering polyline (seq 0 (length ordering)).
Proof.
  intros Hne Hsmall.
  destruct (new_spec ordering Hne) as (pl & Hnew & Hsize & Hloop & Hlen & Hvs).
  exists pl. split; [done|].
  assert (HN : (0 < length ordering)%nat)
    by (destruct ordering; [done|simpl; lia]).
  split_and!.
  - split; [done|]. intros i v Hv.
    destruct (lookup_lt_is_Some_2 ordering i) as [x Hx].
    { rewrite <- Hlen. by eapply lookup_lt_Some. }
    rewrite (Hvs _ _ Hx) in Hv. injection Hv as <-. simpl.
    split_and!; try done.
    apply lookup_lt_Some in Hx. unfold unsigned_of_id.
    apply Z.mod_small. lia.
  - apply (chain_seq _ (length ordering)) with (a := 0%nat); [|done].
    intros i Hi. destruct (lookup_lt_is_Some_2 ordering i) as [x Hx]; [done|].
    eexists. split; [by apply Hvs|]. done.
  - by destruct (length ordering); [lia|].
  - rewrite last_lookup, length_seq.
    rewrite lookup_seq_lt by lia. f_equal. lia.
  - by rewrite Hsize, length_seq.
  - done.
Qed.

Lemma chain_remove vs p l1 a k b l2 va vb :
  chain vs p (l1 ++ a :: k :: b :: l2) →
  vs !! a = Some va → vs !! b = Some vb →
  chain (<[b := Vertex.set_prev (Some a) vb]>
           (<[a := Vertex.set_next (Some b) va]> vs)) p
        (l1 ++ a :: b :: l2).
Proof.
  intros Hchain Hva Hvb. revert p Hchain.
  induction l1 as [|x l1 IH]; intros p.
  - intros (va' & Hva' & Hp & _ & Hlt & vk & _ & _ & _ & Hak
            & vb' & Hvb' & _ & Hn & Hkb & Hrest).
    assert (va' = va) as -> by congruence.
    assert (vb' = vb) as -> by congruence.
    specialize (Hak a eq_refl). specialize (Hkb k eq_refl).
    pose proof (chain_lt _ _ _ Hrest) as Hl2.
    exists (Vertex.set_next (Some b) va). split_and!; try done.
    { rewrite list_lookup_insert_ne by lia.
      apply list_lookup_insert_eq. by eapply lookup_lt_Some. }
    exists (Vertex.set_prev (Some a) vb). split_and!; try done.
    { apply list_lookup_insert_eq. rewrite length_insert.
      by eapply lookup_lt_Some. }
    { intros ? [= <-]. lia. }
    apply chain_frame; [apply chain_frame|]; try done.
    all: intros Hin; eapply Forall_forall in Hl2; [|apply Hin]; simpl in *; lia.
  - simpl. intros (vx & Hvx & Hp & Hn & Hlt & Hrest).
    pose proof (chain_lt _ _ _ Hrest) as Hgt.
    rewrite Forall_app, !Forall_cons in Hgt.
    destruct Hgt as (_ & Hxa & _ & Hxb & _).
    exists vx. split_and!; try done.
    + by rewrite !list_lookup_insert_ne by lia.
    + rewrite Hn. by destruct l1.
    + by apply IH.
Qed.

Lemma chain_middle vs p l1 a k b l2 :
  chain vs p (l1 ++ a :: k :: b :: l2) →
  ∃ va vk vb,
    vs !! a = Some va ∧ vs !! k = Some vk ∧ vs !! b = Some vb ∧
    Vertex.prev vk = Some a ∧ Vertex.next vk = Some b ∧ (a < k < b)%nat.
Proof.
  revert p. induction l1 as [|x l1 IH]; intros p.
  - intros (va & Hva & _ & _ & _ & vk & Hvk & Hpk & Hnk & Hak
            & vb & Hvb & _ & _ & Hkb & _).
    specialize (Hak a eq_refl). specialize (Hkb k eq_refl).
    exists va, vk, vb. split_and!; (done || lia).
  - intros (_ & _ & _ & _ & _ & Hrest). by eapply IH.
Qed.

Lemma static_insert ordering vs i v w :
  static ordering vs → vs !! i = Some v →
  Vertex.index w = Vertex.index v → Vertex.id w = Vertex.id v →
  Vertex.removable w = Vertex.removable v →
  static ordering (<[i:=w]> vs).
Proof.
  intros [Hlen Hst] Hv Hidx Hid Hrem. split; [by rewrite length_insert|].
  intros j u. destruct (decide (i = j)) as [<-|Hne].
  - rewrite list_lookup_insert_eq by (by eapply lookup_lt_Some).
    intros [= <-]. rewrite Hidx, Hid, Hrem. by apply Hst.
  - rewrite list_lookup_insert_ne by done. apply Hst.
Qed.

(** [Remove] on a live vertex that has a live neighbour on each side. *)
Lemma Remove_linked ordering polyline l1 a k b l2 :
  linked ordering polyline (l1 ++ a :: k :: b :: l2) →
  ∃ va vb,
    Polyline.Vertices polyline !! a = Some va ∧
    Polyline.Vertices polyline !! b = Some vb ∧
    Polyline.Remove polyline (Z.of_nat k) =
      Some (Polyline.mk (Polyline.Size polyline - 1)
              (<[b := Vertex.set_prev (Some a) vb]>
                 (<[a := Vertex.set_next (Some b) va]>
                    (Polyline.Vertices polyline)))
              (Polyline.IsLoop polyline)) ∧
    linked ordering
      (Polyline.mk (Polyline.Size polyline - 1)
         (<[b := Vertex.set_prev (Some a) vb]>
            (<[a := Vertex.set_next (Some b) va]>
               (Polyline.Vertices polyline)))
         (Polyline.IsLoop polyline))
      (l1 ++ a :: b :: l2).
Proof.
  intros (Hst & Hchain & Hhd & Hlast & Hsize & Hloop).
  destruct (chain_middle _ _ _ _ _ _ _ Hchain)
    as (va & vk & vb & Hva & Hvk & Hvb & Hpk & Hnk & Hakb).
  exists va, vb. split_and!; try done.
  - unfold Polyline.Remove. rewrite lookup_id_nat, Hvk. simpl.
    rewrite Hpk. simpl. rewrite Hva. simpl.
    rewrite lookup_id_nat, list_lookup_insert_ne, Hvk by lia. simpl.
    rewrite Hnk. simpl. rewrite list_lookup_insert_ne, Hvb by lia. simpl.
    by rewrite Hpk.
  - split_and!; simpl.
    + eapply (static_insert _ _ b vb); [eapply (static_insert _ _ a va)| | | |];
        try done.
      by rewrite list_lookup_insert_ne by lia.
    + by apply chain_remove with (k := k).
    + rewrite <- Hhd. by destruct l1.
    + rewrite <- Hlast. rewrite !last_app. simpl. by destruct l2.
    + rewrite Hsize, !length_app. simpl. lia.
    + done.
Qed.

End LinkedList.

(** ** The reduction loop *)

Section Reduction.
Context {Geometry : LineGeometry} {Queue : PriorityQueue}.

Lemma ComputeError_error_at input inputPoints polyline (k : nat) vk a b va vb :
  Points input = Some inputPoints →
  Polyline.Vertices polyline !! k = Some vk →
  Vertex.prev vk = Some a → Vertex.next vk = Some b →
  Polyline.Vertices polyline !! a = Some va →
  Polyline.Vertices polyline !! b = Some vb →
  ComputeError input polyline (Z.of_nat k) =
    error_at inputPoints (Vertex.id va) (Vertex.id vk) (Vertex.id vb).
Proof.
  intros Hpts Hvk Hp Hn Hva Hvb. unfold ComputeError, error_at.
  rewrite Hpts, lookup_id_nat, Hvk. simpl. rewrite Hp, Hn. simpl.
  rewrite Hva, Hvb. simpl.
  destruct (GetPoint inputPoints (Vertex.id va)); simpl; [|done].
  destruct (GetPoint inputPoints (Vertex.id vk)); simpl; [|done].
  by destruct (GetPoint inputPoints (Vertex.id vb)).
Qed.

Lemma rounds_cons self input polylineSize s s1 s2 :
  loop_guard self polylineSize s = true →
  loop_body self input s = Some (Continue s1) →
  rounds self input polylineSize s1 s2 →
  rounds self input polylineSize s s2.
Proof.
  intros Hguard Hbody Hrounds.
  induction Hrounds as [|s2 s3 _ IH Hg Hb].
  - eapply rounds_next; [constructor|done|done].
  - eapply rounds_next; [apply IH|done|done].
Qed.

Lemma interior_split ordering polyline live i :
  linked ordering polyline live → interior ordering live i →
  ∃ l1 a k b l2,
    i = Z.of_nat k ∧ live = l1 ++ a :: k :: b :: l2 ∧
    (0 < k < length ordering - 1)%nat.
Proof.
  intros (_ & _ & Hhd & Hlast & _) (k & -> & Hin & Hk).
  apply list_elem_of_split in Hin as (l1' & l2' & ->).
  destruct l1' as [|x l1' _] using rev_ind.
  { simpl in Hhd. injection Hhd as ->. lia. }
  destruct l2' as [|b l2].
  { rewrite last_app in Hlast. simpl in Hlast. injection Hlast as ->. lia. }
  exists l1', x, k, b, l2. by rewrite <- app_assoc.
Qed.

Lemma static_in_range inputPoints ordering vs i v :
  static ordering vs →
  Forall (λ x, 0 ≤ x < GetNumberOfPoints inputPoints) ordering →
  vs !! i = Some v → is_Some (GetPoint inputPoints (Vertex.id v)).
Proof.
  intros [_ Hst] Hrange Hv. destruct (Hst _ _ Hv) as (_ & Hid & _).
  rewrite Forall_lookup in Hrange. specialize (Hrange _ _ Hid).
  unfold GetPoint, GetNumberOfPoints in *.
  unfold lookup_id. destruct (Z.ltb_spec (Vertex.id v) 0); [lia|].
  apply lookup_lt_is_Some_2. lia.
Qed.

(** The error of an interior live vertex is defined. *)
Lemma ComputeError_interior input inputPoints ordering polyline l1 a k b l2 :
  Points input = Some inputPoints →
  Forall (λ x, 0 ≤ x < GetNumberOfPoints inputPoints) ordering →
  linked ordering polyline (l1 ++ a :: k :: b :: l2) →
  is_Some (ComputeError input polyline (Z.of_nat k)).
Proof.
  intros Hpts Hrange (Hst & Hchain & _).
  destruct (chain_middle _ _ _ _ _ _ _ Hchain)
    as (va & vk & vb & Hva & Hvk & Hvb & Hpk & Hnk & _).
  rewrite (ComputeError_error_at _ _ _ _ _ _ _ _ _ Hpts Hvk Hpk Hnk Hva Hvb).
  destruct (static_in_range _ _ _ _ _ Hst Hrange Hva) as [x1 Hx1].
  destruct (static_in_range _ _ _ _ _ Hst Hrange Hvk) as [x Hx].
  destruct (static_in_range _ _ _ _ _ Hst Hrange Hvb) as [x2 Hx2].
  unfold error_at. rewrite Hx1, Hx, Hx2. simpl. by eexists.
Qed.

(** Relinking two slots leaves the error of every other slot as it was:
    the error reads the links of the slot itself and the [id] of its
    neighbours only. *)
Lemma ComputeError_frame input size size' loop vs a b va vb na pb (j : Z) :
  vs !! a = Some va → vs !! b = Some vb →
  j ≠ Z.of_nat a → j ≠ Z.of_nat b →
  ComputeError input
    (Polyline.mk size'
       (<[b := Vertex.set_prev pb vb]> (<[a := Vertex.set_next na va]> vs)) loop) j
  = ComputeError input (Polyline.mk size vs loop) j.
Proof.
  intros Hva Hvb Hja Hjb.
  set (vs' := <[b := _]> (<[a := _]> vs)).
  assert (Hid : ∀ i, Vertex.id <$> vs' !! i = Vertex.id <$> vs !! i).
  { intros i. unfold vs'. destruct (decide (i = b)) as [->|Hib].
    - rewrite list_lookup_insert_eq
        by (rewrite length_insert; by eapply lookup_lt_Some).
      by rewrite Hvb.
    - rewrite list_lookup_insert_ne by done.
      destruct (decide (i = a)) as [->|Hia].
      + rewrite list_lookup_insert_eq by (by eapply lookup_lt_Some).
        by rewrite Hva.
      + by rewrite list_lookup_insert_ne by done. }
  assert (Hj : lookup_id vs' j = lookup_id vs j).
  { unfold lookup_id. destruct (Z.ltb_spec j 0); [done|]. unfold vs'.
    by rewrite !list_lookup_insert_ne by lia. }
  unfold ComputeError. simpl. rewrite Hj.
  destruct (Points input) as [inputPoints|]; simpl; [|done].
  destruct (lookup_id vs j) as [v|]; simpl; [|done].
  destruct (Vertex.prev v) as [p|]; simpl; [|done].
  pose proof (Hid p) as Hp.
  destruct (vs' !! p) as [pv'|], (vs !! p) as [pv|]; simplify_eq/=; [|done].
  rewrite Hp.
  destruct (GetPoint inputPoints (Vertex.id pv)); simpl; [|done].
  destruct (GetPoint inputPoints (Vertex.id v)); simpl; [|done].
  destruct (Vertex.next v) as [n|]; simpl; [|done].
  pose proof (Hid n) as Hn.
  destruct (vs' !! n) as [nv'|], (vs !! n) as [nv|]; simplify_eq/=; [|done].
  by rewrite Hn.
Qed.

End Reduction.

Section Rounds.
Context {Geometry : LineGeometry} {Queue : PriorityQueue}.
Variables (self : Filter) (input : PolyData) (inputPoints : vtkPoints).
Variable ordering : list Z.
Hypothesis Hpts : Points input = Some inputPoints.
Hypothesis Hrange :
  Forall (λ x, 0 ≤ x < GetNumberOfPoints inputPoints) ordering.

Lemma queue_ok_drop polyline live stale q (x : Z) :
  ¬ interior ordering live x →
  queue_ok self input ordering polyline live (x :: stale) q →
  queue_ok self input ordering polyline live stale q.
Proof.
  intros Hx (Hnd & Hq & Hall). split_and!; [done| |].
  - intros i Hi. destruct (Hq i Hi) as [Hint Herr]. split; [done|].
    intros Hst. apply Herr. rewrite not_elem_of_cons. split; [|done].
    by intros ->.
  - intros i Hint Hst Herr. apply Hall; [done| |done].
    rewrite not_elem_of_cons. split; [|done]. by intros ->.
Qed.

Lemma requeue_spec polyline live stale q (x : Z) :
  linked ordering polyline live → interior ordering live x →
  queue_ok self input ordering polyline live (x :: stale) q →
  ∃ q', requeue self input polyline q x = Some q' ∧
        queue_ok self input ordering polyline live stale q'.
Proof.
  intros Hlinked Hx (Hnd & Hq & Hall).
  destruct (interior_split _ _ _ _ Hlinked Hx)
    as (l1 & a & k & b & l2 & -> & -> & Hk).
  destruct (ComputeError_interior _ _ _ _ _ _ _ _ _ Hpts Hrange Hlinked)
    as [e He].
  pose proof (pq_ids_DeleteId (Z.of_nat k) q) as Hdel.
  assert (Hnd1 : NoDup (pq_ids (DeleteId (Z.of_nat k) q))).
  { rewrite Hdel. by apply NoDup_filter. }
  assert (Hk1 : Z.of_nat k ∉ pq_ids (DeleteId (Z.of_nat k) q)).
  { rewrite Hdel, list_elem_of_filter. by intros [? _]. }
  assert (Hq1 : ∀ i, i ∈ pq_ids (DeleteId (Z.of_nat k) q) →
            interior ordering (l1 ++ a :: k :: b :: l2) i ∧
            (i ∉ stale → within_ceiling self input polyline i)).
  { intros i. rewrite Hdel, list_elem_of_filter. intros [Hne Hi].
    destruct (Hq i Hi) as [Hint Herr]. split; [done|].
    intros Hst. apply Herr. rewrite not_elem_of_cons. done. }
  assert (Hall1 : ∀ i, interior ordering (l1 ++ a :: k :: b :: l2) i →
            i ∉ stale → within_ceiling self input polyline i →
            i ≠ Z.of_nat k → i ∈ pq_ids (DeleteId (Z.of_nat k) q)).
  { intros i Hint Hst Herr Hne. rewrite Hdel, list_elem_of_filter.
    split; [done|]. apply Hall; [done| |done].
    rewrite not_elem_of_cons. done. }
  unfold requeue. rewrite He. simpl.
  destruct (PrimFloat.leb e (MaximumError self)) eqn:Hle;
    eexists; (split; [reflexivity|]).
  - pose proof (pq_ids_Insert e (Z.of_nat k) _ (Nat2Z.is_nonneg k) Hk1) as Hins.
    split_and!.
    + rewrite Hins. by apply NoDup_cons.
    + intros i. rewrite Hins, elem_of_cons. intros [->|Hi].
      * split; [done|]. intros _. by exists e.
      * by apply Hq1.
    + intros i Hint Hst Herr. rewrite Hins, elem_of_cons.
      destruct (decide (i = Z.of_nat k)); [by left|right]. by apply Hall1.
  - split_and!; [done|done|].
    intros i Hint Hst Herr. apply Hall1; try done.
    intros ->. destruct Herr as (e' & He' & Hle'). congruence.
Qed.

(** A round that pops a slot: the slot is an interior live vertex, the
    round goes through and the invariant holds of the new state. *)
Lemma loop_body_pop live s i q' :
  Z.of_nat (length ordering) < 2 ^ 32 →
  reducing self input ordering live s →
  Pop (queue_ s) = (i, q') → 0 ≤ i →
  ∃ l1 a k b l2 s',
    i = Z.of_nat k ∧ live = l1 ++ a :: k :: b :: l2 ∧
    (0 < k < length ordering - 1)%nat ∧
    loop_body self input s = Some (Continue s') ∧
    Polyline.Remove (polyline_ s) i = Some (polyline_ s') ∧
    reducing self input ordering (l1 ++ a :: b :: l2) s'.
Proof.
  intros Hsmall (Hlinked & (Hnd & Hq & Hall) & Hcur) Hpop Hi.
  assert (Hne : pq_ids (queue_ s) ≠ []).
  { intros Hnil. destruct (pq_Pop_empty _ Hnil) as [Hm _].
    rewrite Hpop in Hm. simpl in Hm. lia. }
  pose proof (pq_Pop_nonempty _ Hne) as Hperm.
  rewrite Hpop in Hperm. simpl in Hperm.
  assert (Hin : i ∈ pq_ids (queue_ s)) by (rewrite Hperm; left).
  rewrite Hperm in Hnd. apply NoDup_cons in Hnd as [Hiq' Hnd'].
  destruct (Hq i Hin) as [Hint _].
  destruct (interior_split _ _ _ _ Hlinked Hint)
    as (l1 & a & k & b & l2 & -> & -> & Hk).
  destruct (Remove_linked _ _ _ _ _ _ _ Hlinked)
    as (va & vb & Hva & Hvb & Hrem & Hlinked').
  set (vs' := <[b := _]> (<[a := _]> (Polyline.Vertices (polyline_ s)))) in *.
  set (pl' := Polyline.mk _ vs' _) in *.
  pose proof Hlinked as (Hst & Hchain & _).
  destruct (chain_middle _ _ _ _ _ _ _ Hchain)
    as (va' & vk & vb' & Hva' & Hvk & Hvb' & Hpk & Hnk & Hakb).
  assert (va' = va) as -> by congruence.
  assert (vb' = vb) as -> by congruence.
  assert (Hvk' : vs' !! k = Some vk).
  { unfold vs'. by rewrite !list_lookup_insert_ne by lia. }
  assert (Hva1 : vs' !! a = Some (Vertex.set_next (Some b) va)).
  { unfold vs'. rewrite list_lookup_insert_ne by lia.
    apply list_lookup_insert_eq. by eapply lookup_lt_Some. }
  assert (Hvb1 : vs' !! b = Some (Vertex.set_prev (Some a) vb)).
  { unfold vs'. apply list_lookup_insert_eq. rewrite length_insert.
    by eapply lookup_lt_Some. }
  destruct Hst as [Hlen Hst].
  destruct (Hst _ _ Hva) as (Hia & _ & Hra).
  destruct (Hst _ _ Hvb) as (Hib & _ & Hrb).
  (* the queue after the pop, seen from the new links *)
  assert (Hq0 : queue_ok self input ordering pl' (l1 ++ a :: b :: l2)
                  [Z.of_nat a; Z.of_nat b] q').
  { assert (Hframe : ∀ j, j ≠ Z.of_nat a → j ≠ Z.of_nat b →
              ComputeError input pl' j = ComputeError input (polyline_ s) j).
    { intros j Hja Hjb. unfold pl'.
      destruct (polyline_ s) as [sz vs lp]. simpl in *.
      by apply ComputeError_frame. }
    split_and!; [done| |].
    - intros j Hj.
      assert (Hjq : j ∈ pq_ids (queue_ s)) by (rewrite Hperm; by right).
      destruct (Hq j Hjq) as [(kj & -> & Hkj & Hkjr) Herr]. split.
      + exists kj. split; [done|]. split; [|done].
        assert (kj ≠ k) by (intros ->; done).
        revert Hkj. rewrite !elem_of_app, !elem_of_cons.
        intros [?|[?|[?|[?|?]]]]; by auto.
      + rewrite !not_elem_of_cons. intros (Hja & Hjb & _).
        destruct (Herr ltac:(apply not_elem_of_nil)) as (e & He & Hle).
        exists e. split; [|done]. by rewrite Hframe.
    - intros j (kj & -> & Hkj & Hkjr). rewrite !not_elem_of_cons.
      intros (Hja & Hjb & _) (e & He & Hle).
      assert (Hjq : Z.of_nat kj ∈ pq_ids (queue_ s)).
      { apply Hall; [|apply not_elem_of_nil|].
        - exists kj. split; [done|]. split; [|done].
          revert Hkj. rewrite !elem_of_app, !elem_of_cons.
          intros [?|[?|[?|?]]]; by auto.
        - exists e. split; [|done]. by rewrite <- Hframe. }
      rewrite Hperm, elem_of_cons in Hjq. destruct Hjq as [Hjk|?]; [|done].
      apply Nat2Z.inj in Hjk as ->.
      pose proof (chain_NoDup _ _ _ Hchain) as Hnd_live.
      apply NoDup_app in Hnd_live as (_ & Hl1 & Hnd_live).
      apply NoDup_cons in Hnd_live as [_ Hnd_live].
      apply NoDup_cons in Hnd_live as [Hkr _].
      revert Hkj. rewrite !elem_of_app, !elem_of_cons.
      intros [Hk1|[->|[->|Hk2]]]; try lia.
      + destruct (Hl1 _ Hk1). rewrite !elem_of_cons. auto.
      + destruct Hkr. rewrite elem_of_cons. auto. }
  (* the neighbour on the left *)
  assert (Hqa : ∃ qa,
    (if Vertex.removable (Vertex.set_next (Some b) va)
     then requeue self input pl' q' (Vertex.index (Vertex.set_next (Some b) va))
     else Some q') = Some qa ∧
    queue_ok self input ordering pl' (l1 ++ a :: b :: l2) [Z.of_nat b] qa).
  { simpl. rewrite Hra, Hia.
    destruct (decide (0 < a < length ordering - 1)%nat) as [Ha|Ha];
      [rewrite bool_decide_eq_true_2 by done
      |rewrite bool_decide_eq_false_2 by done].
    - apply requeue_spec; [done| |done].
      exists a. split; [done|]. split; [|done].
      rewrite elem_of_app, elem_of_cons. auto.
    - exists q'. split; [done|]. eapply queue_ok_drop; [|done].
      intros (ka & Hka & _ & Hkar). apply Nat2Z.inj in Hka as <-. lia. }
  destruct Hqa as (qa & Hqa & Hqa_ok).
  assert (Hqb : ∃ qb,
    (if Vertex.removable (Vertex.set_prev (Some a) vb)
     then requeue self input pl' qa (Vertex.index (Vertex.set_prev (Some a) vb))
     else Some qa) = Some qb ∧
    queue_ok self input ordering pl' (l1 ++ a :: b :: l2) [] qb).
  { simpl. rewrite Hrb, Hib.
    destruct (decide (0 < b < length ordering - 1)%nat) as [Hb|Hb];
      [rewrite bool_decide_eq_true_2 by done
      |rewrite bool_decide_eq_false_2 by done].
    - apply requeue_spec; [done| |done].
      exists b. split; [done|]. split; [|done].
      rewrite elem_of_app, !elem_of_cons. auto.
    - exists qa. split; [done|]. eapply queue_ok_drop; [|done].
      intros (kb & Hkb & _ & Hkbr). apply Nat2Z.inj in Hkb as <-. lia. }
  destruct Hqb as (qb & Hqb & Hqb_ok).
  exists l1, a, k, b, l2, (mkLoop pl' qb (currentNumPts s - 1)).
  split; [done|]. split; [done|]. split; [done|]. split; [|split; [done|]].
  - unfold loop_body. rewrite Hpop.
    destruct (Z.ltb_spec (Z.of_nat k) 0); [lia|].
    rewrite Hrem. simpl. fold vs'. rewrite lookup_id_nat, Hvk'. simpl.
    rewrite Hpk. simpl. rewrite Hva1. simpl. rewrite Hnk. simpl.
    rewrite Hvb1. simpl. simpl in Hqa. rewrite Hqa. simpl.
    simpl in Hqb. rewrite Hqb. done.
  - split_and!; simpl; try done.
    rewrite Hcur, !length_app. simpl. lia.
Qed.

(** A round that finds the queue empty. *)
Lemma loop_body_break s i q' :
  Pop (queue_ s) = (i, q') → i < 0 →
  loop_body self input s = Some (Break (mkLoop (polyline_ s) q' (currentNumPts s))).
Proof.
  intros Hpop Hi. unfold loop_body. rewrite Hpop.
  by destruct (Z.ltb_spec i 0); [|lia].
Qed.

Lemma seqZ_of_nat (n : nat) : seqZ 0 (Z.of_nat n) = Z.of_nat <$> seq 0 n.
Proof.
  unfold seqZ. rewrite Nat2Z.id. apply list_fmap_ext. intros _ i _. lia.
Qed.

Lemma seed_from_spec polyline :
  linked ordering polyline (seq 0 (length ordering)) →
  ∀ len lo q,
    (lo + len = length ordering)%nat →
    queue_ok self input ordering polyline (seq 0 (length ordering))
      (Z.of_nat <$> seq lo len) q →
    (∀ i, i ∈ pq_ids q → i < Z.of_nat lo) →
    ∃ q', seed_from self input polyline (Z.of_nat <$> seq lo len) q = Some q' ∧
          queue_ok self input ordering polyline (seq 0 (length ordering)) [] q'.
Proof.
  intros Hlinked len. induction len as [|len IH]; intros lo q Hlo Hq Hlt.
  { by exists q. }
  pose proof Hlinked as ([Hlen Hst] & _).
  destruct (lookup_lt_is_Some_2 (Polyline.Vertices polyline) lo) as [v Hv];
    [lia|].
  destruct (Hst _ _ Hv) as (_ & _ & Hrem).
  assert (Hstep : ∃ q1,
    seed_vertex self input polyline q (Z.of_nat lo) = Some q1 ∧
    queue_ok self input ordering polyline (seq 0 (length ordering))
      (Z.of_nat <$> seq (S lo) len) q1 ∧
    (∀ i, i ∈ pq_ids q1 → i < Z.of_nat (S lo))).
  { unfold seed_vertex. rewrite lookup_id_nat, Hv. simpl. rewrite Hrem.
    destruct (decide (0 < lo < length ordering - 1)%nat) as [Hint|Hint];
      [rewrite bool_decide_eq_true_2 by done
      |rewrite bool_decide_eq_false_2 by done].
    - assert (Hlo_int : interior ordering (seq 0 (length ordering)) (Z.of_nat lo)).
      { exists lo. split; [done|]. split; [|done].
        apply elem_of_seq. lia. }
      destruct (interior_split _ _ _ _ Hlinked Hlo_int)
        as (l1 & a & k & b & l2 & Hk & Hsplit & _).
      apply Nat2Z.inj in Hk as <-. rewrite Hsplit in Hlinked.
      destruct (ComputeError_interior _ _ _ _ _ _ _ _ _ Hpts Hrange Hlinked)
        as [e He].
      rewrite He. simpl. rewrite <- Hsplit in *.
      destruct Hq as (Hnd & Hq & Hall).
      assert (Hfresh : Z.of_nat lo ∉ pq_ids q).
      { intros Hin. specialize (Hlt _ Hin). lia. }
      assert (Hq1 : ∀ i, i ∈ pq_ids q →
                interior ordering (seq 0 (length ordering)) i ∧
                (i ∉ Z.of_nat <$> seq (S lo) len →
                 within_ceiling self input polyline i)).
      { intros i Hi. destruct (Hq i Hi) as [Hi_int Herr]. split; [done|].
        intros Hst'. apply Herr. simpl. rewrite not_elem_of_cons.
        split; [|done]. intros ->. done. }
      destruct (PrimFloat.leb e (MaximumError self)) eqn:Hle;
        eexists; (split; [reflexivity|]).
      + pose proof (pq_ids_Insert e _ _ (Nat2Z.is_nonneg lo) Hfresh) as Hins.
        split; [split_and!|].
        * rewrite Hins. by apply NoDup_cons.
        * intros i. rewrite Hins, elem_of_cons. intros [->|Hi].
          -- split; [done|]. intros _. by exists e.
          -- by apply Hq1.
        * intros i Hi_int Hst' Herr. rewrite Hins, elem_of_cons.
          destruct (decide (i = Z.of_nat lo)); [by left|right].
          apply Hall; [done| |done]. simpl. by rewrite not_elem_of_cons.
        * intros i. rewrite Hins, elem_of_cons. intros [->|Hi]; [lia|].
          specialize (Hlt _ Hi). lia.
      + split; [split_and!; [done|done|]|].
        * intros i Hi_int Hst' Herr.
          apply Hall; [done| |done]. simpl. rewrite not_elem_of_cons.
          split; [|done]. intros ->.
          destruct Herr as (e' & He' & Hle'). congruence.
        * intros i Hi. specialize (Hlt _ Hi). lia.
    - exists q. split; [done|]. split.
      + eapply (queue_ok_drop _ _ _ _ (Z.of_nat lo)); [|exact Hq].
        intros (k & Hk & _ & Hkr). apply Nat2Z.inj in Hk as <-. lia.
      + intros i Hi. specialize (Hlt _ Hi). lia. }
  destruct Hstep as (q1 & Hq1 & Hq1_ok & Hq1_lt).
  destruct (IH (S lo) q1) as (q' & Hq' & Hq'_ok); [lia|done|done|].
  exists q'. split; [|done]. simpl. rewrite Hq1. simpl. done.
Qed.

(** Seeding: the interior vertices whose error is within the ceiling
    enter the queue, and nothing else. *)
Lemma seed_spec polyline q0 :
  linked ordering polyline (seq 0 (length ordering)) →
  pq_ids q0 = [] →
  ∃ q, seed self input polyline q0 = Some q ∧
       reducing self input ordering (seq 0 (length ordering))
         (mkLoop polyline q (Z.of_nat (length ordering))).
Proof.
  intros Hlinked Hq0.
  destruct (seed_from_spec _ Hlinked (length ordering) 0%nat q0)
    as (q & Hq & Hq_ok); [done| |by rewrite Hq0; intros ? ?%elem_of_nil|].
  { split_and!; rewrite ?Hq0; [constructor|by intros ? ?%elem_of_nil|].
    intros i (k & -> & Hk & _) Hst. destruct Hst.
    apply list_elem_of_fmap. by exists k. }
  exists q. split.
  - unfold seed. destruct Hlinked as (_ & _ & _ & _ & -> & _).
    by rewrite length_seq, seqZ_of_nat.
  - split_and!; simpl; try done. by rewrite length_seq.
Qed.

Lemma loop_guard_guard_at live s :
  reducing self input ordering live s →
  loop_guard self (Z.of_nat (length ordering)) s =
    guard_at self ordering (Z.of_nat (length live)).
Proof.
  intros ((_ & _ & _ & _ & _ & Hloop) & _ & Hcur).
  unfold loop_guard, guard_at. by rewrite Hloop, Hcur.
Qed.

(** With three live vertices or more, the second one is interior. *)
Lemma interior_exists polyline live :
  linked ordering polyline live → (3 ≤ length live)%nat →
  ∃ l1 a k b l2, live = l1 ++ a :: k :: b :: l2 ∧
                 interior ordering live (Z.of_nat k).
Proof.
  intros ([Hlen _] & Hchain & Hhd & _) Hlive.
  destruct live as [|a [|k [|b l2]]]; simpl in Hlive; try lia.
  injection Hhd as ->.
  exists [], 0%nat, k, b, l2. split; [done|].
  destruct (chain_middle _ _ [] _ _ _ _ Hchain)
    as (_ & _ & vb & _ & _ & Hvb & _ & _ & Hakb).
  apply lookup_lt_Some in Hvb.
  exists k. split; [done|]. split; [|lia].
  rewrite !elem_of_cons. auto.
Qed.

Lemma always_within_interior inputPoints' polyline live i :
  Points input = Some inputPoints' →
  always_within self inputPoints' ordering →
  linked ordering polyline live → interior ordering live i →
  within_ceiling self input polyline i.
Proof.
  intros Hpts' Hall Hlinked Hint.
  destruct (interior_split _ _ _ _ Hlinked Hint)
    as (l1 & a & k & b & l2 & -> & -> & _).
  destruct Hlinked as ([_ Hst] & Hchain & _).
  destruct (chain_middle _ _ _ _ _ _ _ Hchain)
    as (va & vk & vb & Hva & Hvk & Hvb & Hpk & Hnk & _).
  unfold within_ceiling.
  rewrite (ComputeError_error_at _ _ _ _ _ _ _ _ _ Hpts' Hvk Hpk Hnk Hva Hvb).
  apply Hall.
  - destruct (Hst _ _ Hva) as (_ & Hid & _). by eapply list_elem_of_lookup_2.
  - destruct (Hst _ _ Hvk) as (_ & Hid & _). by eapply list_elem_of_lookup_2.
  - destruct (Hst _ _ Hvb) as (_ & Hid & _). by eapply list_elem_of_lookup_2.
Qed.

Lemma loop_guard_floor live s :
  reducing self input ordering live s →
  loop_guard self (Z.of_nat (length ordering)) s = true →
  (floor_size ordering < length live)%nat.
Proof.
  intros ((_ & _ & _ & _ & _ & Hloop) & _ & Hcur).
  unfold loop_guard, above_floor, floor_size. rewrite Hloop, Hcur.
  intros [_ Hb]%andb_prop.
  destruct (bool_decide (head ordering = last ordering)); simpl in Hb.
  - apply Z.ltb_lt in Hb. lia.
  - rewrite orb_false_r in Hb. apply Z.ltb_lt in Hb. lia.
Qed.

(** The loop ends; it leaves a sublist of the live vertices, not shorter
    than the floor unless the polyline was so already. *)
Lemma reduce_spec fuel live s :
  Z.of_nat (length ordering) < 2 ^ 32 →
  reducing self input ordering live s →
  (length live ≤ fuel)%nat →
  ∃ live' s' s1,
    reduce fuel self input (Z.of_nat (length ordering)) s = Some s' ∧
    rounds self input (Z.of_nat (length ordering)) s s1 ∧
    polyline_ s' = polyline_ s1 ∧
    linked ordering (polyline_ s') live' ∧
    currentNumPts s' = Z.of_nat (length live') ∧
    live' `sublist_of` live ∧
    (length live `min` floor_size ordering ≤ length live')%nat ∧
    (loop_guard self (Z.of_nat (length ordering)) s = false → live' = live) ∧
    (always_within self inputPoints ordering →
     guard_at self ordering (Z.of_nat (length live')) = false).
Proof.
  intros Hsmall. revert live s.
  induction fuel as [|fuel IH]; intros live s Hinv Hfuel.
  - simpl. destruct (loop_guard _ _ s) eqn:Hguard.
    + pose proof (loop_guard_floor _ _ Hinv Hguard). unfold floor_size in *.
      case_bool_decide; lia.
    + pose proof (loop_guard_guard_at _ _ Hinv) as Hat.
      destruct Hinv as (? & ? & ?).
      exists live, s, s. split_and!; try done; [constructor|lia|congruence].
  - simpl. destruct (loop_guard _ _ s) eqn:Hguard.
    + pose proof (loop_guard_floor _ _ Hinv Hguard) as Hfloor.
      destruct (Pop (queue_ s)) as [i q'] eqn:Hpop.
      destruct (Z.lt_ge_cases i 0) as [Hi|Hi].
      * rewrite (loop_body_break _ _ _ Hpop Hi).
        pose proof Hinv as (Hlinked & (_ & Hq & Hall) & ?).
        eexists live, _, s. split_and!; try done; [constructor|simpl; lia|].
        intros Hwithin. exfalso.
        destruct (interior_exists _ _ Hlinked) as (_ & _ & k & _ & _ & _ & Hk).
        { unfold floor_size in Hfloor. case_bool_decide; lia. }
        assert (Hin : Z.of_nat k ∈ pq_ids (queue_ s)).
        { apply Hall; [done|apply not_elem_of_nil|].
          by eapply always_within_interior. }
        assert (Hne : pq_ids (queue_ s) ≠ []).
        { intros Hnil. rewrite Hnil in Hin. by apply elem_of_nil in Hin. }
        pose proof (pq_Pop_nonempty _ Hne) as Hperm.
        rewrite Hpop in Hperm. simpl in Hperm.
        destruct (Hq i) as [(ki & -> & _) _]; [rewrite Hperm; left|]. lia.
      * destruct (loop_body_pop _ _ _ _ Hsmall Hinv Hpop Hi)
          as (l1 & a & k & b & l2 & s2 & -> & -> & _ & Hbody & _ & Hinv2).
        rewrite Hbody.
        destruct (IH _ _ Hinv2) as (live' & s' & s1 & Hred & Hrounds & Hpl
                                    & Hlinked' & Hcur' & Hsub & Hmin & _ & Hexit).
        { rewrite !length_app in *. simpl in *. lia. }
        exists live', s', s1. split_and!; try done.
        -- by eapply rounds_cons.
        -- etrans; [done|]. apply sublist_app; [done|].
           apply sublist_skip. by apply sublist_cons.
        -- rewrite !length_app in *. simpl in *. lia.
    + pose proof (loop_guard_guard_at _ _ Hinv) as Hat.
      destruct Hinv as (? & ? & ?).
      exists live, s, s. split_and!; try done; [constructor|lia|congruence].
Qed.

(** A round that continues has popped an interior live vertex. *)
Lemma loop_body_continue live s s2 :
  Z.of_nat (length ordering) < 2 ^ 32 →
  reducing self input ordering live s →
  loop_body self input s = Some (Continue s2) →
  ∃ l1 a k b l2 q',
    Pop (queue_ s) = (Z.of_nat k, q') ∧
    live = l1 ++ a :: k :: b :: l2 ∧
    (0 < k < length ordering - 1)%nat ∧
    Polyline.Remove (polyline_ s) (Z.of_nat k) = Some (polyline_ s2) ∧
    reducing self input ordering (l1 ++ a :: b :: l2) s2.
Proof.
  intros Hsmall Hinv Hbody.
  destruct (Pop (queue_ s)) as [i q'] eqn:Hpop.
  destruct (Z.lt_ge_cases i 0) as [Hi|Hi].
  { rewrite (loop_body_break _ _ _ Hpop Hi) in Hbody. done. }
  destruct (loop_body_pop _ _ _ _ Hsmall Hinv Hpop Hi)
    as (l1 & a & k & b & l2 & s' & -> & -> & Hk & Hbody' & Hrem & Hinv').
  rewrite Hbody' in Hbody. injection Hbody as <-.
  by exists l1, a, k, b, l2, q'.
Qed.

Lemma rounds_reducing live s s' :
  Z.of_nat (length ordering) < 2 ^ 32 →
  reducing self input ordering live s →
  rounds self input (Z.of_nat (length ordering)) s s' →
  ∃ live', reducing self input ordering live' s' ∧ live' `sublist_of` live.
Proof.
  intros Hsmall Hinv Hrounds.
  induction Hrounds as [|s1 s2 _ (live1 & Hinv1 & Hsub1) Hguard Hbody].
  { by exists live. }
  destruct (loop_body_continue _ _ _ Hsmall Hinv1 Hbody)
    as (l1 & a & k & b & l2 & q' & _ & -> & _ & _ & Hinv2).
  eexists. split; [done|]. etrans; [|done].
  apply sublist_app; [done|]. apply sublist_skip. by apply sublist_cons.
Qed.

(** The invariant holds of every state of the reduction of a well-formed
    cell. *)
Lemma reduction_state_reducing q0 s :
  ordering ≠ [] → Z.of_nat (length ordering) < 2 ^ 32 →
  pq_ids q0 = [] →
  reduction_state self input ordering q0 s →
  ∃ live, reducing self input ordering live s.
Proof.
  intros Hne Hsmall Hq0 (pl & q & Hnew & Hseed & Hrounds).
  destruct (new_linked _ Hne Hsmall) as (pl' & Hnew' & Hlinked).
  assert (pl' = pl) as -> by congruence.
  destruct (seed_spec _ _ Hlinked Hq0) as (q' & Hseed' & Hinv).
  assert (q' = q) as -> by congruence.
  destruct (rounds_reducing _ _ _ Hsmall Hinv Hrounds) as (live & Hinv' & _).
  by exists live.
Qed.

Lemma reduce_mono fuel extra s s' :
  reduce fuel self input (Z.of_nat (length ordering)) s = Some s' →
  reduce (fuel + extra) self input (Z.of_nat (length ordering)) s = Some s'.
Proof.
  revert s. induction fuel as [|fuel IH]; intros s; simpl.
  - destruct (loop_guard _ _ s) eqn:Hguard; [done|]. intros [= <-].
    destruct extra; simpl; by rewrite Hguard.
  - destruct (loop_guard _ _ s); [|done].
    destruct (loop_body self input s) as [[s1|s1]|]; try done. apply IH.
Qed.

(** The loop run from a state it reaches ends where the loop run from
    the first state ends. *)
Lemma reduce_rounds s0 s fuel s' :
  rounds self input (Z.of_nat (length ordering)) s0 s →
  reduce fuel self input (Z.of_nat (length ordering)) s = Some s' →
  ∃ fuel0, reduce fuel0 self input (Z.of_nat (length ordering)) s0 = Some s'.
Proof.
  intros Hrounds. revert fuel.
  induction Hrounds as [|s1 s2 _ IH Hguard Hbody]; intros fuel Hred.
  { by exists fuel. }
  apply (IH (S fuel)). simpl. by rewrite Hguard, Hbody.
Qed.

End Rounds.

(** ** Emission *)

Section Emission.
Context {Geometry : LineGeometry} {Queue : PriorityQueue}.

Lemma emit_walk_chain inputPoints vs p slot rest fuel a :
  chain vs p (slot :: rest) → (length (slot :: rest) ≤ fuel)%nat →
  emit_walk fuel inputPoints vs (Some slot) a =
    emit_ids inputPoints
      (omap (λ k, Vertex.id <$> vs !! k) (slot :: rest)) a.
Proof.
  revert p slot fuel a. induction rest as [|b r IH]; intros p slot fuel a.
  - intros (v & Hv & _ & Hn & _) Hfuel.
    destruct fuel as [|fuel]; simpl in *; [lia|].
    rewrite Hv. simpl. rewrite Hn.
    destruct (emit_point inputPoints (Vertex.id v) a); simpl; [|done].
    by destruct fuel.
  - intros (v & Hv & _ & Hn & _ & Hrest) Hfuel.
    destruct fuel as [|fuel]; [simpl in *; lia|].
    cbn [emit_walk]. rewrite Hv. cbn [mbind option_bind]. rewrite Hn.
    cbn [head omap list_omap]. rewrite Hv. cbn [fmap option_fmap option_map emit_ids].
    destruct (emit_point inputPoints (Vertex.id v) a) as [a'|]; [|done].
    cbn [mbind option_bind]. erewrite IH; [done|done|simpl in *; lia].
Qed.

Lemma live_slots_linked ordering polyline live :
  linked ordering polyline live → live_slots polyline = live.
Proof.
  intros (_ & Hchain & Hhd & _). destruct live as [|a rest]; [done|].
  injection Hhd as ->. unfold live_slots.
  eapply chain_walk; [done|].
  pose proof (chain_length _ _ _ _ Hchain). lia.
Qed.

Lemma live_ids_linked ordering polyline live :
  linked ordering polyline live →
  live_ids polyline = (λ k, ordering !!! k) <$> live ∧
  Forall (λ k, k < length ordering)%nat live.
Proof.
  intros Hlinked. unfold live_ids.
  rewrite (live_slots_linked _ _ _ Hlinked).
  destruct Hlinked as ([Hlen Hst] & Hchain & _).
  assert (Hall : ∀ k, k ∈ live → ∃ v,
            Polyline.Vertices polyline !! k = Some v ∧
            ordering !! k = Some (Vertex.id v)).
  { intros k Hk. destruct (chain_lookup _ _ _ _ Hchain Hk) as [v Hv].
    exists v. split; [done|]. by apply Hst. }
  clear Hchain. induction live as [|k rest IH]; [done|].
  destruct (Hall k) as (v & Hv & Hid); [left|].
  destruct IH as [IH1 IH2]. { intros. apply Hall. by right. }
  split.
  - cbn [omap list_omap]. rewrite Hv. cbn [fmap option_fmap option_map].
    rewrite IH1, fmap_cons.
    by rewrite (list_lookup_total_correct _ _ _ Hid).
  - constructor; [by eapply lookup_lt_Some|done].
Qed.

Lemma fmap_lookup_total_seq (ordering : list Z) :
  (λ k, ordering !!! k) <$> seq 0 (length ordering) = ordering.
Proof.
  apply list_eq. intros i. rewrite list_lookup_fmap.
  destruct (decide (i < length ordering)%nat) as [Hi|Hi].
  - rewrite lookup_seq_lt by done. simpl.
    destruct (lookup_lt_is_Some_2 ordering i Hi) as [x Hx].
    by rewrite Hx, (list_lookup_total_correct _ _ _ Hx).
  - rewrite lookup_seq_ge by lia. simpl. symmetry.
    apply lookup_ge_None. lia.
Qed.

Lemma survivors_linked self inputPoints ordering polyline live :
  ordering ≠ [] →
  linked ordering polyline live →
  live `sublist_of` seq 0 (length ordering) →
  (length ordering `min` floor_size ordering ≤ length live)%nat →
  (below_target self (Z.of_nat (length ordering))
     (Z.of_nat (length ordering)) = false →
   live = seq 0 (length ordering)) →
  (always_within self inputPoints ordering →
   guard_at self ordering (Z.of_nat (length live)) = false) →
  survivors self inputPoints ordering (live_ids polyline) ∧
  length (live_ids polyline) = length live.
Proof.
  intros Hne Hlinked Hsub Hmin Hzero Hexit.
  destruct (live_ids_linked _ _ _ Hlinked) as [-> _].
  destruct Hlinked as (_ & _ & Hhd & Hlast & _).
  split; [|by rewrite length_fmap]. split_and!.
  - etrans; [by apply (fmap_sublist (λ k, ordering !!! k))|].
    by rewrite fmap_lookup_total_seq.
  - destruct live as [|a rest]; [done|]. injection Hhd as ->.
    destruct ordering; done.
  - rewrite fmap_last, Hlast. simpl. rewrite last_lookup.
    replace (Nat.pred (length ordering)) with (length ordering - 1)%nat by lia.
    destruct (lookup_lt_is_Some_2 ordering (length ordering - 1)) as [x Hx].
    { destruct ordering; [done|simpl; lia]. }
    by rewrite Hx, (list_lookup_total_correct _ _ _ Hx).
  - by rewrite length_fmap.
  - intros Hz. rewrite (Hzero Hz). apply fmap_lookup_total_seq.
  - by rewrite length_fmap.
Qed.

(** One polyline, once the loop has ended in [s']: its cell lists the
    live vertices of [s']. *)
Lemma process_polyline_reduce self input inputPoints ordering r polyline q s' live :
  Polyline.new ordering = Some polyline →
  seed self input polyline (runQueue r) = Some q →
  reduce (length ordering) self input (Z.of_nat (length ordering))
    (mkLoop polyline q (Z.of_nat (length ordering))) = Some s' →
  linked ordering (polyline_ s') live →
  currentNumPts s' = Z.of_nat (length live) →
  process_polyline self input inputPoints ordering r =
    (a ← emit_cell inputPoints (firstVertexIndex r) (live_ids (polyline_ s'))
           (assembly r);
     Some (mkRun a (Reset (queue_ s'))
             (firstVertexIndex r + Z.of_nat (length ordering)))).
Proof.
  intros Hnew Hseed Hred Hlinked Hcur.
  unfold process_polyline. rewrite Hnew. simpl. rewrite Hseed. simpl.
  rewrite Nat2Z.id, Hred. simpl.
  unfold emit_cell, InsertNextCell. rewrite Hcur.
  assert (Hlen : length (live_ids (polyline_ s')) = length live).
  { destruct (live_ids_linked _ _ _ Hlinked) as [-> _]. by rewrite length_fmap. }
  rewrite Hlen.
  pose proof Hlinked as (_ & Hchain & Hhd & _).
  destruct live as [|a rest]; [done|]. injection Hhd as ->.
  pose proof Hchain as (v0 & Hv0 & _).
  change 0 with (Z.of_nat 0). rewrite lookup_id_nat, Hv0. simpl.
  rewrite (emit_walk_chain _ _ _ _ _ _ _ Hchain)
    by (pose proof (chain_length _ _ _ _ Hchain); lia).
  unfold live_ids. by rewrite (live_slots_linked _ _ _ Hlinked).
Qed.

(** One polyline: its cell ends up holding what is left of it. *)
Lemma process_polyline_spec self input inputPoints ordering r :
  Points input = Some inputPoints →
  ordering ≠ [] →
  Z.of_nat (length ordering) < 2 ^ 32 →
  Forall (λ x, 0 ≤ x < GetNumberOfPoints inputPoints) ordering →
  pq_ids (runQueue r) = [] →
  ∃ kept q,
    survivors self inputPoints ordering kept ∧
    process_polyline self input inputPoints ordering r =
      (a ← emit_cell inputPoints (firstVertexIndex r) kept (assembly r);
       Some (mkRun a (Reset q)
               (firstVertexIndex r + Z.of_nat (length ordering)))).
Proof.
  intros Hpts Hne Hsmall Hrange Hq0.
  destruct (new_linked _ Hne Hsmall) as (pl & Hnew & Hlinked).
  destruct (seed_spec self input inputPoints ordering Hpts Hrange _ _ Hlinked Hq0)
    as (q & Hseed & Hinv).
  destruct (reduce_spec self input inputPoints ordering Hpts Hrange
              (length ordering) _ _ Hsmall Hinv)
    as (live & s' & _ & Hred & _ & _ & Hlinked' & Hcur & Hsub & Hmin & Hzero
        & Hexit).
  { by rewrite length_seq. }
  rewrite length_seq in Hmin.
  destruct (survivors_linked self inputPoints _ _ _ Hne Hlinked' Hsub Hmin)
    as [Hsurv Hlen]; [|done|].
  { intros Hz. apply Hzero. unfold loop_guard. simpl. by rewrite Hz. }
  exists (live_ids (polyline_ s')), (queue_ s'). split; [done|].
  by eapply process_polyline_reduce.
Qed.

End Emission.

(** ** The output assembler *)

Section Assembler.
Context {Geometry : LineGeometry} {Queue : PriorityQueue}.
Variable inputPoints : vtkPoints.

Lemma InsertCellPoint_last k cells c :
  InsertCellPoint k (cells ++ [c]) = Some (cells ++ [mkCell (npts c) (pts c ++ [k])]).
Proof.
  unfold InsertCellPoint. rewrite reverse_app. simpl.
  by rewrite reverse_involutive.
Qed.

Lemma cell_ok_weaken m m' kept c : m ⊆ m' → cell_ok m kept c → cell_ok m' kept c.
Proof.
  intros Hsub [Hn Hpts]. split; [done|].
  eapply Forall2_impl; [done|]. simpl. intros k x Hk.
  by eapply lookup_weaken.
Qed.

Lemma emit_point_spec x a cells c :
  asm_ok inputPoints a → newLines a = cells ++ [c] →
  is_Some (GetPoint inputPoints x) →
  ∃ a' k,
    emit_point inputPoints x a = Some a' ∧
    asm_ok inputPoints a' ∧
    pointIdMap a ⊆ pointIdMap a' ∧
    pointIdMap a' !! x = Some k ∧
    newLines a' = cells ++ [mkCell (npts c) (pts c ++ [k])] ∧
    asmCD a' = asmCD a ∧
    DataType (newPts a') = DataType (newPts a) ∧
    (∀ y, y ∈ (asmPD a').*1 ↔ y ∈ (asmPD a).*1 ∨ y = x).
Proof.
  intros (Hdst & Hnd & Hpts & Hmap) Hlines [p Hp].
  unfold emit_point. destruct (pointIdMap a !! x) as [k|] eqn:Hx.
  - rewrite Hlines, InsertCellPoint_last. simpl.
    eexists _, k. split; [reflexivity|]. simpl. split_and!; try done.
    intros y. split; [auto|]. intros [Hy| ->]; [done|].
    apply Hmap in Hx. apply list_elem_of_fmap. by exists (x, k).
  - rewrite Hp. simpl. rewrite Hlines, InsertCellPoint_last. simpl.
    assert (Hfresh : x ∉ (asmPD a).*1).
    { intros ((x' & k) & -> & Hin)%list_elem_of_fmap.
      apply Hmap in Hin. simpl in *. congruence. }
    assert (Hlen : length (Data (newPts a)) = length (asmPD a)).
    { apply Forall2_length in Hpts. by rewrite length_fmap in Hpts. }
    eexists _, _. split; [reflexivity|]. simpl. unfold CopyData.
    split_and!; try done.
    + split_and!; simpl.
      * rewrite fmap_app, length_app, Hdst. simpl.
        rewrite Nat2Z.inj_add. simpl.
        rewrite seqZ_app by lia. rewrite Hlen. f_equal.
      * rewrite fmap_app. simpl. apply NoDup_app. split_and!; [done| |].
        -- intros y Hy ->%list_elem_of_singleton. done.
        -- apply NoDup_singleton.
      * rewrite fmap_app. simpl. apply Forall2_app; [done|].
        constructor; [|constructor]. by rewrite Hp.
      * intros y k. rewrite elem_of_app, list_elem_of_singleton.
        destruct (decide (y = x)) as [->|Hne].
        -- rewrite lookup_insert_eq. split.
           ++ intros [= <-]. by right.
           ++ intros [Hin|[= <-]]; [|done].
              destruct Hfresh. apply list_elem_of_fmap. by exists (x, k).
        -- rewrite lookup_insert_ne by done. rewrite Hmap. split; [auto|].
           intros [?|[= ? ?]]; done.
    + by apply insert_subseteq.
    + by rewrite lookup_insert_eq.
    + intros y. rewrite fmap_app, elem_of_app. simpl.
      by rewrite list_elem_of_singleton.
Qed.

Lemma emit_ids_spec kept : ∀ a cells c,
  asm_ok inputPoints a → newLines a = cells ++ [c] →
  Forall (λ x, is_Some (GetPoint inputPoints x)) kept →
  ∃ a' ks,
    emit_ids inputPoints kept a = Some a' ∧
    asm_ok inputPoints a' ∧
    pointIdMap a ⊆ pointIdMap a' ∧
    Forall2 (λ k x, pointIdMap a' !! x = Some k) ks kept ∧
    newLines a' = cells ++ [mkCell (npts c) (pts c ++ ks)] ∧
    asmCD a' = asmCD a ∧
    DataType (newPts a') = DataType (newPts a) ∧
    (∀ y, y ∈ (asmPD a').*1 ↔ y ∈ (asmPD a).*1 ∨ y ∈ kept).
Proof.
  induction kept as [|x rest IH]; intros a cells c Hok Hlines Hrange.
  - exists a, []. simpl. rewrite app_nil_r. split_and!; try done.
    + destruct c; by rewrite Hlines.
    + intros y. rewrite elem_of_nil. tauto.
  - apply Forall_cons in Hrange as [Hx Hrest].
    destruct (emit_point_spec x a cells c Hok Hlines Hx)
      as (a1 & k & Hemit & Hok1 & Hsub1 & Hk & Hlines1 & Hcd1 & Hty1 & Hsrc1).
    destruct (IH a1 cells _ Hok1 Hlines1 Hrest)
      as (a' & ks & Hemit' & Hok' & Hsub' & Hks & Hlines' & Hcd' & Hty' & Hsrc').
    exists a', (k :: ks). simpl. rewrite Hemit. simpl.
    split_and!; try done.
    + by etrans.
    + constructor; [|done]. by eapply lookup_weaken.
    + rewrite Hlines'. simpl. by rewrite <- app_assoc.
    + congruence.
    + congruence.
    + intros y. rewrite Hsrc', Hsrc1, elem_of_cons. tauto.
Qed.

Lemma emit_cell_spec firstVertexIndex kept a :
  asm_ok inputPoints a →
  Forall (λ x, is_Some (GetPoint inputPoints x)) kept →
  ∃ a' c,
    emit_cell inputPoints firstVertexIndex kept a = Some a' ∧
    asm_ok inputPoints a' ∧
    pointIdMap a ⊆ pointIdMap a' ∧
    cell_ok (pointIdMap a') kept c ∧
    newLines a' = newLines a ++ [c] ∧
    asmCD a' =
      asmCD a ++ [(firstVertexIndex, Z.of_nat (length (newLines a)))] ∧
    DataType (newPts a') = DataType (newPts a) ∧
    (∀ y, y ∈ (asmPD a').*1 ↔ y ∈ (asmPD a).*1 ∨ y ∈ kept).
Proof.
  intros Hok Hrange. unfold emit_cell, InsertNextCell.
  destruct (emit_ids_spec kept
              (mkAssembly (newPts a)
                 (newLines a ++ [mkCell (Z.of_nat (length kept)) []])
                 (asmPD a)
                 (CopyData firstVertexIndex (Z.of_nat (length (newLines a)))
                    (asmCD a))
                 (pointIdMap a))
              (newLines a) (mkCell (Z.of_nat (length kept)) []))
    as (a' & ks & Hemit & Hok' & Hsub & Hks & Hlines & Hcd & Hty & Hsrc);
    [done|done|done|].
  exists a', (mkCell (Z.of_nat (length kept)) ks). split_and!; try done.
Qed.

End Assembler.

(** Nothing emitted yet. *)
Lemma asm_ok_empty inputPoints dt :
  asm_ok inputPoints (mkAssembly (mkPoints dt []) [] [] [] ∅).
Proof.
  split_and!; simpl; try done.
  - apply NoDup_nil_2.
  - intros x k. rewrite lookup_empty, elem_of_nil. by split.
Qed.

(** ** The whole run *)

Section Run.
Context {Geometry : LineGeometry} {Queue : PriorityQueue}.

Lemma process_lines_spec self input inputPoints aborts :
  Points input = Some inputPoints →
  ∀ lines call r,
    Forall (wf_line (GetNumberOfPoints inputPoints)) lines →
    asm_ok inputPoints (assembly r) →
    pq_ids (runQueue r) = [] →
    ∃ r' kepts cells,
      process_lines self input inputPoints aborts call lines r = Some r' ∧
      length kepts = processed aborts call (length lines) ∧
      Forall2 (survivors self inputPoints) (take (length kepts) lines) kepts ∧
      emit_cells inputPoints (firstVertexIndex r)
        (zip (take (length kepts) lines) kepts) (assembly r)
        = Some (assembly r') ∧
      asm_ok inputPoints (assembly r') ∧
      pq_ids (runQueue r') = [] ∧
      pointIdMap (assembly r) ⊆ pointIdMap (assembly r') ∧
      newLines (assembly r') = newLines (assembly r) ++ cells ∧
      Forall2 (cell_ok (pointIdMap (assembly r'))) kepts cells ∧
      asmCD (assembly r') =
        asmCD (assembly r) ++
        cell_data_log (firstVertexIndex r)
          (Z.of_nat (length (newLines (assembly r))))
          (take (length kepts) lines) ∧
      DataType (newPts (assembly r')) = DataType (newPts (assembly r)) ∧
      (∀ y, y ∈ (asmPD (assembly r')).*1 ↔
            y ∈ (asmPD (assembly r)).*1 ∨ ∃ kept, kept ∈ kepts ∧ y ∈ kept).
Proof.
  intros Hpts lines.
  induction lines as [|line rest IH]; intros call r Hwf Hok Hq.
  { exists r, [], []. simpl. rewrite !app_nil_r. split_and!; try done.
    intros y. split; [auto|]. intros [?|(? & []%elem_of_nil & _)]. done. }
  apply Forall_cons in Hwf as [(Hne & Hsmall & Hrange) Hwf].
  simpl. destruct (aborts call) eqn:Habort.
  { exists r, [], []. simpl. rewrite !app_nil_r. split_and!; try done.
    intros y. split; [auto|]. intros [?|(? & []%elem_of_nil & _)]. done. }
  destruct (process_polyline_spec self input inputPoints line r
              Hpts Hne Hsmall Hrange Hq) as (kept & q & Hsurv & ->).
  assert (Hkept : Forall (λ x, is_Some (GetPoint inputPoints x)) kept).
  { apply Forall_forall. intros x Hx.
    destruct Hsurv as (Hsub & _).
    pose proof (elem_of_sublist _ _ _ Hx Hsub) as Hin.
    rewrite Forall_forall in Hrange. specialize (Hrange _ Hin).
    unfold GetPoint, GetNumberOfPoints, lookup_id in *.
    destruct (Z.ltb_spec x 0); [lia|]. apply lookup_lt_is_Some_2. lia. }
  destruct (emit_cell_spec inputPoints (firstVertexIndex r) kept (assembly r)
              Hok Hkept)
    as (a1 & c1 & Hemit1 & Hok1 & Hsub1 & Hc1 & Hlines1 & Hcd1 & Hty1 & Hsrc1).
  rewrite Hemit1. simpl.
  destruct (IH (S call)
              (mkRun a1 (Reset q)
                 (firstVertexIndex r + Z.of_nat (length line))) Hwf Hok1)
    as (r' & kepts & cells & Hrun & Hlen & Hsurvs & Hfold & Hok' & Hq' & Hsub'
        & Hlines' & Hcells & Hcd' & Hty' & Hsrc').
  { apply pq_ids_Reset. }
  simpl in *.
  exists r', (kept :: kepts), (c1 :: cells). simpl.
  split_and!; try done.
  - by rewrite Hlen.
  - by constructor.
  - by rewrite Hemit1.
  - by etrans.
  - by rewrite Hlines', Hlines1, <- app_assoc.
  - constructor; [|done]. by eapply cell_ok_weaken.
  - rewrite Hcd', Hcd1, Hlines1, <- app_assoc, length_app. simpl.
    do 3 f_equal. lia.
  - congruence.
  - intros y. rewrite Hsrc', Hsrc1. split.
    + intros [[?|?]|(k' & ? & ?)]; [by left| |].
      * right. exists kept. split; [left|done].
      * right. exists k'. split; [by right|done].
    + intros [?|(k' & [->|?]%elem_of_cons & ?)]; [by left; left|by left; right|].
      right. by exists k'.
Qed.

Lemma RequestData_no_lines self aborts input :
  input_lines input = [] →
  RequestData self aborts input = Some (1, PriorityQueue_ self, empty_output).
Proof.
  unfold RequestData, input_lines.
  destruct (Lines input) as [lines|]; simpl; [|done].
  intros ->. by destruct (Points input).
Qed.

Lemma wf_input_points self input line rest :
  wf_input self input → input_lines input = line :: rest →
  ∃ inputPoints,
    Points input = Some inputPoints ∧ 1 ≤ GetNumberOfPoints inputPoints.
Proof.
  intros [_ Hwf] Hlines. rewrite Hlines in Hwf.
  apply Forall_cons in Hwf as [(Hne & _ & Hrange) _].
  destruct line as [|x line]; [done|].
  apply Forall_cons in Hrange as [Hx _]. unfold input_point_count in Hx.
  destruct (Points input) as [inputPoints|]; simpl in Hx; [|lia].
  exists inputPoints. split; [done|lia].
Qed.

Lemma RequestData_lines self aborts input inputPoints line rest :
  input_lines input = line :: rest →
  Points input = Some inputPoints → 1 ≤ GetNumberOfPoints inputPoints →
  RequestData self aborts input =
    (r ← process_lines self input inputPoints aborts 0 (line :: rest)
           (mkRun (mkAssembly
                     (mkPoints (output_data_type self inputPoints) [])
                     [] [] [] ∅)
              (PriorityQueue_ self) 0);
     Some (1, runQueue r,
           mkOutput (Some (newPts (assembly r))) (Some (newLines (assembly r)))
             (asmPD (assembly r)) (asmCD (assembly r)))).
Proof.
  unfold RequestData, input_lines. intros Hlines Hpts Hnum.
  destruct (Lines input) as [lines|]; simpl in Hlines; [|done]. subst lines.
  rewrite Hpts.
  destruct (Z.ltb_spec (Z.of_nat (length (line :: rest))) 1);
    [simpl in *; lia|].
  by destruct (Z.ltb_spec (GetNumberOfPoints inputPoints) 1); [lia|].
Qed.

(** What [RequestData] does on a well-formed call, in one statement. *)
Lemma RequestData_spec self aborts input :
  wf_input self input →
  ∃ q out kepts m,
    RequestData self aborts input = Some (1, q, out) ∧
    pq_ids q = [] ∧
    length kepts = processed aborts 0 (length (input_lines input)) ∧
    (∀ inputPoints, Points input = Some inputPoints →
       Forall2 (survivors self inputPoints)
         (take (length kepts) (input_lines input)) kepts ∧
       emit_cells inputPoints 0
         (zip (take (length kepts) (input_lines input)) kepts)
         (mkAssembly (mkPoints (output_data_type self inputPoints) [])
            [] [] [] ∅)
       = Some (mkAssembly
                 (mkPoints (output_data_type self inputPoints)
                    (output_points out))
                 (output_cells out) (outPD out) (outCD out) m)) ∧
    Forall2 (cell_ok m) kepts (output_cells out) ∧
    outCD out = cell_data_log 0 0 (take (length kepts) (input_lines input)) ∧
    (outPD out).*2 = seqZ 0 (Z.of_nat (length (outPD out))) ∧
    NoDup (outPD out).*1 ∧
    (∀ inputPoints, Points input = Some inputPoints →
       Forall2 (λ x p, stored (output_data_type self inputPoints)
                         <$> GetPoint inputPoints x = Some p)
         (outPD out).*1 (output_points out)) ∧
    (∀ x k, m !! x = Some k ↔ (x, k) ∈ outPD out) ∧
    (∀ y, y ∈ (outPD out).*1 ↔ ∃ kept, kept ∈ kepts ∧ y ∈ kept).
Proof.
  intros Hwf. destruct (input_lines input) as [|line rest] eqn:Hlines.
  { rewrite (RequestData_no_lines _ _ _ Hlines).
    exists (PriorityQueue_ self), empty_output, [], ∅.
    destruct Hwf as [Hq _]. simpl. split_and!; try done.
    - constructor.
    - intros x k. rewrite lookup_empty, elem_of_nil. by split.
    - intros y. rewrite elem_of_nil. split; [done|].
      by intros (? & []%elem_of_nil & _). }
  destruct (wf_input_points _ _ _ _ Hwf Hlines) as (inputPoints & Hpts & Hnum).
  rewrite (RequestData_lines _ _ _ _ _ _ Hlines Hpts Hnum).
  destruct Hwf as [Hq Hwf]. rewrite Hlines in Hwf.
  unfold input_point_count in Hwf. rewrite Hpts in Hwf. simpl in Hwf.
  destruct (process_lines_spec self input inputPoints aborts Hpts
              (line :: rest) 0%nat
              (mkRun (mkAssembly
                        (mkPoints (output_data_type self inputPoints) [])
                        [] [] [] ∅)
                 (PriorityQueue_ self) 0) Hwf)
    as (r' & kepts & cells & Hrun & Hlen & Hsurvs & Hfold & Hok' & Hq' & Hsub'
        & Hlines' & Hcells & Hcd' & Hty' & Hsrc'); [|done|].
  { split_and!; simpl; try done.
    - apply NoDup_nil_2.
    - intros x k. rewrite lookup_empty, elem_of_nil. by split. }
  rewrite Hrun. cbn [mbind option_bind].
  destruct Hok' as (Hdst & Hnd & Hpoints & Hmap).
  eexists (runQueue r'), _, kepts, (pointIdMap (assembly r')).
  split; [reflexivity|]. cbn [outPD outCD outLines outPoints].
  split_and!; try done.
  - intros ? Hpts'. rewrite Hpts in Hpts'. injection Hpts' as <-.
    split; [done|]. cbn [firstVertexIndex assembly] in Hfold.
    rewrite Hfold. unfold output_cells, output_points.
    cbn [outLines outPoints default from_option].
    destruct (assembly r') as [[dt data] ? ? ? ?]. simpl in *. by subst dt.
  - unfold output_cells. cbn [outLines default].
    by rewrite Hlines'.
  - intros ? Hpts'. rewrite Hpts in Hpts'. injection Hpts' as <-.
    by rewrite Hty' in Hpoints.
  - intros y. rewrite Hsrc'. cbn [assembly asmPD]. rewrite fmap_nil, elem_of_nil.
    tauto.
Qed.

End Run.

(** ** Facts of binary64 arithmetic the filter relies on *)

Section Doubles.

(** [x / x] is one for every finite non-zero [x]. *)
Lemma SF64div_same s m e :
  SF64div (S754_finite s m e) (S754_finite s m e) = Prim2SF 1%float.
Proof.
  unfold SF64div, SFdiv, SFdiv_core_binary.
  replace (Zdigits2 (Z.pos m) + e - (Zdigits2 (Z.pos m) + e)) with 0 by lia.
  replace (e - e) with 0 by lia.
  change (Z.min (fexp prec emax 0) 0) with (-53).
  change (0 - -53) with 53.
  cbv iota beta.
  rewrite Z.shiftl_mul_pow2 by lia.
  assert (H : Z.div_eucl (Z.pos m * 2 ^ 53) (Z.pos m) = (2 ^ 53, 0)).
  { generalize (Z.div_eucl_eq (Z.pos m * 2 ^ 53) (Z.pos m)).
    generalize (Z.mod_pos_bound (Z.pos m * 2 ^ 53) (Z.pos m)).
    unfold Z.modulo, Z.div.
    destruct (Z.div_eucl _ _) as [q r]. intros Hb He.
    specialize (Hb ltac:(lia)). specialize (He ltac:(lia)).
    assert (q = 2 ^ 53) by nia. subst q. f_equal. lia. }
  rewrite H.
  replace (xorb s s) with false by (by destruct s).
  unfold new_location, new_location_even, new_location_odd.
  destruct (Z.even (Z.pos m)); vm_compute; reflexivity.
Qed.

(** [1.0 - x / x < 0.0] is false, whatever [x] is (the quotient is one, or
    not a number). *)
Lemma sub_div_same_not_neg (x : float) : PrimFloat.ltb (1 - x / x) 0 = false.
Proof.
  rewrite FloatAxioms.ltb_spec, FloatAxioms.sub_spec, FloatAxioms.div_spec.
  destruct (Prim2SF x) as [s|s| |s m e] eqn:E.
  - destruct s; vm_compute; reflexivity.
  - destruct s; vm_compute; reflexivity.
  - vm_compute; reflexivity.
  - rewrite SF64div_same. vm_compute. reflexivity.
Qed.

(** A double that is at most zero and not below zero equals zero. *)
Lemma leb_zero_not_neg (x : float) :
  PrimFloat.leb x 0 = true → PrimFloat.ltb x 0 = false →
  PrimFloat.eqb x 0 = true.
Proof.
  rewrite FloatAxioms.leb_spec, FloatAxioms.ltb_spec, FloatAxioms.eqb_spec.
  unfold SFleb, SFltb, SFeqb.
  by destruct (SFcompare (Prim2SF x) (Prim2SF 0)) as [[]|].
Qed.

(** A square root is never below zero. *)
Lemma sqrt_not_neg (x : float) : PrimFloat.ltb (PrimFloat.sqrt x) 0 = false.
Proof.
  rewrite FloatAxioms.ltb_spec, FloatAxioms.sqrt_spec.
  change (Prim2SF 0) with (S754_zero false).
  unfold SF64sqrt, SFsqrt.
  destruct (Prim2SF x) as [s|[]| |[] m e]; try done.
  destruct (SFsqrt_core_binary prec emax (Z.pos m) e) as [[mz ez] lz].
  unfold binary_round_aux.
  destruct (shr_fexp prec emax mz ez lz) as [mrs' e'].
  destruct (shr_fexp prec emax _ e' loc_Exact) as [mrs'' e''].
  destruct (shr_m mrs'') as [|p|p]; try done.
  by destruct (e'' <=? emax - prec).
Qed.

End Doubles.

(** ** Reading the output *)

Section Cells.
Context {Geometry : LineGeometry} {Queue : PriorityQueue}.

Lemma source_of_log (out : Output) x k :
  (outPD out).*2 = seqZ 0 (Z.of_nat (length (outPD out))) →
  (x, k) ∈ outPD out →
  0 ≤ k ∧ outPD out !! Z.to_nat k = Some (x, k) ∧ source_of out k = x.
Proof.
  intros Hdst [j Hj]%list_elem_of_lookup_1.
  assert (Hk : (outPD out).*2 !! j = Some k) by (by rewrite list_lookup_fmap, Hj).
  pose proof (lookup_lt_Some _ _ _ Hj) as Hlt.
  rewrite Hdst, lookup_seqZ_lt in Hk by lia. injection Hk as <-.
  rewrite Z.add_0_l. split; [lia|]. rewrite Nat2Z.id. split; [done|].
  unfold source_of. by rewrite lookup_id_nat, Hj.
Qed.

Lemma cell_source_ids_kept (out : Output) m kept c :
  (outPD out).*2 = seqZ 0 (Z.of_nat (length (outPD out))) →
  (∀ x k, m !! x = Some k ↔ (x, k) ∈ outPD out) →
  cell_ok m kept c →
  cell_source_ids out c = kept ∧ npts c = Z.of_nat (length (pts c)).
Proof.
  intros Hdst Hmap [Hn Hpts]. split.
  - unfold cell_source_ids. clear Hn.
    induction Hpts as [|k x ks xs Hk _ IH]; [done|].
    rewrite fmap_cons, IH. f_equal.
    apply Hmap in Hk. by destruct (source_of_log out x k Hdst Hk) as (_ & _ & ?).
  - by rewrite Hn, (Forall2_length _ _ _ Hpts).
Qed.

Lemma processed_le aborts call n : (processed aborts call n ≤ n)%nat.
Proof.
  revert call. induction n as [|n IH]; intros call; simpl; [done|].
  destruct (aborts call); [lia|]. specialize (IH (S call)). lia.
Qed.

Lemma processed_no_abort aborts call n :
  (∀ i, aborts i = false) → processed aborts call n = n.
Proof.
  intros Hno. revert call. induction n as [|n IH]; intros call; simpl; [done|].
  by rewrite Hno, IH.
Qed.

(** The run, cell by cell: as many output cells as cells were handled, the
    [i]-th of them listing what is left of the [i]-th input cell. *)
Lemma RequestData_cells self aborts input :
  wf_input self input →
  ∃ q out,
    RequestData self aborts input = Some (1, q, out) ∧
    pq_ids q = [] ∧
    length (output_cells out)
      = processed aborts 0 (length (input_lines input)) ∧
    ∀ i line c,
      input_lines input !! i = Some line →
      output_cells out !! i = Some c →
      npts c = Z.of_nat (length (pts c)) ∧
      length (cell_source_ids out c) = length (pts c) ∧
      ∃ inputPoints,
        Points input = Some inputPoints ∧
        survivors self inputPoints line (cell_source_ids out c).
Proof.
  intros Hwf.
  destruct (RequestData_spec self aborts input Hwf)
    as (q & out & kepts & m & Hrun & Hq & Hlen & Hsurv & Hcells & _ & Hdst & _
        & _ & Hmap & _).
  exists q, out. split_and!; try done.
  { by rewrite <- (Forall2_length _ _ _ Hcells). }
  intros i line c Hline Hc.
  destruct (input_lines input) as [|l0 rest] eqn:Hlines; [done|].
  destruct (wf_input_points _ _ _ _ Hwf Hlines) as (inputPoints & Hpts & _).
  destruct (Hsurv _ Hpts) as [Hsurvs _].
  destruct (Forall2_lookup_r _ _ _ _ _ Hcells Hc) as (kept & Hkept & Hcell).
  destruct (cell_source_ids_kept out m kept c Hdst Hmap Hcell) as [Hsrc Hn].
  split; [done|]. split; [unfold cell_source_ids; by rewrite length_fmap|].
  exists inputPoints. split; [done|]. rewrite Hsrc.
  destruct (Forall2_lookup_r _ _ _ _ _ Hsurvs Hkept) as (line' & Hline' & Hs).
  apply lookup_take_Some in Hline' as [Hline' _].
  by assert (line' = line) as -> by congruence.
Qed.

End Cells.

(** ** Well-formedness of cells over the scenario's points, by a test *)

Lemma wf_lines_over_scenario (self : Filter (Queue := ListQueue)) lines :
  PriorityQueue_ self = [] →
  forallb (λ line, negb (bool_decide (line = []))
                   && bool_decide (Z.of_nat (length line) < 2 ^ 32)
                   && forallb (λ x, bool_decide (0 ≤ x < 4)) line) lines = true →
  wf_input self (lines_over_scenario lines).
Proof.
  intros Hq Hlines. split; [by rewrite Hq|]. simpl.
  apply Forall_forall. intros line Hin.
  rewrite forallb_forall in Hlines.
  apply list_elem_of_In, Hlines in Hin.
  apply andb_prop in Hin as [[Hne Hsmall]%andb_prop Hrange].
  split_and!.
  - apply negb_true_iff, bool_decide_eq_false in Hne. done.
  - by apply bool_decide_eq_true in Hsmall.
  - apply Forall_forall. intros x Hx. rewrite forallb_forall in Hrange.
    apply list_elem_of_In, Hrange in Hx. by apply bool_decide_eq_true in Hx.
Qed.

(** A subsequence as long as the list is the list. *)
Lemma sublist_same_length {A} (l1 l2 : list A) :
  l1 `sublist_of` l2 → (length l2 ≤ length l1)%nat → l1 = l2.
Proof.
  induction 1 as [|x l1 l2 Hsub IH|x l1 l2 Hsub IH]; intros Hlen; [done| |].
  - f_equal. apply IH. simpl in Hlen. lia.
  - apply sublist_length in Hsub. simpl in Hlen. lia.
Qed.

(** ** The properties of the specification *)

Section Claims.
Context {Geometry : LineGeometry} {Queue : PriorityQueue}.

Lemma below_target_zero self (n : Z) :
  TargetReduction self = 0%float → below_target self n n = false.
Proof. intros Hzero. unfold below_target. rewrite Hzero. apply sub_div_same_not_neg. Qed.

(** C3, as amended.  Every polyline the run handles has its output cell,
    at the same place among the cells.  That cell has at least two
    vertices when the polyline is open and at least three when it is a
    loop of three vertices or more; a loop of fewer vertices is emitted
    unchanged, with the same points in the same order; the count never
    exceeds the original one, and it is the size the cell was allocated
    with. *)
Theorem output_vertex_count self aborts input :
  wf_input self input →
  ∃ q out,
    RequestData self aborts input = Some (1, q, out) ∧
    length (output_cells out)
      = processed aborts 0 (length (input_lines input)) ∧
    ((∀ n, aborts n = false) →
     length (output_cells out) = length (input_lines input)) ∧
    ∀ i line,
      input_lines input !! i = Some line →
      (i < processed aborts 0 (length (input_lines input)))%nat →
      ∃ c,
        output_cells out !! i = Some c ∧
        npts c = Z.of_nat (length (pts c)) ∧
        (length (pts c) ≤ length line)%nat ∧
        (head line ≠ last line → (2 ≤ length (pts c))%nat) ∧
        (head line = last line → (3 ≤ length line)%nat →
         (3 ≤ length (pts c))%nat) ∧
        (head line = last line → (length line < 3)%nat →
         cell_source_ids out c = line).
Proof.
  intros Hwf.
  destruct (RequestData_cells self aborts input Hwf)
    as (q & out & Hrun & _ & Hcount & Hcells).
  exists q, out. split; [done|]. split; [done|]. split.
  { intros Hno. by rewrite Hcount, processed_no_abort. }
  intros i line Hline Hi.
  destruct (lookup_lt_is_Some_2 (output_cells out) i) as [c Hc]; [lia|].
  exists c. split; [done|].
  destruct (Hcells i line c Hline Hc)
    as (Hn & Hlen & _ & _ & Hsub & _ & _ & Hmin & _).
  pose proof (sublist_length _ _ Hsub) as Hle.
  unfold floor_size in Hmin.
  split; [done|]. split; [lia|]. split; [|split].
  - intros Hopen. rewrite bool_decide_eq_false_2 in Hmin by done.
    destruct line as [|x [|y line]]; simpl in *; (done || lia).
  - intros Hloop ?. rewrite bool_decide_eq_true_2 in Hmin by done. lia.
  - intros Hloop ?. rewrite bool_decide_eq_true_2 in Hmin by done.
    apply sublist_same_length; [done|]. lia.
Qed.

(** C4.  The first and the last point identifier of every polyline are
    kept.  Every polyline the run handles has its output cell, at the same
    place among the cells; that cell begins with the first identifier of
    the polyline and ends with the last, and these are two places of the
    cell as soon as the polyline has two vertices. *)
Theorem endpoints_preserved self aborts input :
  wf_input self input →
  ∃ q out,
    RequestData self aborts input = Some (1, q, out) ∧
    length (output_cells out)
      = processed aborts 0 (length (input_lines input)) ∧
    ((∀ n, aborts n = false) →
     length (output_cells out) = length (input_lines input)) ∧
    ∀ i line,
      input_lines input !! i = Some line →
      (i < processed aborts 0 (length (input_lines input)))%nat →
      ∃ c,
        output_cells out !! i = Some c ∧
        head (cell_source_ids out c) = head line ∧
        last (cell_source_ids out c) = last line ∧
        ((2 ≤ length line)%nat → (2 ≤ length (cell_source_ids out c))%nat).
Proof.
  intros Hwf.
  destruct (RequestData_cells self aborts input Hwf)
    as (q & out & Hrun & _ & Hcount & Hcells).
  exists q, out. split; [done|]. split; [done|]. split.
  { intros Hno. by rewrite Hcount, processed_no_abort. }
  intros i line Hline Hi.
  destruct (lookup_lt_is_Some_2 (output_cells out) i) as [c Hc]; [lia|].
  exists c. split; [done|].
  destruct (Hcells i line c Hline Hc)
    as (_ & _ & _ & _ & _ & Hhd & Hlast & Hmin & _).
  split_and!; try done. unfold floor_size in Hmin. case_bool_decide; lia.
Qed.

(** C5.  With a target reduction of zero no vertex is removed: the output
    cells list the vertices of the input cells, cell by cell and in the
    same order (all of them when the run is not cancelled). *)
Theorem zero_target_is_identity self aborts input :
  wf_input self input →
  TargetReduction self = 0%float →
  ∃ q out,
    RequestData self aborts input = Some (1, q, out) ∧
    cell_source_ids out <$> output_cells out
      = take (processed aborts 0 (length (input_lines input)))
          (input_lines input) ∧
    ((∀ n, aborts n = false) →
     cell_source_ids out <$> output_cells out = input_lines input) ∧
    Forall (λ c, npts c = Z.of_nat (length (pts c))) (output_cells out).
Proof.
  intros Hwf Hzero.
  destruct (RequestData_cells self aborts input Hwf)
    as (q & out & Hrun & _ & Hlen & Hcells).
  exists q, out. split; [done|].
  pose proof (processed_le aborts 0 (length (input_lines input))) as Hle.
  assert (Heq : cell_source_ids out <$> output_cells out
                = take (processed aborts 0 (length (input_lines input)))
                    (input_lines input)).
  { apply list_eq. intros i. rewrite list_lookup_fmap.
    destruct (decide (i < length (output_cells out))%nat) as [Hi|Hi].
    - destruct (lookup_lt_is_Some_2 _ _ Hi) as [c Hc].
      destruct (lookup_lt_is_Some_2 (input_lines input) i) as [line Hline];
        [lia|].
      rewrite Hc, lookup_take_lt, Hline by lia. simpl. f_equal.
      destruct (Hcells i line c Hline Hc)
        as (_ & _ & _ & _ & _ & _ & _ & _ & Hsame & _).
      apply Hsame. by apply below_target_zero.
    - rewrite (lookup_ge_None_2 (output_cells out)) by lia.
      rewrite lookup_take_ge by lia. done. }
  split_and!; [done| |].
  - intros Hno. rewrite Heq, processed_no_abort by done.
    by rewrite firstn_all.
  - apply Forall_lookup. intros i c Hc.
    destruct (lookup_lt_is_Some_2 (input_lines input) i) as [line Hline].
    { apply lookup_lt_Some in Hc. lia. }
    by destruct (Hcells i line c Hline Hc) as (? & _).
Qed.


Lemma ComputeError_not_neg input polyline i error :
  (∀ x p1 p2, PrimFloat.ltb (DistanceToLine x p1 p2) 0 = false) →
  ComputeError input polyline i = Some error →
  PrimFloat.ltb error 0 = false.
Proof.
  intros Hnn. unfold ComputeError. intros He.
  repeat match type of He with
         | (?m ≫= _) = Some _ =>
             destruct m; simpl in He; [|discriminate He]
         end.
  injection He as <-.
  destruct (PrimFloat.eqb _ _); [reflexivity|apply Hnn].
Qed.

(** The fields and neighbours of an interior live vertex. *)
Lemma interior_vertex ordering polyline live i :
  linked ordering polyline live → interior ordering live i →
  ∃ k v p n pv nv,
    i = Z.of_nat k ∧
    Polyline.Vertices polyline !! k = Some v ∧
    Vertex.removable v = true ∧
    Vertex.prev v = Some p ∧ Vertex.next v = Some n ∧
    Polyline.Vertices polyline !! p = Some pv ∧
    Polyline.Vertices polyline !! n = Some nv ∧
    k ∈ live_slots polyline ∧ p ∈ live_slots polyline ∧
    n ∈ live_slots polyline.
Proof.
  intros Hlinked Hint.
  destruct (interior_split _ _ _ _ Hlinked Hint)
    as (l1 & a & k & b & l2 & -> & -> & Hk).
  rewrite (live_slots_linked _ _ _ Hlinked).
  destruct Hlinked as ([_ Hst] & Hchain & _).
  destruct (chain_middle _ _ _ _ _ _ _ Hchain)
    as (va & vk & vb & Hva & Hvk & Hvb & Hpk & Hnk & _).
  destruct (Hst _ _ Hvk) as (_ & _ & Hrem).
  exists k, vk, a, b, va, vb. split_and!; try done.
  - rewrite Hrem. by apply bool_decide_eq_true_2.
  - rewrite elem_of_app, !elem_of_cons. auto.
  - rewrite elem_of_app, !elem_of_cons. auto.
  - rewrite elem_of_app, !elem_of_cons. auto.
Qed.

(** C7.  With a maximum error of zero the queue only ever holds vertices
    whose error, computed on the present links, is at most zero: a vertex
    whose error is above zero, or is not a number, is not in the queue, at
    the seeding or after a neighbour was removed, and every vertex the loop
    removes has an error of at most zero at the moment it is removed.  A
    negative error passes the test [error <= MaximumError] like zero does.
    For a point-to-line primitive that returns no negative value, at most
    zero is zero: then a vertex whose error is not zero is not in the
    queue, and every removed vertex has error zero. *)
Theorem zero_ceiling_removes_no_positive_error
    self input inputPoints ordering q0 s :
  MaximumError self = 0%float →
  Points input = Some inputPoints →
  wf_line (GetNumberOfPoints inputPoints) ordering →
  pq_ids q0 = [] →
  reduction_state self input ordering q0 s →
  (∀ i error,
     ComputeError input (polyline_ s) i = Some error →
     PrimFloat.leb error 0 = false → i ∉ pq_ids (queue_ s)) ∧
  (∀ i q',
     Pop (queue_ s) = (i, q') → 0 ≤ i →
     ∃ error s',
       ComputeError input (polyline_ s) i = Some error ∧
       PrimFloat.leb error 0 = true ∧
       loop_body self input s = Some (Continue s') ∧
       Polyline.Remove (polyline_ s) i = Some (polyline_ s')) ∧
  ((∀ x p1 p2, PrimFloat.ltb (DistanceToLine x p1 p2) 0 = false) →
   (∀ i error,
      ComputeError input (polyline_ s) i = Some error →
      PrimFloat.eqb error 0 = false → i ∉ pq_ids (queue_ s)) ∧
   (∀ i q' error,
      Pop (queue_ s) = (i, q') → 0 ≤ i →
      ComputeError input (polyline_ s) i = Some error →
      PrimFloat.eqb error 0 = true)).
Proof.
  intros Hzero Hpts (Hne & Hsmall & Hrange) Hq0 Hstate.
  destruct (reduction_state_reducing self input inputPoints ordering Hpts Hrange
              q0 s Hne Hsmall Hq0 Hstate) as (live & Hinv).
  assert (Hqueue : ∀ i, i ∈ pq_ids (queue_ s) →
            ∃ error, ComputeError input (polyline_ s) i = Some error ∧
                     PrimFloat.leb error 0 = true).
  { intros i Hi. destruct Hinv as (_ & (_ & Hq & _) & _).
    destruct (Hq i Hi) as [_ Herr].
    destruct (Herr ltac:(apply not_elem_of_nil)) as (e & He & Hle).
    exists e. split; [done|]. by rewrite Hzero in Hle. }
  assert (Hpopped : ∀ i q', Pop (queue_ s) = (i, q') → 0 ≤ i →
            i ∈ pq_ids (queue_ s)).
  { intros i q' Hpop Hi.
    assert (Hnonempty : pq_ids (queue_ s) ≠ []).
    { intros Hnil. destruct (pq_Pop_empty _ Hnil) as [Hm _].
      rewrite Hpop in Hm. simpl in Hm. lia. }
    pose proof (pq_Pop_nonempty _ Hnonempty) as Hperm.
    rewrite Hpop in Hperm. rewrite Hperm. left. }
  split_and!.
  - intros i e He Hnz Hi. destruct (Hqueue i Hi) as (e' & He' & Hz). congruence.
  - intros i q' Hpop Hi.
    destruct (loop_body_pop self input inputPoints ordering Hpts Hrange
                _ _ _ _ Hsmall Hinv Hpop Hi)
      as (l1 & a & k & b & l2 & s' & -> & -> & _ & Hbody & Hrem & _).
    destruct (Hqueue (Z.of_nat k)) as (e & He & Hz).
    { by eapply Hpopped. }
    by exists e, s'.
  - intros Hnn.
    assert (Hzero' : ∀ i, i ∈ pq_ids (queue_ s) →
              ∃ error, ComputeError input (polyline_ s) i = Some error ∧
                       PrimFloat.eqb error 0 = true).
    { intros i Hi. destruct (Hqueue i Hi) as (e & He & Hle).
      exists e. split; [done|].
      apply leb_zero_not_neg; [done|]. by eapply ComputeError_not_neg. }
    split.
    + intros i e He Hnz Hi. destruct (Hzero' i Hi) as (e' & He' & Hz).
      congruence.
    + intros i q' e Hpop Hi He.
      destruct (Hzero' i) as (e' & He' & Hz); [by eapply Hpopped|].
      congruence.
Qed.

(** C10.  In every state of the reduction of a well-formed cell, the
    slots in the queue are removable live vertices (the two ends are
    never among them), and a slot that is popped is such a vertex, with
    a [prev] and a [next] that are not null and point to live vertices;
    [Remove], [ComputeError] and the rest of the round then run without
    dereferencing a null link.  So does the whole of [RequestData]. *)
Theorem popped_slot_is_linked self aborts input inputPoints ordering q0 s :
  wf_input self input →
  Points input = Some inputPoints →
  ordering ∈ input_lines input →
  pq_ids q0 = [] →
  reduction_state self input ordering q0 s →
  (∀ i, i ∈ pq_ids (queue_ s) →
     ∃ k v, i = Z.of_nat k ∧
            Polyline.Vertices (polyline_ s) !! k = Some v ∧
            Vertex.removable v = true ∧
            is_Some (Vertex.prev v) ∧ is_Some (Vertex.next v) ∧
            k ∈ live_slots (polyline_ s)) ∧
  (∀ i q',
     Pop (queue_ s) = (i, q') → 0 ≤ i →
     ∃ k v p n pv nv s',
       i = Z.of_nat k ∧
       Polyline.Vertices (polyline_ s) !! k = Some v ∧
       Vertex.removable v = true ∧
       Vertex.prev v = Some p ∧ Vertex.next v = Some n ∧
       Polyline.Vertices (polyline_ s) !! p = Some pv ∧
       Polyline.Vertices (polyline_ s) !! n = Some nv ∧
       k ∈ live_slots (polyline_ s) ∧ p ∈ live_slots (polyline_ s) ∧
       n ∈ live_slots (polyline_ s) ∧
       is_Some (ComputeError input (polyline_ s) i) ∧
       Polyline.Remove (polyline_ s) i = Some (polyline_ s') ∧
       loop_body self input s = Some (Continue s')) ∧
  (∃ q out, RequestData self aborts input = Some (1, q, out)).
Proof.
  intros Hwf Hpts Hline Hq0 Hstate.
  pose proof Hwf as [_ Hlines]. rewrite Forall_forall in Hlines.
  destruct (Hlines _ Hline) as (Hne & Hsmall & Hrange).
  unfold input_point_count in Hrange. rewrite Hpts in Hrange. simpl in Hrange.
  destruct (reduction_state_reducing self input inputPoints ordering Hpts Hrange
              q0 s Hne Hsmall Hq0 Hstate) as (live & Hinv).
  pose proof Hinv as (Hlinked & (_ & Hq & _) & _).
  split_and!.
  - intros i Hi. destruct (Hq i Hi) as [Hint _].
    destruct (interior_vertex _ _ _ _ Hlinked Hint)
      as (k & v & p & n & pv & nv & -> & Hv & Hrem & Hp & Hn & _ & _ & Hk & _).
    exists k, v. rewrite Hp, Hn. split_and!; by eauto.
  - intros i q' Hpop Hi.
    destruct (loop_body_pop self input inputPoints ordering Hpts Hrange
                _ _ _ _ Hsmall Hinv Hpop Hi)
      as (l1 & a & k & b & l2 & s' & -> & Hlive & Hk & Hbody & Hrem & _).
    assert (Hint : interior ordering live (Z.of_nat k)).
    { exists k. split; [done|]. split; [|done].
      rewrite Hlive, elem_of_app, !elem_of_cons. auto. }
    destruct (interior_vertex _ _ _ _ Hlinked Hint)
      as (k' & v & p & n & pv & nv & Hk' & Hv & Hvrem & Hp & Hn & Hpv & Hnv
          & Hkl & Hpl & Hnl).
    apply Nat2Z.inj in Hk' as <-.
    exists k, v, p, n, pv, nv, s'. split_and!; try done.
    rewrite Hlive in Hlinked.
    by eapply ComputeError_interior.
  - destruct (RequestData_cells self aborts input Hwf) as (q & out & Hrun & _).
    by exists q, out.
Qed.

(** The outer loop over two runs of cells, no abort being signalled in the
    first. *)
Lemma process_lines_app self input inputPoints aborts l2 : ∀ l1 call r,
  (∀ j, (j < length l1)%nat → aborts (call + j)%nat = false) →
  process_lines self input inputPoints aborts call (l1 ++ l2) r =
    (r1 ← process_lines self input inputPoints aborts call l1 r;
     process_lines self input inputPoints aborts (call + length l1) l2 r1).
Proof.
  induction l1 as [|line l1 IH]; intros call r Hgo.
  { simpl. by rewrite Nat.add_0_r. }
  simpl.
  assert (aborts call = false) as ->.
  { rewrite <- (Nat.add_0_r call). apply Hgo. simpl. lia. }
  destruct (process_polyline self input inputPoints line r) as [r1|];
    [|done].
  cbn [mbind option_bind]. rewrite IH.
  - by replace (S call + length l1)%nat with (call + S (length l1))%nat by lia.
  - intros j Hj. replace (S call + j)%nat with (call + S j)%nat by lia.
    apply Hgo. simpl. lia.
Qed.

Lemma processed_all aborts : ∀ n call,
  (∀ j, (j < n)%nat → aborts (call + j)%nat = false) →
  processed aborts call n = n.
Proof.
  induction n as [|n IH]; intros call Hgo; [done|]. simpl.
  rewrite <- (Nat.add_0_r call), Hgo by lia. f_equal. apply IH.
  intros j Hj. replace (S (call + 0) + j)%nat with (call + S j)%nat by lia.
  apply Hgo. lia.
Qed.

(** The handling of a cell whose reduction meets an empty queue: the loop
    ends there, and the vertices live at that moment are emitted as the
    cell. *)
Lemma process_polyline_exhausted self input inputPoints ordering r s :
  Points input = Some inputPoints →
  wf_line (GetNumberOfPoints inputPoints) ordering →
  asm_ok inputPoints (assembly r) →
  pq_ids (runQueue r) = [] →
  reduction_state self input ordering (runQueue r) s →
  loop_guard self (Z.of_nat (length ordering)) s = true →
  (Pop (queue_ s)).1 < 0 →
  ∃ a c,
    process_polyline self input inputPoints ordering r =
      Some (mkRun a (Reset (Pop (queue_ s)).2)
              (firstVertexIndex r + Z.of_nat (length ordering))) ∧
    asm_ok inputPoints a ∧
    newLines a = newLines (assembly r) ++ [c] ∧
    cell_ok (pointIdMap a) (live_ids (polyline_ s)) c.
Proof.
  intros Hpts (Hne & Hsmall & Hrange) Hok Hq0 Hstate Hguard Hpop.
  destruct Hstate as (pl & q & Hnew & Hseed & Hrounds).
  destruct (new_linked _ Hne Hsmall) as (pl' & Hnew' & Hlinked).
  assert (pl' = pl) as -> by congruence.
  destruct (seed_spec self input inputPoints ordering Hpts Hrange _ _ Hlinked Hq0)
    as (q' & Hseed' & Hinv).
  assert (q' = q) as -> by congruence.
  destruct (reduce_spec self input inputPoints ordering Hpts Hrange
              (length ordering) _ _ Hsmall Hinv)
    as (live & s' & _ & Hred & _ & _ & Hlinked' & Hcur & Hsub & Hmin & Hzero
        & Hexit).
  { by rewrite length_seq. }
  (* the loop ends in the state of the empty pop *)
  destruct (Pop (queue_ s)) as [i qe] eqn:Hpop_eq. simpl in Hpop.
  assert (Hone : reduce 1 self input (Z.of_nat (length ordering)) s
                 = Some (mkLoop (polyline_ s) qe (currentNumPts s))).
  { simpl. by rewrite Hguard, (loop_body_break _ _ _ _ _ Hpop_eq Hpop). }
  destruct (reduce_rounds self input ordering _ _ _ _ Hrounds Hone)
    as (fuel0 & Hred0).
  pose proof Hred as HredN.
  apply (reduce_mono _ _ _ _ fuel0) in Hred.
  apply (reduce_mono _ _ _ _ (length ordering)) in Hred0.
  rewrite Nat.add_comm, Hred in Hred0. injection Hred0 as ->.
  cbn [polyline_ currentNumPts queue_] in *.
  rewrite length_seq in Hmin.
  destruct (survivors_linked self inputPoints _ _ _ Hne Hlinked' Hsub Hmin)
    as [(Hsubl & _) _]; [|done|].
  { intros Hz. apply Hzero. unfold loop_guard. simpl. by rewrite Hz. }
  assert (Hkept : Forall (λ x, is_Some (GetPoint inputPoints x))
                    (live_ids (polyline_ s))).
  { apply Forall_forall. intros x Hx.
    pose proof (elem_of_sublist _ _ _ Hx Hsubl) as Hin.
    rewrite Forall_forall in Hrange. specialize (Hrange _ Hin).
    unfold GetPoint, GetNumberOfPoints, lookup_id in *.
    destruct (Z.ltb_spec x 0); [lia|]. apply lookup_lt_is_Some_2. lia. }
  destruct (emit_cell_spec inputPoints (firstVertexIndex r) _ (assembly r)
              Hok Hkept)
    as (a & c & Hemit & Hok' & _ & Hc & Hlines' & _).
  exists a, c. split_and!; try done.
  rewrite (process_polyline_reduce self input inputPoints ordering r pl q _ live
             Hnew Hseed HredN Hlinked' Hcur).
  cbn [polyline_ queue_]. by rewrite Hemit.
Qed.

(** C9.  When, in the reduction of the [i]-th polyline of a run, a pop
    finds the queue empty while the condition of the loop still holds, the
    reduction of this polyline ends there and no error is raised: the run
    as a whole returns 1, and its [i]-th output cell lists the vertices
    that were live at that moment, as a cell like any other.  [r] is the
    state of the run when the polyline is reached. *)
Theorem queue_exhaustion_is_silent
    self aborts input inputPoints (i : nat) ordering r s :
  wf_input self input →
  Points input = Some inputPoints →
  input_lines input !! i = Some ordering →
  (∀ j, (j ≤ i)%nat → aborts j = false) →
  process_lines self input inputPoints aborts 0 (take i (input_lines input))
    (mkRun (mkAssembly (mkPoints (output_data_type self inputPoints) [])
              [] [] [] ∅)
       (PriorityQueue_ self) 0) = Some r →
  reduction_state self input ordering (runQueue r) s →
  loop_guard self (Z.of_nat (length ordering)) s = true →
  (Pop (queue_ s)).1 < 0 →
  ∃ q out c,
    RequestData self aborts input = Some (1, q, out) ∧
    output_cells out !! i = Some c ∧
    cell_source_ids out c = live_ids (polyline_ s) ∧
    npts c = Z.of_nat (length (pts c)).
Proof.
  intros Hwf Hpts Hline Hgo Hbefore Hstate Hguard Hpop.
  pose proof Hwf as [Hq Hlines].
  unfold input_point_count in Hlines. rewrite Hpts in Hlines. simpl in Hlines.
  (* the cells before, the cell, the cells after *)
  pose proof (take_drop_middle _ _ _ Hline) as Hsplit.
  assert (Hi : (i < length (input_lines input))%nat)
    by (by eapply lookup_lt_Some).
  assert (Hleni : length (take i (input_lines input)) = i)
    by (rewrite length_take; lia).
  destruct (input_lines input) as [|line0 rest0] eqn:Hinput; [done|].
  destruct (wf_input_points self input line0 rest0 Hwf Hinput)
    as (pts' & Hpts' & Hn).
  assert (pts' = inputPoints) as -> by congruence.
  rewrite (RequestData_lines self aborts input inputPoints line0 rest0
             Hinput Hpts Hn).
  rewrite <- Hsplit in Hlines |- *.
  apply Forall_app in Hlines as [Hwf1 Hwf23].
  apply Forall_cons in Hwf23 as [Hwf2 Hwf3].
  (* before *)
  destruct (process_lines_spec self input inputPoints aborts Hpts
              (take i (line0 :: rest0)) 0%nat
              (mkRun (mkAssembly
                        (mkPoints (output_data_type self inputPoints) [])
                        [] [] [] ∅)
                 (PriorityQueue_ self) 0)
              Hwf1 (asm_ok_empty _ _) Hq)
    as (r1 & kepts1 & cells1 & Hrun1 & Hlen1 & _ & _ & Hok1 & Hq1 & _
        & Hlines1 & Hcells1 & _).
  rewrite Hbefore in Hrun1. injection Hrun1 as <-.
  rewrite Hleni, processed_all in Hlen1
    by (intros j Hj; apply Hgo; lia).
  apply Forall2_length in Hcells1. cbn [assembly newLines app] in Hlines1.
  (* the cell *)
  destruct (process_polyline_exhausted self input inputPoints ordering r s
              Hpts Hwf2 Hok1 Hq1 Hstate Hguard Hpop)
    as (a & c & Hcell & Hok2 & Hlines2 & Hc).
  (* after *)
  destruct (process_lines_spec self input inputPoints aborts Hpts
              (drop (S i) (line0 :: rest0)) (S i)
              (mkRun a (Reset (Pop (queue_ s)).2)
                 (firstVertexIndex r + Z.of_nat (length ordering)))
              Hwf3 Hok2 (pq_ids_Reset _))
    as (r3 & kepts3 & cells3 & Hrun3 & _ & _ & _ & Hok3 & _ & Hsub3
        & Hlines3 & _).
  cbn [assembly] in Hlines3, Hsub3.
  rewrite process_lines_app, Hbefore
    by (intros j Hj; apply Hgo; lia).
  cbn [mbind option_bind]. rewrite Hleni. simpl process_lines.
  rewrite (Hgo i) by lia. rewrite Hcell. cbn [mbind option_bind].
  change (drop (S i) (line0 :: rest0)) with (drop i rest0) in Hrun3.
  rewrite Hrun3. cbn [mbind option_bind].
  eexists _, _, c. split; [reflexivity|].
  set (out := mkOutput _ _ _ _).
  assert (Hout : output_cells out = cells1 ++ c :: cells3).
  { subst out. unfold output_cells. cbn [outLines default].
    by rewrite Hlines3, Hlines2, Hlines1, <- app_assoc. }
  split.
  { rewrite Hout. apply list_lookup_middle. lia. }
  destruct Hok3 as (Hdest & _ & _ & Hmap).
  apply (cell_source_ids_kept out (pointIdMap (assembly r3))); [done|done|].
  by eapply cell_ok_weaken.
Qed.

Lemma filter_source_absent (log : list (Z * Z)) x :
  x ∉ log.*1 → filter (λ e, e.1 = x) log = [].
Proof.
  induction log as [|[y j] rest IH]; [done|].
  rewrite fmap_cons, not_elem_of_cons. intros [Hne Hrest].
  rewrite filter_cons. case_decide; [done|]. by apply IH.
Qed.

Lemma filter_source_unique (log : list (Z * Z)) x k :
  NoDup log.*1 → (x, k) ∈ log → filter (λ e, e.1 = x) log = [(x, k)].
Proof.
  induction log as [|[y j] rest IH]; [by intros _ ?%elem_of_nil|].
  rewrite fmap_cons, NoDup_cons, elem_of_cons.
  intros [Hy Hnd] [[= <- <-]|Hin].
  - rewrite filter_cons. case_decide; [|done]. f_equal.
    by apply filter_source_absent.
  - rewrite filter_cons. case_decide as Hyx; [|by apply IH].
    simpl in Hyx. subst y. destruct Hy. apply list_elem_of_fmap. by exists (x, k).
Qed.

(** C8, as amended.  Every output cell is the image of what is left of
    its input cell under one and the same map [f] from old to new
    identifiers.  A point that is left in at least one cell (every end of
    a polyline, in particular) is appended to the new points exactly once
    and its attributes are copied exactly once, to [f x]; the new point is
    the input point as the output array stores it (converted to single
    precision when the output holds floats); a point that is left in none
    is not appended at all. *)
Theorem shared_points_emitted_once self aborts input :
  wf_input self input →
  ∃ q out kepts f,
    RequestData self aborts input = Some (1, q, out) ∧
    length kepts = processed aborts 0 (length (input_lines input)) ∧
    Forall2 (λ line kept, kept `sublist_of` line ∧
                          head kept = head line ∧ last kept = last line)
      (take (length kepts) (input_lines input)) kepts ∧
    pts <$> output_cells out = fmap f <$> kepts ∧
    length (output_points out) = length (outPD out) ∧
    (∀ x, (∃ kept, kept ∈ kepts ∧ x ∈ kept) →
       filter (λ e, e.1 = x) (outPD out) = [(x, f x)] ∧
       0 ≤ f x ∧
       ∃ p, output_points out !! Z.to_nat (f x) = Some p ∧
            ∀ inputPoints, Points input = Some inputPoints →
              stored (output_data_type self inputPoints)
                <$> GetPoint inputPoints x = Some p) ∧
    (∀ x, (¬ ∃ kept, kept ∈ kepts ∧ x ∈ kept) → x ∉ (outPD out).*1).
Proof.
  intros Hwf.
  destruct (RequestData_spec self aborts input Hwf)
    as (q & out & kepts & m & Hrun & _ & Hlen & Hsurv & Hcells & _ & Hdst & Hnd
        & Hpoints & Hmap & Hsrc).
  exists q, out, kepts, (λ x, default 0 (m !! x)).
  assert (Hpts_len : length (output_points out) = length (outPD out)).
  { destruct (input_lines input) as [|l0 rest] eqn:Hlines.
    - simpl in Hlen. destruct kepts; [|done].
      apply Forall2_nil_inv_l in Hcells.
      rewrite (RequestData_no_lines _ _ _ Hlines) in Hrun.
      by injection Hrun as <- <-.
    - destruct (wf_input_points _ _ _ _ Hwf Hlines) as (ip & Hip & _).
      specialize (Hpoints _ Hip). apply Forall2_length in Hpoints.
      by rewrite length_fmap in Hpoints. }
  split_and!; try done.
  - destruct (input_lines input) as [|l0 rest] eqn:Hlines.
    { simpl in Hlen. destruct kepts; [|done]. by rewrite take_nil. }
    destruct (wf_input_points _ _ _ _ Hwf Hlines) as (ip & Hip & _).
    destruct (Hsurv _ Hip) as [Hs _].
    eapply Forall2_impl; [exact Hs|]. simpl.
    by intros line kept (? & ? & ? & _).
  - clear -Hcells. induction Hcells as [|kept c kepts cells [_ Hc] _ IH]; [done|].
    rewrite !fmap_cons, IH. f_equal.
    clear -Hc. induction Hc as [|k x ks xs Hk _ IH]; [done|].
    rewrite fmap_cons, IH. by rewrite Hk.
  - intros x Hx. apply Hsrc in Hx.
    apply list_elem_of_fmap in Hx as ([x' k] & -> & Hin). simpl.
    pose proof Hin as Hm. apply Hmap in Hm. rewrite Hm. simpl.
    destruct (source_of_log out x' k Hdst Hin) as (Hk & Hlook & _).
    split_and!; [by apply filter_source_unique|done|].
    destruct (lookup_lt_is_Some_2 (output_points out) (Z.to_nat k)) as [p Hp].
    { rewrite Hpts_len. by eapply lookup_lt_Some. }
    exists p. split; [done|]. intros ip Hip. specialize (Hpoints _ Hip).
    eapply (Forall2_lookup_lr _ _ _ (Z.to_nat k)) in Hpoints;
      [exact Hpoints| |done].
    by rewrite list_lookup_fmap, Hlook.
  - intros x Hx Hin. by apply Hx, Hsrc.
Qed.

Lemma cell_data_log_lookup fvi cid lines i :
  (i < length lines)%nat →
  cell_data_log fvi cid lines !! i
    = Some (fvi + Z.of_nat (sum_list_with length (take i lines)),
            cid + Z.of_nat i).
Proof.
  revert fvi cid i. induction lines as [|line rest IH]; intros fvi cid i Hi.
  { simpl in Hi. lia. }
  destruct i as [|i]; simpl.
  - do 2 f_equal; lia.
  - rewrite IH by (simpl in Hi; lia). do 2 f_equal; lia.
Qed.

(** What the code does where C1 speaks of the input cell index: the
    cell attributes of the [i]-th output cell are copied, once, from the
    index [firstVertexIndex], the number of points of the input cells
    before the [i]-th. *)
Theorem cell_data_source_is_vertex_offset self aborts input :
  wf_input self input →
  ∃ q out,
    RequestData self aborts input = Some (1, q, out) ∧
    length (outCD out) = length (output_cells out) ∧
    ∀ i c, output_cells out !! i = Some c →
      outCD out !! i
        = Some (Z.of_nat (sum_list_with length (take i (input_lines input))),
                Z.of_nat i).
Proof.
  intros Hwf.
  destruct (RequestData_spec self aborts input Hwf)
    as (q & out & kepts & m & Hrun & _ & Hlen & _ & Hcells & Hcd & _).
  exists q, out. split; [done|].
  pose proof (processed_le aborts 0 (length (input_lines input))) as Hle.
  apply Forall2_length in Hcells.
  assert (Hlog : ∀ fvi cid (lines : list (list Z)),
            length (cell_data_log fvi cid lines) = length lines).
  { intros fvi cid lines. revert fvi cid.
    induction lines as [|l ls IH]; intros; simpl; [done|]. by rewrite IH. }
  split.
  - rewrite Hcd, Hlog, length_take. lia.
  - intros i c Hc. apply lookup_lt_Some in Hc.
    rewrite Hcd, cell_data_log_lookup by (rewrite length_take; lia).
    rewrite take_take, Nat.min_l, !Z.add_0_l by lia. done.
Qed.

End Claims.

(** ** The scenario of the specification *)

Section Scenario.
Context {Queue : PriorityQueue}.

(** C2.  On the single open polyline over (0,0,0), (1,0.01,0), (2,0,0),
    (3,0,0), with a target reduction of 0.9 and the default maximum error,
    the loop removes both interior vertices, whichever the queue hands out
    first: the output is the cell of the two points 0 and 3, in this
    order. *)
Theorem scenario_collapses_to_its_ends (self : Filter) :
  TargetReduction self = 0x1.ccccccccccccdp-1%float →
  MaximumError self = VTK_DOUBLE_MAX →
  pq_ids (PriorityQueue_ self) = [] →
  ∃ q out,
    RequestData (Geometry := EuclideanGeometry) self never_aborts
      (lines_over_scenario [[0; 1; 2; 3]]) = Some (1, q, out) ∧
    cell_source_ids out <$> output_cells out = [[0; 3]] ∧
    output_cells out = [mkCell 2 [0; 1]] ∧
    output_points out = [(0, 0, 0); (3, 0, 0)]%float ∧
    outPD out = [(0, 0); (3, 1)] ∧
    outCD out = [(0, 0)].
Proof.
  intros Htarget Hmax Hq.
  assert (Hwf : wf_input self (lines_over_scenario [[0; 1; 2; 3]])).
  { split; [done|]. repeat constructor; (done || simpl; lia). }
  destruct (RequestData_spec (Geometry := EuclideanGeometry) self never_aborts
              _ Hwf)
    as (q & out & kepts & m & Hrun & _ & Hlen & Hsurv & Hcells & _ & Hdst & _
        & _ & Hmap & _).
  exists q, out. split; [done|].
  destruct (Hsurv scenario_points eq_refl) as [Hsurvs Hfold].
  simpl in Hlen. destruct kepts as [|kept [|]]; try done.
  simpl in Hsurvs. apply Forall2_cons_1 in Hsurvs as [Hkept _].
  destruct Hkept as (Hsub & Hhd & Hlast & Hmin & _ & Hexit).
  (* every error of the scenario is within the ceiling *)
  assert (Hwithin : always_within (Geometry := EuclideanGeometry) self
                      scenario_points [0; 1; 2; 3]).
  { intros a k b Ha Hk Hb. rewrite Hmax.
    rewrite !elem_of_cons, elem_of_nil in Ha, Hk, Hb.
    destruct Ha as [->|[->|[->|[->|[]]]]], Hk as [->|[->|[->|[->|[]]]]],
      Hb as [->|[->|[->|[->|[]]]]];
      (eexists; split; [vm_compute; reflexivity|vm_compute; reflexivity]). }
  specialize (Hexit Hwithin).
  (* hence the loop ran until two vertices were left *)
  assert (kept = [0; 3]) as ->.
  { apply sublist_length in Hsub. simpl in Hsub, Hmin.
    unfold floor_size in Hmin. simpl in Hmin.
    unfold guard_at, below_target in Hexit. rewrite Htarget in Hexit.
    destruct kept as [|a [|b [|c [|d [|]]]]]; simpl in *; try lia.
    - by injection Hhd as ->; injection Hlast as ->.
    - by vm_compute in Hexit.
    - by vm_compute in Hexit. }
  (* the scenario's points are doubles, so that the new points are doubles
     or floats; the two ends are the same in both *)
  assert (Hdt : output_data_type self scenario_points = VTK_FLOAT
                ∨ output_data_type self scenario_points = VTK_DOUBLE).
  { unfold output_data_type. repeat case_bool_decide; auto. }
  assert (Hemit : ∀ dt, dt = VTK_FLOAT ∨ dt = VTK_DOUBLE →
    emit_cells scenario_points 0 [([0; 1; 2; 3], [0; 3])]
      (mkAssembly (mkPoints dt []) [] [] [] ∅)
    = Some (mkAssembly (mkPoints dt [(0, 0, 0); (3, 0, 0)]%float)
              [mkCell 2 [0; 1]] [(0, 0); (3, 1)] [(0, 0)]
              (<[3 := 1]> (<[0 := 0]> ∅)))).
  { intros dt [->| ->]; vm_compute; reflexivity. }
  assert (Heq : Some (mkAssembly
                        (mkPoints (output_data_type self scenario_points)
                           [(0, 0, 0); (3, 0, 0)]%float)
                        [mkCell 2 [0; 1]] [(0, 0); (3, 1)] [(0, 0)]
                        (<[3 := 1]> (<[0 := 0]> ∅)))
                = Some (mkAssembly
                          (mkPoints (output_data_type self scenario_points)
                             (output_points out))
                          (output_cells out) (outPD out) (outCD out) m)).
  { rewrite <- Hfold. symmetry. apply Hemit, Hdt. }
  injection Heq as Hpoints Hlines Hpd Hcd _.
  rewrite <- Hlines in Hcells. apply Forall2_cons_1 in Hcells as [Hcell _].
  destruct (cell_source_ids_kept out m _ _ Hdst Hmap Hcell) as [Hsrc _].
  rewrite <- Hpoints, <- Hlines, <- Hpd, <- Hcd. split_and!; try done.
  by rewrite fmap_cons, Hsrc.
Qed.

End Scenario.

(** ** The theorems at concrete inputs *)

Lemma perpendicular_distance_not_neg x p1 p2 :
  PrimFloat.ltb (perpendicular_distance x p1 p2) 0 = false.
Proof.
  destruct x as [[x0 x1] x2], p1 as [[a0 a1] a2], p2 as [[b0 b1] b2].
  apply sqrt_not_neg.
Qed.

Lemma scenario_collapses_to_its_ends_witness :
  pq_ids (PriorityQueue_ (vtkDecimatePolylineFilter_new (Queue := ListQueue))) = [] ∧
  ∃ q out,
    RequestData (vtkDecimatePolylineFilter_new (Queue := ListQueue)) never_aborts
      (lines_over_scenario [[0; 1; 2; 3]]) = Some (1, q, out) ∧
    cell_source_ids out <$> output_cells out = [[0; 3]] ∧
    output_cells out = [mkCell 2 [0; 1]] ∧
    output_points out = [(0, 0, 0); (3, 0, 0)]%float ∧
    outPD out = [(0, 0); (3, 1)] ∧
    outCD out = [(0, 0)].
Proof.
  split; [reflexivity|].
  apply (scenario_collapses_to_its_ends
           (vtkDecimatePolylineFilter_new (Queue := ListQueue)));
    reflexivity.
Defined.

(** A loop of two vertices is emitted with its two vertices: fewer than
    the three that C3 states for every loop. *)
Lemma loop_of_two_vertices_keeps_two :
  ∃ q out c,
    RequestData (reference_filter ninety_percent VTK_DOUBLE_MAX) never_aborts
      (lines_over_scenario [[1; 1]]) = Some (1, q, out) ∧
    output_cells out = [c] ∧
    head [1; 1] = last [1; 1] ∧
    ¬ (3 ≤ length (pts c))%nat.
Proof.
  eexists _, _, _. split; [vm_compute; reflexivity|].
  split; [reflexivity|]. split; [reflexivity|]. simpl. lia.
Qed.

Lemma output_vertex_count_witness :
  wf_input (reference_filter ninety_percent VTK_DOUBLE_MAX)
    (lines_over_scenario [[0; 1; 2; 3]; [3; 1; 2; 3]; [1; 1]]) ∧
  ∃ q out,
    RequestData (reference_filter ninety_percent VTK_DOUBLE_MAX) never_aborts
      (lines_over_scenario [[0; 1; 2; 3]; [3; 1; 2; 3]; [1; 1]])
      = Some (1, q, out) ∧
    length (output_cells out)
      = processed never_aborts 0
          (length (input_lines
                     (lines_over_scenario
                        [[0; 1; 2; 3]; [3; 1; 2; 3]; [1; 1]]))) ∧
    ((∀ n, never_aborts n = false) →
     length (output_cells out)
       = length (input_lines
                   (lines_over_scenario
                      [[0; 1; 2; 3]; [3; 1; 2; 3]; [1; 1]]))) ∧
    ∀ i line,
      input_lines (lines_over_scenario [[0; 1; 2; 3]; [3; 1; 2; 3]; [1; 1]]) !! i
        = Some line →
      (i < processed never_aborts 0
             (length (input_lines
                        (lines_over_scenario
                           [[0; 1; 2; 3]; [3; 1; 2; 3]; [1; 1]]%Z))))%nat →
      ∃ c,
        output_cells out !! i = Some c ∧
        npts c = Z.of_nat (length (pts c)) ∧
        (length (pts c) ≤ length line)%nat ∧
        (head line ≠ last line → (2 ≤ length (pts c))%nat) ∧
        (head line = last line → (3 ≤ length line)%nat →
         (3 ≤ length (pts c))%nat) ∧
        (head line = last line → (length line < 3)%nat →
         cell_source_ids out c = line).
Proof.
  assert (Hwf : wf_input (reference_filter ninety_percent VTK_DOUBLE_MAX)
            (lines_over_scenario [[0; 1; 2; 3]; [3; 1; 2; 3]; [1; 1]]))
    by (apply wf_lines_over_scenario; reflexivity).
  split; [exact Hwf|].
  exact (output_vertex_count _ never_aborts _ Hwf).
Defined.

Lemma endpoints_preserved_witness :
  wf_input (reference_filter ninety_percent VTK_DOUBLE_MAX)
    (lines_over_scenario [[0; 1; 2; 3]; [3; 2; 1]]) ∧
  ∃ q out,
    RequestData (reference_filter ninety_percent VTK_DOUBLE_MAX) never_aborts
      (lines_over_scenario [[0; 1; 2; 3]; [3; 2; 1]]) = Some (1, q, out) ∧
    length (output_cells out)
      = processed never_aborts 0
          (length (input_lines
                     (lines_over_scenario [[0; 1; 2; 3]; [3; 2; 1]]))) ∧
    ((∀ n, never_aborts n = false) →
     length (output_cells out)
       = length (input_lines
                   (lines_over_scenario [[0; 1; 2; 3]; [3; 2; 1]]))) ∧
    ∀ i line,
      input_lines (lines_over_scenario [[0; 1; 2; 3]; [3; 2; 1]]) !! i
        = Some line →
      (i < processed never_aborts 0
             (length (input_lines
                        (lines_over_scenario
                           [[0; 1; 2; 3]; [3; 2; 1]]%Z))))%nat →
      ∃ c,
        output_cells out !! i = Some c ∧
        head (cell_source_ids out c) = head line ∧
        last (cell_source_ids out c) = last line ∧
        ((2 ≤ length line)%nat → (2 ≤ length (cell_source_ids out c))%nat).
Proof.
  assert (Hwf : wf_input (reference_filter ninety_percent VTK_DOUBLE_MAX)
            (lines_over_scenario [[0; 1; 2; 3]; [3; 2; 1]]))
    by (apply wf_lines_over_scenario; reflexivity).
  split; [exact Hwf|].
  exact (endpoints_preserved _ never_aborts _ Hwf).
Defined.

Lemma zero_target_is_identity_witness :
  wf_input (reference_filter 0 VTK_DOUBLE_MAX)
    (lines_over_scenario [[0; 1; 2; 3]; [3; 2; 1]]) ∧
  TargetReduction (reference_filter 0 VTK_DOUBLE_MAX) = 0%float ∧
  ∃ q out,
    RequestData (reference_filter 0 VTK_DOUBLE_MAX) never_aborts
      (lines_over_scenario [[0; 1; 2; 3]; [3; 2; 1]]) = Some (1, q, out) ∧
    cell_source_ids out <$> output_cells out
      = take (processed never_aborts 0
                (length (input_lines
                           (lines_over_scenario [[0; 1; 2; 3]; [3; 2; 1]]))))
          (input_lines (lines_over_scenario [[0; 1; 2; 3]; [3; 2; 1]])) ∧
    ((∀ n, never_aborts n = false) →
     cell_source_ids out <$> output_cells out
       = input_lines (lines_over_scenario [[0; 1; 2; 3]; [3; 2; 1]])) ∧
    Forall (λ c, npts c = Z.of_nat (length (pts c))) (output_cells out).
Proof.
  assert (Hwf : wf_input (reference_filter 0 VTK_DOUBLE_MAX)
            (lines_over_scenario [[0; 1; 2; 3]; [3; 2; 1]]))
    by (apply wf_lines_over_scenario; reflexivity).
  split; [exact Hwf|]. split; [reflexivity|].
  exact (zero_target_is_identity _ never_aborts _ Hwf eq_refl).
Defined.

(** C1 on two cells of two points each: the second output cell gets the
    cell attributes of input index 2, the number of points of the first
    cell, where the input has cells 0 and 1 only. *)
Lemma second_cell_copies_from_index_two :
  ∃ q out,
    RequestData (reference_filter ninety_percent VTK_DOUBLE_MAX) never_aborts
      (lines_over_scenario [[0; 1]; [1; 2]]) = Some (1, q, out) ∧
    output_cells out = [mkCell 2 [0; 1]; mkCell 2 [1; 2]] ∧
    outCD out = [(0, 0); (2, 1)] ∧
    outCD out !! 1%nat ≠ Some (1, 1).
Proof.
  eexists _, _. split; [vm_compute; reflexivity|]. simpl.
  split; [reflexivity|]. split; [reflexivity|]. discriminate.
Qed.

Lemma cell_data_source_is_vertex_offset_witness :
  wf_input (reference_filter ninety_percent VTK_DOUBLE_MAX)
    (lines_over_scenario [[0; 1]; [1; 2]]) ∧
  ∃ q out,
    RequestData (reference_filter ninety_percent VTK_DOUBLE_MAX) never_aborts
      (lines_over_scenario [[0; 1]; [1; 2]]) = Some (1, q, out) ∧
    length (outCD out) = length (output_cells out) ∧
    ∀ i c, output_cells out !! i = Some c →
      outCD out !! i
        = Some (Z.of_nat
                  (sum_list_with length
                     (take i (input_lines
                                (lines_over_scenario [[0; 1]; [1; 2]])))),
                Z.of_nat i).
Proof.
  assert (Hwf : wf_input (reference_filter ninety_percent VTK_DOUBLE_MAX)
                  (lines_over_scenario [[0; 1]; [1; 2]]))
    by (apply wf_lines_over_scenario; reflexivity).
  exact (conj Hwf (cell_data_source_is_vertex_offset _ never_aborts _ Hwf)).
Defined.



Lemma zero_ceiling_removes_no_positive_error_witness :
  (MaximumError zero_ceiling_filter = 0%float ∧
   wf_line (GetNumberOfPoints scenario_points) [1; 0; 2; 3] ∧
   reduction_state zero_ceiling_filter (lines_over_scenario [[1; 0; 2; 3]])
     [1; 0; 2; 3] [] reordered_seeded ∧
   ComputeError (lines_over_scenario [[1; 0; 2; 3]])
     (polyline_ reordered_seeded) 1 = Some 0x1.47a9e2d196518p-6%float ∧
   PrimFloat.leb 0x1.47a9e2d196518p-6 0 = false ∧
   Pop (queue_ reordered_seeded) = (2, [])) ∧
  (∀ i error,
     ComputeError (lines_over_scenario [[1; 0; 2; 3]])
       (polyline_ reordered_seeded) i = Some error →
     PrimFloat.leb error 0 = false → i ∉ pq_ids (queue_ reordered_seeded)) ∧
  (∀ i q',
     Pop (queue_ reordered_seeded) = (i, q') → 0 ≤ i →
     ∃ error s',
       ComputeError (lines_over_scenario [[1; 0; 2; 3]])
         (polyline_ reordered_seeded) i = Some error ∧
       PrimFloat.leb error 0 = true ∧
       loop_body zero_ceiling_filter (lines_over_scenario [[1; 0; 2; 3]])
         reordered_seeded = Some (Continue s') ∧
       Polyline.Remove (polyline_ reordered_seeded) i = Some (polyline_ s')) ∧
  ((∀ x p1 p2, PrimFloat.ltb (DistanceToLine x p1 p2) 0 = false) →
   (∀ i error,
      ComputeError (lines_over_scenario [[1; 0; 2; 3]])
        (polyline_ reordered_seeded) i = Some error →
      PrimFloat.eqb error 0 = false → i ∉ pq_ids (queue_ reordered_seeded)) ∧
   (∀ i q' error,
      Pop (queue_ reordered_seeded) = (i, q') → 0 ≤ i →
      ComputeError (lines_over_scenario [[1; 0; 2; 3]])
        (polyline_ reordered_seeded) i = Some error →
      PrimFloat.eqb error 0 = true)).
Proof.
  assert (Hline : wf_line (GetNumberOfPoints scenario_points) [1; 0; 2; 3]).
  { split; [discriminate|]. split; [reflexivity|].
    repeat constructor; discriminate. }
  assert (Hstate : reduction_state zero_ceiling_filter
                     (lines_over_scenario [[1; 0; 2; 3]]) [1; 0; 2; 3] []
                     reordered_seeded).
  { exists reordered_polyline, [(0%float, 2)].
    split; [reflexivity|]. split; [reflexivity|]. constructor. }
  split.
  - split; [reflexivity|]. split; [exact Hline|]. split; [exact Hstate|].
    split; [reflexivity|]. split; reflexivity.
  - exact (zero_ceiling_removes_no_positive_error zero_ceiling_filter
             (lines_over_scenario [[1; 0; 2; 3]]) scenario_points [1; 0; 2; 3] []
             reordered_seeded eq_refl eq_refl Hline eq_refl Hstate).
Defined.

(** With the toolkit's primitive the point (0,1,1) between (0,0,0) and
    (0,3,3) has the error -2^-51, the rounded difference of 2 and the
    square of the rounded projection: it is not zero, it is queued under a
    maximum error of zero, and the run removes the point.  C7 states that
    no vertex whose error is not zero is removed. *)
Lemma negative_error_is_removed_at_zero_ceiling :
  MaximumError zero_ceiling_filter = 0%float ∧
  ComputeError (Geometry := VtkGeometry) diagonal_input diagonal_polyline 1
    = Some (-0x1p-51)%float ∧
  PrimFloat.eqb (-0x1p-51) 0 = false ∧
  seed (Geometry := VtkGeometry) zero_ceiling_filter diagonal_input
    diagonal_polyline [] = Some [((-0x1p-51)%float, 1)] ∧
  ∃ q out,
    RequestData (Geometry := VtkGeometry) zero_ceiling_filter never_aborts
      diagonal_input = Some (1, q, out) ∧
    cell_source_ids out <$> output_cells out = [[0; 2]].
Proof.
  split; [reflexivity|]. split; [vm_compute; reflexivity|].
  split; [reflexivity|]. split; [vm_compute; reflexivity|].
  eexists _, _. split; [vm_compute; reflexivity|]. reflexivity.
Defined.

(** A point shared by two polylines and removed from both, point 1 here,
    is not appended at all: C8 states that it is appended exactly once. *)
Lemma shared_interior_point_not_emitted :
  ∃ q out,
    RequestData (reference_filter ninety_percent VTK_DOUBLE_MAX) never_aborts
      (lines_over_scenario [[0; 1; 2]; [3; 1; 0]]) = Some (1, q, out) ∧
    1 ∈ [0; 1; 2] ∧ 1 ∈ [3; 1; 0] ∧
    filter (λ e, e.1 = 1) (outPD out) = [] ∧
    (1 ∉ concat (cell_source_ids out <$> output_cells out)) ∧
    length (output_points out) = 3%nat.
Proof.
  eexists _, _. split; [vm_compute; reflexivity|].
  split; [by apply list_elem_of_In; right; left|].
  split; [by apply list_elem_of_In; right; left|].
  split; [reflexivity|]. split; [|reflexivity].
  change (1 ∉ [0; 2; 3; 0]). rewrite !elem_of_cons, elem_of_nil.
  intros [?|[?|[?|[?|[]]]]]; discriminate.
Qed.

Lemma shared_points_emitted_once_witness :
  wf_input single_precision_filter
    (lines_over_scenario [[0; 1; 2]; [3; 1; 0]]) ∧
  ∃ q out kepts f,
    RequestData single_precision_filter never_aborts
      (lines_over_scenario [[0; 1; 2]; [3; 1; 0]]) = Some (1, q, out) ∧
    length kepts
      = processed never_aborts 0
          (length (input_lines (lines_over_scenario [[0; 1; 2]; [3; 1; 0]]))) ∧
    Forall2 (λ line kept, kept `sublist_of` line ∧
                          head kept = head line ∧ last kept = last line)
      (take (length kepts)
         (input_lines (lines_over_scenario [[0; 1; 2]; [3; 1; 0]]))) kepts ∧
    pts <$> output_cells out = fmap f <$> kepts ∧
    length (output_points out) = length (outPD out) ∧
    (∀ x, (∃ kept, kept ∈ kepts ∧ x ∈ kept) →
       filter (λ e, e.1 = x) (outPD out) = [(x, f x)] ∧
       0 ≤ f x ∧
       ∃ p, output_points out !! Z.to_nat (f x) = Some p ∧
            ∀ inputPoints,
              Points (lines_over_scenario [[0; 1; 2]; [3; 1; 0]])
                = Some inputPoints →
              stored (output_data_type single_precision_filter inputPoints)
                <$> GetPoint inputPoints x = Some p) ∧
    (∀ x, (¬ ∃ kept, kept ∈ kepts ∧ x ∈ kept) → x ∉ (outPD out).*1).
Proof.
  assert (Hwf : wf_input single_precision_filter
            (lines_over_scenario [[0; 1; 2]; [3; 1; 0]]))
    by (apply wf_lines_over_scenario; reflexivity).
  split; [exact Hwf|].
  exact (shared_points_emitted_once _ never_aborts _ Hwf).
Defined.

Lemma queue_exhaustion_is_silent_witness :
  (reduction_state zero_ceiling_filter (lines_over_scenario [[0; 1; 2; 3]])
     [0; 1; 2; 3] (runQueue first_run_state) scenario_unseeded ∧
   loop_guard zero_ceiling_filter (Z.of_nat (length [0; 1; 2; 3]))
     scenario_unseeded = true ∧
   (Pop (queue_ scenario_unseeded)).1 < 0) ∧
  ∃ q out c,
    RequestData zero_ceiling_filter never_aborts
      (lines_over_scenario [[0; 1; 2; 3]]) = Some (1, q, out) ∧
    output_cells out !! 0%nat = Some c ∧
    cell_source_ids out c = live_ids (polyline_ scenario_unseeded) ∧
    npts c = Z.of_nat (length (pts c)).
Proof.
  assert (Hwf : wf_input zero_ceiling_filter (lines_over_scenario [[0; 1; 2; 3]]))
    by (apply wf_lines_over_scenario; reflexivity).
  assert (Hstate : reduction_state zero_ceiling_filter
                     (lines_over_scenario [[0; 1; 2; 3]]) [0; 1; 2; 3]
                     (runQueue first_run_state) scenario_unseeded).
  { exists scenario_polyline, [].
    split; [reflexivity|]. split; [reflexivity|]. constructor. }
  split.
  - split; [exact Hstate|]. split; reflexivity.
  - exact (queue_exhaustion_is_silent zero_ceiling_filter never_aborts
             (lines_over_scenario [[0; 1; 2; 3]]) scenario_points 0
             [0; 1; 2; 3] first_run_state scenario_unseeded Hwf eq_refl
             eq_refl (λ _ _, eq_refl) eq_refl Hstate eq_refl eq_refl).
Defined.

Lemma popped_slot_is_linked_witness :
  (wf_input (reference_filter ninety_percent VTK_DOUBLE_MAX)
     (lines_over_scenario [[0; 1; 2; 3]]) ∧
   reduction_state (reference_filter ninety_percent VTK_DOUBLE_MAX)
     (lines_over_scenario [[0; 1; 2; 3]]) [0; 1; 2; 3] [] scenario_seeded) ∧
  (∀ i, i ∈ pq_ids (queue_ scenario_seeded) →
     ∃ k v, i = Z.of_nat k ∧
            Polyline.Vertices (polyline_ scenario_seeded) !! k = Some v ∧
            Vertex.removable v = true ∧
            is_Some (Vertex.prev v) ∧ is_Some (Vertex.next v) ∧
            k ∈ live_slots (polyline_ scenario_seeded)) ∧
  (∀ i q',
     Pop (queue_ scenario_seeded) = (i, q') → 0 ≤ i →
     ∃ k v p n pv nv s',
       i = Z.of_nat k ∧
       Polyline.Vertices (polyline_ scenario_seeded) !! k = Some v ∧
       Vertex.removable v = true ∧
       Vertex.prev v = Some p ∧ Vertex.next v = Some n ∧
       Polyline.Vertices (polyline_ scenario_seeded) !! p = Some pv ∧
       Polyline.Vertices (polyline_ scenario_seeded) !! n = Some nv ∧
       k ∈ live_slots (polyline_ scenario_seeded) ∧
       p ∈ live_slots (polyline_ scenario_seeded) ∧
       n ∈ live_slots (polyline_ scenario_seeded) ∧
       is_Some (ComputeError (lines_over_scenario [[0; 1; 2; 3]])
                  (polyline_ scenario_seeded) i) ∧
       Polyline.Remove (polyline_ scenario_seeded) i = Some (polyline_ s') ∧
       loop_body (reference_filter ninety_percent VTK_DOUBLE_MAX)
         (lines_over_scenario [[0; 1; 2; 3]]) scenario_seeded
         = Some (Continue s')) ∧
  (∃ q out,
     RequestData (reference_filter ninety_percent VTK_DOUBLE_MAX) never_aborts
       (lines_over_scenario [[0; 1; 2; 3]]) = Some (1, q, out)).
Proof.
  assert (Hwf : wf_input (reference_filter ninety_percent VTK_DOUBLE_MAX)
                  (lines_over_scenario [[0; 1; 2; 3]]))
    by (apply wf_lines_over_scenario; reflexivity).
  assert (Hstate : reduction_state
                     (reference_filter ninety_percent VTK_DOUBLE_MAX)
                     (lines_over_scenario [[0; 1; 2; 3]]) [0; 1; 2; 3] []
                     scenario_seeded).
  { exists scenario_polyline, (queue_ scenario_seeded).
    split; [reflexivity|]. split; [reflexivity|]. constructor. }
  split; [split; [exact Hwf|exact Hstate]|].
  exact (popped_slot_is_linked
           (reference_filter ninety_percent VTK_DOUBLE_MAX) never_aborts
           (lines_over_scenario [[0; 1; 2; 3]]) scenario_points [0; 1; 2; 3] []
           scenario_seeded Hwf eq_refl (list_elem_of_here _ _) eq_refl Hstate).
Defined.

(** ** Further properties of the code *)

Section Further.
Context {Geometry : LineGeometry} {Queue : PriorityQueue}.

(** The last vertex of a chain has no [next], and its [prev], if any, is a
    slot before it. *)
Lemma chain_last vs p l z :
  chain vs p l → last l = Some z →
  ∃ v, vs !! z = Some v ∧ Vertex.next v = None ∧
       ∀ p', Vertex.prev v = Some p' → (p' < z)%nat.
Proof.
  revert p. induction l as [|a rest IH]; intros p Hc Hl; [done|].
  destruct Hc as (v & Hv & Hp & Hn & Hlt & Hrest).
  destruct rest as [|b rest'].
  - injection Hl as <-. exists v. split; [done|]. split; [done|].
    intros p' Hp'. apply Hlt. congruence.
  - by apply (IH (Some a)).
Qed.

(** X1.  The constructor, on a cell of at least one and fewer than [2^32]
    vertices, builds a list that reads back as the cell: following [next]
    from slot 0 lists the identifiers of the ordering, [Size] is their
    number, slot [i] carries index [i], exactly the first and the last slot
    are not removable, and [IsLoop] says whether the first and the last
    identifier are equal. *)
Theorem constructor_lists_the_ordering ordering :
  ordering ≠ [] → Z.of_nat (length ordering) < 2 ^ 32 →
  ∃ polyline,
    Polyline.new ordering = Some polyline ∧
    Polyline.Size polyline = Z.of_nat (length ordering) ∧
    Polyline.IsLoop polyline = bool_decide (head ordering = last ordering) ∧
    live_ids polyline = ordering ∧
    length (Polyline.Vertices polyline) = length ordering ∧
    ∀ i v, Polyline.Vertices polyline !! i = Some v →
      Vertex.index v = Z.of_nat i ∧
      ordering !! i = Some (Vertex.id v) ∧
      Vertex.removable v = bool_decide (0 < i < length ordering - 1)%nat.
Proof.
  intros Hne Hsmall.
  destruct (new_linked ordering Hne Hsmall) as (polyline & Hnew & Hlinked).
  exists polyline. split; [done|].
  destruct (live_ids_linked _ _ _ Hlinked) as [Hids _].
  rewrite fmap_lookup_total_seq in Hids.
  destruct Hlinked as ([Hlen Hst] & _ & _ & _ & Hsize & Hloop).
  rewrite length_seq in Hsize.
  split; [done|]. split; [done|]. split; [done|]. split; [done|]. exact Hst.
Qed.

(** X2.  [Remove] on a vertex that is linked between two others takes this
    one vertex off the list and nothing else: the walk from slot 0 loses
    the slot, [Size] goes down by one, the list stays well linked, and the
    slot itself still points at its two former neighbours (the reduction
    loop reads them after the call). *)
Theorem Remove_unlinks_one_vertex ordering polyline l1 a k b l2 :
  linked ordering polyline (l1 ++ a :: k :: b :: l2) →
  ∃ polyline' v,
    Polyline.Remove polyline (Z.of_nat k) = Some polyline' ∧
    linked ordering polyline' (l1 ++ a :: b :: l2) ∧
    live_slots polyline = l1 ++ a :: k :: b :: l2 ∧
    live_slots polyline' = l1 ++ a :: b :: l2 ∧
    Polyline.Size polyline' = Polyline.Size polyline - 1 ∧
    Polyline.Vertices polyline !! k = Some v ∧
    Polyline.Vertices polyline' !! k = Some v ∧
    Vertex.prev v = Some a ∧ Vertex.next v = Some b.
Proof.
  intros Hlinked.
  destruct (Remove_linked _ _ _ _ _ _ _ Hlinked)
    as (va & vb & Hva & Hvb & Hrem & Hlinked').
  pose proof Hlinked as (_ & Hchain & _).
  destruct (chain_middle _ _ _ _ _ _ _ Hchain)
    as (va' & vk & vb' & _ & Hvk & _ & Hprev & Hnext & Hak & Hkb).
  eexists _, vk. split; [exact Hrem|]. split; [exact Hlinked'|].
  split; [by eapply live_slots_linked|].
  split; [by eapply live_slots_linked|].
  split; [done|]. split; [done|]. split; [|done].
  cbn [Polyline.Vertices].
  rewrite !list_lookup_insert_ne by lia. done.
Qed.

(** X3.  [Remove] dereferences both links of the vertex: on the first or
    the last slot of a well-linked list, and on an index outside the
    array, it has no defined result. *)
Theorem Remove_outside_interior ordering polyline live i :
  linked ordering polyline live →
  ¬ (0 < i < Z.of_nat (length ordering) - 1) →
  Polyline.Remove polyline i = None.
Proof.
  intros ([Hlen Hst] & Hchain & Hhd & Hlast & _) Hi.
  unfold Polyline.Remove.
  destruct (lookup_id (Polyline.Vertices polyline) i) as [v|] eqn:Hv; [|done].
  apply lookup_id_Some in Hv as [H0 Hv].
  pose proof (lookup_lt_Some _ _ _ Hv) as Hlt. rewrite Hlen in Hlt.
  cbn [mbind option_bind].
  destruct (decide (i = 0)) as [->|Hnz].
  - destruct live as [|a rest]; [done|]. injection Hhd as ->.
    destruct Hchain as (v0 & Hv0 & Hp & _).
    change (Z.to_nat 0) with 0%nat in Hv.
    assert (v0 = v) as -> by congruence. by rewrite Hp.
  - destruct (chain_last _ _ _ _ Hchain Hlast) as (vl & Hvl & Hn & Hp).
    assert (Z.to_nat i = (length ordering - 1)%nat) as Hk by lia.
    rewrite Hk in Hv. assert (vl = v) as -> by congruence.
    destruct (Vertex.prev v) as [p|] eqn:Hpv; [|done].
    cbn [mbind option_bind].
    destruct (Polyline.Vertices polyline !! p) as [pv|]; [|done].
    cbn [mbind option_bind].
    specialize (Hp p eq_refl).
    unfold lookup_id. destruct (i <? 0) eqn:Hneg; [done|].
    rewrite Hk, list_lookup_insert_ne by lia.
    rewrite Hvl. cbn [mbind option_bind]. by rewrite Hn.
Qed.

(** X4.  [ComputeError] reads both neighbours of the vertex: it is defined
    on every live vertex strictly between the first and the last slot of a
    well-linked list over valid point identifiers, and has no defined
    result on the first slot, on the last slot, or outside the array. *)
Theorem ComputeError_needs_both_neighbours input inputPoints ordering polyline live :
  Points input = Some inputPoints →
  Forall (λ x, 0 ≤ x < GetNumberOfPoints inputPoints) ordering →
  linked ordering polyline live →
  (∀ k, k ∈ live → (0 < k < length ordering - 1)%nat →
     is_Some (ComputeError input polyline (Z.of_nat k))) ∧
  (∀ i, ¬ (0 < i < Z.of_nat (length ordering) - 1) →
     ComputeError input polyline i = None).
Proof.
  intros Hpts Hrange Hlinked. split.
  - intros k Hk Hmid.
    destruct (interior_split ordering polyline live (Z.of_nat k) Hlinked)
      as (l1 & a & k' & b & l2 & Hkk & Hlive & _).
    { by exists k. }
    apply Nat2Z.inj in Hkk as <-. subst live.
    by eapply ComputeError_interior.
  - intros i Hi.
    destruct Hlinked as ([Hlen Hst] & Hchain & Hhd & Hlast & _).
    unfold ComputeError. rewrite Hpts. cbn [mbind option_bind].
    destruct (lookup_id (Polyline.Vertices polyline) i) as [v|] eqn:Hv; [|done].
    apply lookup_id_Some in Hv as [H0 Hv].
    pose proof (lookup_lt_Some _ _ _ Hv) as Hlt. rewrite Hlen in Hlt.
    cbn [mbind option_bind].
    destruct (decide (i = 0)) as [->|Hnz].
    + destruct live as [|a rest]; [done|]. injection Hhd as ->.
      destruct Hchain as (v0 & Hv0 & Hp & _).
      change (Z.to_nat 0) with 0%nat in Hv.
      assert (v0 = v) as -> by congruence. by rewrite Hp.
    + destruct (chain_last _ _ _ _ Hchain Hlast) as (vl & Hvl & Hn & _).
      assert (Z.to_nat i = (length ordering - 1)%nat) as Hk by lia.
      rewrite Hk in Hv. assert (vl = v) as -> by congruence.
      destruct (Vertex.prev v) as [p|]; [|done]. cbn [mbind option_bind].
      destruct (Polyline.Vertices polyline !! p) as [pv|]; [|done].
      cbn [mbind option_bind].
      destruct (GetPoint inputPoints (Vertex.id pv)); [|done].
      cbn [mbind option_bind].
      destruct (GetPoint inputPoints (Vertex.id v)); [|done].
      cbn [mbind option_bind]. by rewrite Hn.
Qed.

(** X5.  Between two rounds of the reduction of a well-formed cell, the
    queue holds each slot at most once, and the slots it holds are exactly
    the live vertices other than the two ends whose error, computed on the
    present links, is within [MaximumError].  This is so after the seeding
    and after every re-queueing of the neighbours of a removed vertex. *)
Theorem queue_holds_the_candidates self input inputPoints ordering q0 s :
  Points input = Some inputPoints →
  wf_line (GetNumberOfPoints inputPoints) ordering →
  pq_ids q0 = [] →
  reduction_state self input ordering q0 s →
  NoDup (pq_ids (queue_ s)) ∧
  ∀ i, i ∈ pq_ids (queue_ s) ↔
       ∃ (k : nat) error,
         i = Z.of_nat k ∧ k ∈ live_slots (polyline_ s) ∧
         (0 < k < length ordering - 1)%nat ∧
         ComputeError input (polyline_ s) i = Some error ∧
         PrimFloat.leb error (MaximumError self) = true.
Proof.
  intros Hpts (Hne & Hsmall & Hrange) Hq0 Hstate.
  destruct (reduction_state_reducing self input inputPoints ordering Hpts Hrange
              q0 s Hne Hsmall Hq0 Hstate) as (live & Hlinked & Hq & _).
  rewrite (live_slots_linked _ _ _ Hlinked).
  destruct Hq as (Hnodup & Hsound & Hcomplete).
  split; [done|]. intros i. split.
  - intros Hi. destruct (Hsound i Hi) as [(k & -> & Hk & Hmid) Hwithin].
    destruct (Hwithin ltac:(apply not_elem_of_nil)) as (error & He & Hle).
    by exists k, error.
  - intros (k & error & -> & Hk & Hmid & He & Hle).
    apply Hcomplete.
    + by exists k.
    + apply not_elem_of_nil.
    + by exists error.
Qed.

(** The reduction never goes below the floor: every state has at least
    as many live vertices as the smaller of the cell's size and the
    floor. *)
Lemma rounds_floor self input inputPoints ordering live s s' :
  Points input = Some inputPoints →
  Forall (λ x, 0 ≤ x < GetNumberOfPoints inputPoints) ordering →
  Z.of_nat (length ordering) < 2 ^ 32 →
  reducing self input ordering live s →
  (length ordering `min` floor_size ordering ≤ length live)%nat →
  rounds self input (Z.of_nat (length ordering)) s s' →
  ∃ live', reducing self input ordering live' s' ∧ live' `sublist_of` live ∧
           (length ordering `min` floor_size ordering ≤ length live')%nat.
Proof.
  intros Hpts Hrange Hsmall Hinv Hfloor Hrounds.
  induction Hrounds as [|s1 s2 _ (live1 & Hinv1 & Hsub1 & Hfl1) Hguard Hbody].
  { by exists live. }
  pose proof (loop_guard_floor self input ordering _ _ Hinv1 Hguard) as Habove.
  destruct (loop_body_continue self input inputPoints ordering Hpts Hrange
              _ _ _ Hsmall Hinv1 Hbody)
    as (l1 & a & k & b & l2 & q' & _ & -> & _ & _ & Hinv2).
  eexists. split; [done|]. split.
  - etrans; [|done].
    apply sublist_app; [done|]. apply sublist_skip. by apply sublist_cons.
  - rewrite length_app in *. simpl in *. lia.
Qed.

(** X6.  The two counters of the reduction loop follow the list: between
    two rounds of the reduction of a well-formed cell, [currentNumPts] and
    the polyline's [Size] both equal the number of vertices on the walk
    from slot 0; these vertices are a subsequence of the cell; there are
    never fewer of them than the floor allows (two, three in a loop, or
    the whole cell when it is smaller); and a round that removes a vertex
    lowers both counters by exactly one. *)
Theorem counters_follow_the_list self input inputPoints ordering q0 s :
  Points input = Some inputPoints →
  wf_line (GetNumberOfPoints inputPoints) ordering →
  pq_ids q0 = [] →
  reduction_state self input ordering q0 s →
  currentNumPts s = Polyline.Size (polyline_ s) ∧
  Polyline.Size (polyline_ s) = Z.of_nat (length (live_ids (polyline_ s))) ∧
  live_ids (polyline_ s) `sublist_of` ordering ∧
  (length ordering `min` floor_size ordering
   ≤ length (live_ids (polyline_ s)))%nat ∧
  ∀ s', loop_body self input s = Some (Continue s') →
    currentNumPts s' = currentNumPts s - 1 ∧
    Polyline.Size (polyline_ s') = Polyline.Size (polyline_ s) - 1.
Proof.
  intros Hpts (Hne & Hsmall & Hrange) Hq0 (pl & q & Hnew & Hseed & Hrounds).
  destruct (new_linked _ Hne Hsmall) as (pl' & Hnew' & Hlinked0).
  assert (pl' = pl) as -> by congruence.
  destruct (seed_spec self input inputPoints ordering Hpts Hrange
              _ _ Hlinked0 Hq0) as (q' & Hseed' & Hinv0).
  assert (q' = q) as -> by congruence.
  destruct (rounds_floor self input inputPoints ordering _ _ _
              Hpts Hrange Hsmall Hinv0 ltac:(rewrite length_seq; lia) Hrounds)
    as (live & Hinv & Hsub & Hfloor).
  pose proof Hinv as (Hlinked & _ & Hcur).
  destruct (live_ids_linked _ _ _ Hlinked) as [Hids _].
  pose proof Hlinked as (_ & _ & _ & _ & Hsize & _).
  rewrite Hids, length_fmap.
  split; [congruence|]. split; [done|]. split.
  - etrans; [by apply (fmap_sublist (λ k, ordering !!! k)), Hsub|].
    by rewrite fmap_lookup_total_seq.
  - split; [done|]. intros s' Hbody.
    destruct (loop_body_continue self input inputPoints ordering Hpts Hrange
                _ _ _ Hsmall Hinv Hbody)
      as (l1 & a & k & b & l2 & q2 & _ & -> & _ & _ & Hinv2).
    destruct Hinv2 as ((_ & _ & _ & _ & Hsize2 & _) & _ & Hcur2).
    rewrite Hcur2, Hsize2, Hcur, Hsize, !length_app. simpl. lia.
Qed.

(** The outer loop reaches an empty cell when no abort is signalled up to
    it, and the constructor has no defined result there. *)
Lemma process_lines_empty_cell self input inputPoints aborts post :
  ∀ pre call r,
    (∀ j, (j ≤ length pre)%nat → aborts (call + j)%nat = false) →
    process_lines self input inputPoints aborts call (pre ++ [] :: post) r
      = None.
Proof.
  induction pre as [|line pre IH]; intros call r Hgo.
  - simpl. rewrite <- (Nat.add_0_r call), Hgo by (simpl; lia). done.
  - simpl. rewrite <- (Nat.add_0_r call), Hgo by (simpl; lia).
    rewrite Nat.add_0_r.
    destruct (process_polyline self input inputPoints line r) as [r'|];
      [|done].
    cbn [mbind option_bind]. apply IH. intros j Hj.
    replace (S call + j)%nat with (call + S j)%nat by lia.
    apply Hgo. simpl. lia.
Qed.

(** X7.  A line cell without any point is not guarded against: when the
    input has points and the outer loop reaches an empty cell (no abort is
    signalled before it), the constructor of [Polyline] writes outside its
    array of no vertices and [RequestData] has no defined result. *)
Theorem empty_cell_is_undefined self aborts input inputPoints pre post :
  Lines input = Some (pre ++ [] :: post) →
  Points input = Some inputPoints →
  Data inputPoints ≠ [] →
  (∀ call, (call ≤ length pre)%nat → aborts call = false) →
  RequestData self aborts input = None.
Proof.
  intros Hlines Hpts Hdata Hgo. unfold RequestData. rewrite Hlines, Hpts.
  assert ((Z.of_nat (length (pre ++ [] :: post)) <? 1) = false) as ->.
  { apply Z.ltb_ge. rewrite length_app. simpl. lia. }
  assert ((GetNumberOfPoints inputPoints <? 1) = false) as ->.
  { apply Z.ltb_ge. unfold GetNumberOfPoints.
    destruct (Data inputPoints); [done|]. simpl. lia. }
  cbn [orb]. rewrite process_lines_empty_cell; [done|].
  intros j Hj. by apply Hgo.
Qed.

(** X8.  Nothing to decimate: when the input has no cell array or no
    points, or the cell array or the points are empty, [RequestData]
    returns 1 at once; the output is left as it was (no points, no lines
    set, nothing copied) and the queue is not touched, whatever it
    holds. *)
Theorem nothing_to_decimate self aborts input :
  input_lines input = [] ∨ input_point_count input = 0 →
  RequestData self aborts input = Some (1, PriorityQueue_ self, empty_output).
Proof.
  unfold input_lines, input_point_count, RequestData.
  destruct (Lines input) as [inputLines|], (Points input) as [inputPoints|];
    simpl; try done.
  intros [->|Hnone]; [done|].
  rewrite Hnone. by rewrite orb_true_r.
Qed.

(** The number of cells handled when the first abort comes at the [k]-th
    test. *)
Lemma processed_until aborts : ∀ n call k,
  (k < n)%nat →
  (∀ j, (j < k)%nat → aborts (call + j)%nat = false) →
  aborts (call + k)%nat = true →
  processed aborts call n = k.
Proof.
  induction n as [|n IH]; intros call k Hk Hgo Hstop; [lia|].
  simpl. destruct k as [|k].
  - rewrite Nat.add_0_r in Hstop. by rewrite Hstop.
  - rewrite <- (Nat.add_0_r call), Hgo by lia. f_equal.
    apply IH; [lia| |].
    + intros j Hj. replace (S (call + 0) + j)%nat with (call + S j)%nat by lia.
      apply Hgo. lia.
    + by replace (S (call + 0) + k)%nat with (call + S k)%nat by lia.
Qed.

Lemma length_cell_data_log (lines : list (list Z)) :
  ∀ fvi cid, length (cell_data_log fvi cid lines) = length lines.
Proof.
  induction lines as [|l ls IH]; intros; simpl; [done|]. by rewrite IH.
Qed.

(** X9.  Cancellation keeps whole cells.  When the abort test first says
    stop at its [k]-th call, before the last cell, [RequestData] still
    returns 1; the output holds the first [k] cells and [k] copies of cell
    attributes, each cell a subsequence of the input cell at the same
    place, and the queue is left empty. *)
Theorem cancellation_keeps_whole_cells self aborts input k :
  wf_input self input →
  (k < length (input_lines input))%nat →
  (∀ j, (j < k)%nat → aborts j = false) →
  aborts k = true →
  ∃ q out,
    RequestData self aborts input = Some (1, q, out) ∧
    pq_ids q = [] ∧
    length (output_cells out) = k ∧
    length (outCD out) = k ∧
    ∀ i c, output_cells out !! i = Some c →
      ∃ line, input_lines input !! i = Some line ∧
              cell_source_ids out c `sublist_of` line ∧
              npts c = Z.of_nat (length (pts c)).
Proof.
  intros Hwf Hk Hgo Hstop.
  destruct (RequestData_spec self aborts input Hwf)
    as (q & out & kepts & m & Hrun & Hq & Hlen & Hsurv & Hcells & Hcd
        & Hdest & _ & _ & Hm & _).
  rewrite (processed_until aborts _ 0 k Hk Hgo Hstop) in Hlen.
  exists q, out. split; [done|]. split; [done|].
  pose proof (Forall2_length _ _ _ Hcells) as Hlen'.
  split; [lia|]. split.
  - rewrite Hcd, length_cell_data_log, length_take. lia.
  - intros i c Hc.
    destruct (Forall2_lookup_r _ _ _ _ _ Hcells Hc) as (kept & Hkept & Hok).
    destruct (cell_source_ids_kept out m kept c Hdest Hm Hok) as [-> Hn].
    destruct (input_lines input) as [|line0 rest] eqn:Hlines;
      [simpl in Hk; lia|].
    destruct (wf_input_points self input line0 rest Hwf Hlines)
      as (inputPoints & Hpts & _).
    destruct (Hsurv inputPoints Hpts) as [Hall _].
    destruct (Forall2_lookup_r _ _ _ _ _ Hall Hkept) as (line & Hline & Hs).
    apply lookup_take_Some in Hline as [Hline _].
    exists line. split; [done|]. split; [apply Hs|done].
Qed.

(** When there is a cell to handle, the output gets its points and lines
    set, and the data type of the new points is the one chosen from
    [OutputPointsPrecision]. *)
Lemma RequestData_points_set self aborts input inputPoints :
  wf_input self input → input_lines input ≠ [] →
  Points input = Some inputPoints →
  ∃ q out newPts newLines,
    RequestData self aborts input = Some (1, q, out) ∧
    pq_ids q = [] ∧
    outPoints out = Some newPts ∧ outLines out = Some newLines ∧
    DataType newPts = output_data_type self inputPoints.
Proof.
  intros Hwf Hne Hpts.
  destruct (input_lines input) as [|line rest] eqn:Hlines; [done|].
  destruct (wf_input_points self input line rest Hwf Hlines)
    as (pts' & Hpts' & Hn).
  assert (pts' = inputPoints) as -> by congruence.
  rewrite (RequestData_lines self aborts input inputPoints line rest
             Hlines Hpts Hn).
  destruct Hwf as [Hq Hall]. rewrite Hlines in Hall.
  unfold input_point_count in Hall. rewrite Hpts in Hall. simpl in Hall.
  destruct (process_lines_spec self input inputPoints aborts Hpts
              (line :: rest) 0%nat
              (mkRun (mkAssembly
                        (mkPoints (output_data_type self inputPoints) [])
                        [] [] [] ∅)
                 (PriorityQueue_ self) 0)
              Hall (asm_ok_empty _ _) Hq)
    as (r' & kepts & cells & Hrun & _ & _ & _ & _ & Hq' & _ & _ & _ & _
        & Hdt & _).
  rewrite Hrun. cbn [mbind option_bind].
  eexists _, _, _, _. split; [reflexivity|]. split; [done|].
  split; [reflexivity|]. split; [reflexivity|]. exact Hdt.
Qed.

(** X10.  The data type of the output points follows
    [OutputPointsPrecision]: the type of the input points for
    [DEFAULT_PRECISION], float for [SINGLE_PRECISION], double for
    [DOUBLE_PRECISION].  This holds whenever there is a cell to handle,
    also when the run is cancelled before the first one. *)
Theorem output_points_precision self aborts input inputPoints :
  wf_input self input → input_lines input ≠ [] →
  Points input = Some inputPoints →
  ∃ q out newPts newLines,
    RequestData self aborts input = Some (1, q, out) ∧
    outPoints out = Some newPts ∧ outLines out = Some newLines ∧
    (OutputPointsPrecision self = DEFAULT_PRECISION →
     DataType newPts = DataType inputPoints) ∧
    (OutputPointsPrecision self = SINGLE_PRECISION →
     DataType newPts = VTK_FLOAT) ∧
    (OutputPointsPrecision self = DOUBLE_PRECISION →
     DataType newPts = VTK_DOUBLE).
Proof.
  intros Hwf Hne Hpts.
  destruct (RequestData_points_set self aborts input inputPoints Hwf Hne Hpts)
    as (q & out & newPts & newLines & Hrun & _ & Hp & Hl & Hdt).
  exists q, out, newPts, newLines.
  split; [done|]. split; [done|]. split; [done|].
  rewrite Hdt. unfold output_data_type.
  split; [|split]; intros ->; reflexivity.
Qed.

(** X11.  A filter as the constructor leaves it (target reduction 0.90,
    maximum error [VTK_DOUBLE_MAX], default precision, a new queue) is
    ready for any input with well-formed cells: [RequestData] returns 1,
    leaves the queue empty, and the new points have the data type of the
    input points. *)
Theorem fresh_filter_is_ready aborts input :
  Forall (wf_line (input_point_count input)) (input_lines input) →
  ∃ q out,
    RequestData vtkDecimatePolylineFilter_new aborts input = Some (1, q, out) ∧
    pq_ids q = [] ∧
    ∀ inputPoints newPts,
      Points input = Some inputPoints → outPoints out = Some newPts →
      DataType newPts = DataType inputPoints.
Proof.
  intros Hlines.
  assert (Hwf : wf_input vtkDecimatePolylineFilter_new input).
  { split; [apply pq_ids_New|done]. }
  destruct (RequestData_spec _ aborts input Hwf)
    as (q & out & _ & _ & Hrun & Hq & _).
  exists q, out. split; [done|]. split; [done|].
  intros inputPoints newPts Hpts Hnew.
  destruct (decide (input_lines input = [])) as [Hnil|Hne].
  - rewrite (RequestData_no_lines _ aborts input Hnil) in Hrun.
    injection Hrun as _ <-. done.
  - destruct (RequestData_points_set _ aborts input inputPoints Hwf Hne Hpts)
      as (q' & out' & newPts' & _ & Hrun' & _ & Hp & _ & Hdt).
    rewrite Hrun in Hrun'. injection Hrun' as _ <-.
    rewrite Hnew in Hp. injection Hp as <-. exact Hdt.
Qed.

(** X12.  The filter can be run again.  After a call on a well-formed
    input the queue is empty (it is reset after every cell), so that the
    same filter object, with the queue the call left, is well formed for
    a next input whose cells are well formed, and the next call returns 1
    and leaves the queue empty as well. *)
Theorem filter_is_reusable self aborts input aborts' input' :
  wf_input self input →
  Forall (wf_line (input_point_count input')) (input_lines input') →
  ∃ q out q' out',
    RequestData self aborts input = Some (1, q, out) ∧
    pq_ids q = [] ∧
    RequestData
      (mkFilter (TargetReduction self) (MaximumError self)
         (OutputPointsPrecision self) q) aborts' input'
      = Some (1, q', out') ∧
    pq_ids q' = [].
Proof.
  intros Hwf Hlines'.
  destruct (RequestData_spec self aborts input Hwf)
    as (q & out & _ & _ & Hrun & Hq & _).
  assert (Hwf' : wf_input
                   (mkFilter (TargetReduction self) (MaximumError self)
                      (OutputPointsPrecision self) q) input')
    by (split; done).
  destruct (RequestData_spec _ aborts' input' Hwf')
    as (q' & out' & _ & _ & Hrun' & Hq' & _).
  by exists q, out, q', out'.
Qed.

(** X13.  Every output cell is a subsequence of the input cell at the same
    place: decimation takes vertices away, it neither reorders the
    vertices of a cell nor brings in a point the cell did not have. *)
Theorem output_cell_is_subsequence self aborts input :
  wf_input self input →
  ∃ q out,
    RequestData self aborts input = Some (1, q, out) ∧
    (length (output_cells out) ≤ length (input_lines input))%nat ∧
    ∀ i c, output_cells out !! i = Some c →
      ∃ line, input_lines input !! i = Some line ∧
              cell_source_ids out c `sublist_of` line.
Proof.
  intros Hwf.
  destruct (RequestData_cells self aborts input Hwf)
    as (q & out & Hrun & _ & Hlen & Hcells).
  pose proof (processed_le aborts 0 (length (input_lines input))) as Hle.
  exists q, out. split; [done|]. split; [lia|].
  intros i c Hc.
  destruct (lookup_lt_is_Some_2 (input_lines input) i) as [line Hline].
  { apply lookup_lt_Some in Hc. lia. }
  exists line. split; [done|].
  destruct (Hcells i line c Hline Hc) as (_ & _ & inputPoints & _ & Hs).
  apply Hs.
Qed.

Lemma above_floor_floor_size (ordering : list Z) (n : nat) :
  above_floor (bool_decide (head ordering = last ordering)) (Z.of_nat n) = false →
  (n ≤ floor_size ordering)%nat.
Proof.
  unfold above_floor, floor_size.
  destruct (bool_decide (head ordering = last ordering)); simpl.
  - intros H%Z.ltb_ge. lia.
  - rewrite orb_false_r. intros H%Z.ltb_ge. lia.
Qed.

(** X14.  The reduction goes on until the target is met or the floor is
    reached, when the error ceiling never stands in the way.  If every
    error that can arise in a cell (the error of one of its points between
    two others) is within [MaximumError], then the output cell has so few
    vertices that the loop condition fails on their number: the reduction
    reached is not below [TargetReduction], or no more vertices are left
    than the floor (two, three in a loop). *)
Theorem reduction_stops_at_target_or_floor self aborts input inputPoints :
  wf_input self input →
  Points input = Some inputPoints →
  (∀ line, line ∈ input_lines input → always_within self inputPoints line) →
  ∃ q out,
    RequestData self aborts input = Some (1, q, out) ∧
    ∀ i line c,
      input_lines input !! i = Some line →
      output_cells out !! i = Some c →
      below_target self (Z.of_nat (length line)) (Z.of_nat (length (pts c)))
        = false
      ∨ (length (pts c) ≤ floor_size line)%nat.
Proof.
  intros Hwf Hpts Hwithin.
  destruct (RequestData_cells self aborts input Hwf)
    as (q & out & Hrun & _ & _ & Hcells).
  exists q, out. split; [done|]. intros i line c Hline Hc.
  destruct (Hcells i line c Hline Hc)
    as (_ & Hlen & ip & Hip & _ & _ & _ & _ & _ & Hstop).
  assert (ip = inputPoints) as -> by congruence.
  rewrite Hlen in Hstop.
  specialize (Hstop (Hwithin line ltac:(by eapply list_elem_of_lookup_2))).
  unfold guard_at in Hstop. apply andb_false_iff in Hstop as [Hlow|Hfloor].
  - by left.
  - right. by apply above_floor_floor_size.
Qed.

(** X15.  A cell that is not above the floor is emitted whole: every
    cell of one or two vertices, and every loop of three, that the run
    handles has its output cell, at the same place among the cells, with
    the same points in the same order, whatever the target reduction and
    the maximum error. *)
Theorem short_cells_are_kept_whole self aborts input :
  wf_input self input →
  ∃ q out,
    RequestData self aborts input = Some (1, q, out) ∧
    length (output_cells out)
      = processed aborts 0 (length (input_lines input)) ∧
    ∀ i line,
      input_lines input !! i = Some line →
      (i < processed aborts 0 (length (input_lines input)))%nat →
      (length line ≤ floor_size line)%nat →
      ∃ c,
        output_cells out !! i = Some c ∧
        cell_source_ids out c = line ∧ npts c = Z.of_nat (length line).
Proof.
  intros Hwf.
  destruct (RequestData_cells self aborts input Hwf)
    as (q & out & Hrun & _ & Hcount & Hcells).
  exists q, out. split; [done|]. split; [done|].
  intros i line Hline Hi Hshort.
  destruct (lookup_lt_is_Some_2 (output_cells out) i) as [c Hc]; [lia|].
  exists c. split; [done|].
  destruct (Hcells i line c Hline Hc)
    as (Hn & Hlen & ip & Hip & Hsub & _ & _ & Hmin & _).
  assert (Heq : cell_source_ids out c = line).
  { apply sublist_same_length; [done|]. lia. }
  split; [done|]. by rewrite Hn, <- Hlen, Heq.
Qed.

(** [1.0 - x / x] is zero or not a number: it is below no [t] that zero is
    not below. *)
Lemma sub_div_same_not_below (x t : float) :
  PrimFloat.ltb 0 t = false → PrimFloat.ltb (1 - x / x) t = false.
Proof.
  rewrite !FloatAxioms.ltb_spec, FloatAxioms.sub_spec, FloatAxioms.div_spec.
  intros Ht.
  destruct (Prim2SF x) as [s|s| |s m e] eqn:E.
  - by destruct s.
  - by destruct s.
  - done.
  - rewrite SF64div_same.
    by replace (SF64sub (Prim2SF 1) (Prim2SF 1)) with (Prim2SF 0)
      by (vm_compute; reflexivity).
Qed.

(** X16.  A target reduction that is not above zero asks for nothing: when
    [TargetReduction] is zero, negative or not a number, the loop
    condition fails before the first round and every cell handled is
    emitted with its vertices, all of them and in the same order. *)
Theorem no_target_no_removal self aborts input :
  wf_input self input →
  PrimFloat.ltb 0 (TargetReduction self) = false →
  ∃ q out,
    RequestData self aborts input = Some (1, q, out) ∧
    cell_source_ids out <$> output_cells out
      = take (processed aborts 0 (length (input_lines input)))
          (input_lines input).
Proof.
  intros Hwf Hzero.
  destruct (RequestData_cells self aborts input Hwf)
    as (q & out & Hrun & _ & Hlen & Hcells).
  exists q, out. split; [done|].
  pose proof (processed_le aborts 0 (length (input_lines input))) as Hle.
  apply list_eq. intros i. rewrite list_lookup_fmap.
  destruct (decide (i < length (output_cells out))%nat) as [Hi|Hi].
  - destruct (lookup_lt_is_Some_2 _ _ Hi) as [c Hc].
    destruct (lookup_lt_is_Some_2 (input_lines input) i) as [line Hline];
      [lia|].
    rewrite Hc, lookup_take_lt, Hline by lia. simpl. f_equal.
    destruct (Hcells i line c Hline Hc)
      as (_ & _ & _ & _ & _ & _ & _ & _ & Hsame & _).
    apply Hsame. unfold below_target. by apply sub_div_same_not_below.
  - rewrite (lookup_ge_None_2 (output_cells out)) by lia.
    rewrite lookup_take_ge by lia. done.
Qed.

(** A cell in which the error of no vertex between its two neighbours is
    within the ceiling: nothing is queued at the seeding. *)
Lemma seed_blocked self input inputPoints ordering q0 :
  Points input = Some inputPoints →
  wf_line (GetNumberOfPoints inputPoints) ordering →
  pq_ids q0 = [] →
  (∀ j a k b error,
     ordering !! j = Some a → ordering !! S j = Some k →
     ordering !! S (S j) = Some b →
     error_at inputPoints a k b = Some error →
     PrimFloat.leb error (MaximumError self) = false) →
  ∃ polyline q,
    Polyline.new ordering = Some polyline ∧
    linked ordering polyline (seq 0 (length ordering)) ∧
    seed self input polyline q0 = Some q ∧
    pq_ids q = [].
Proof.
  intros Hpts (Hne & Hsmall & Hrange) Hq0 Hblocked.
  destruct (new_linked _ Hne Hsmall) as (pl & Hnew & Hlinked).
  destruct (seed_spec self input inputPoints ordering Hpts Hrange _ _ Hlinked Hq0)
    as (q & Hseed & Hinv).
  exists pl, q. split; [done|]. split; [done|]. split; [done|].
  destruct Hinv as (_ & (_ & Hsound & _) & _). simpl in Hsound.
  destruct (pq_ids q) as [|i ids]; [done|]. exfalso.
  destruct (Hsound i ltac:(left)) as [Hint Hwithin].
  destruct (Hwithin ltac:(apply not_elem_of_nil)) as (error & He & Hle).
  destruct (interior_split _ _ _ _ Hlinked Hint)
    as (l1 & a & k & b & l2 & -> & Hlive & _).
  pose proof Hlinked as ([_ Hst] & Hchain & _). rewrite Hlive in Hchain.
  destruct (chain_middle _ _ _ _ _ _ _ Hchain)
    as (va & vk & vb & Hva & Hvk & Hvb & Hprev & Hnext & _).
  rewrite (ComputeError_error_at input inputPoints pl k vk a b va vb
             Hpts Hvk Hprev Hnext Hva Hvb) in He.
  (* on the list as built, the three slots follow each other *)
  assert (Ha : seq 0 (length ordering) !! length l1 = Some a)
    by (rewrite Hlive; by apply list_lookup_middle).
  assert (Hk : seq 0 (length ordering) !! S (length l1) = Some k).
  { rewrite Hlive, lookup_app_r by lia.
    by replace (S (length l1) - length l1)%nat with 1%nat by lia. }
  assert (Hb : seq 0 (length ordering) !! S (S (length l1)) = Some b).
  { rewrite Hlive, lookup_app_r by lia.
    by replace (S (S (length l1)) - length l1)%nat with 2%nat by lia. }
  apply lookup_seq in Ha as [-> _], Hk as [-> _], Hb as [-> _].
  destruct (Hst _ _ Hva) as (_ & Hia & _).
  destruct (Hst _ _ Hvk) as (_ & Hik & _).
  destruct (Hst _ _ Hvb) as (_ & Hib & _).
  rewrite (Hblocked _ _ _ _ _ Hia Hik Hib He) in Hle. done.
Qed.

(** Such a cell is emitted as it came: the first pop finds the queue
    empty. *)
Lemma process_polyline_blocked self input inputPoints ordering r :
  Points input = Some inputPoints →
  wf_line (GetNumberOfPoints inputPoints) ordering →
  pq_ids (runQueue r) = [] →
  (∀ j a k b error,
     ordering !! j = Some a → ordering !! S j = Some k →
     ordering !! S (S j) = Some b →
     error_at inputPoints a k b = Some error →
     PrimFloat.leb error (MaximumError self) = false) →
  ∃ q, process_polyline self input inputPoints ordering r =
         (a ← emit_cell inputPoints (firstVertexIndex r) ordering (assembly r);
          Some (mkRun a (Reset q)
                  (firstVertexIndex r + Z.of_nat (length ordering)))).
Proof.
  intros Hpts Hwf Hq0 Hblocked.
  destruct (seed_blocked self input inputPoints ordering (runQueue r)
              Hpts Hwf Hq0 Hblocked)
    as (pl & q & Hnew & Hlinked & Hseed & Hempty).
  destruct Hwf as (Hne & Hsmall & Hrange).
  assert (Hred : ∃ q',
            reduce (length ordering) self input (Z.of_nat (length ordering))
              (mkLoop pl q (Z.of_nat (length ordering)))
            = Some (mkLoop pl q' (Z.of_nat (length ordering)))).
  { destruct (length ordering) as [|n] eqn:Hlen.
    { by destruct ordering. }
    cbn [reduce]. destruct (loop_guard _ _ _); [|by exists q].
    destruct (Pop q) as [i q'] eqn:Hpop.
    destruct (pq_Pop_empty q Hempty) as [Hi _]. rewrite Hpop in Hi.
    simpl in Hi. subst i.
    rewrite (loop_body_break self input
               (mkLoop pl q (Z.of_nat (S n))) (-1) q' Hpop) by lia.
    by exists q'. }
  destruct Hred as (q' & Hred).
  exists q'.
  rewrite (process_polyline_reduce self input inputPoints ordering r pl q
             (mkLoop pl q' (Z.of_nat (length ordering)))
             (seq 0 (length ordering)) Hnew Hseed Hred Hlinked)
    by (simpl; by rewrite length_seq).
  cbn [polyline_ queue_].
  destruct (live_ids_linked _ _ _ Hlinked) as [-> _].
  by rewrite fmap_lookup_total_seq.
Qed.

(** The outer loop and the whole call, for any property [P] that the
    handling of one cell establishes between the cell and what is left of
    it. *)
Lemma process_lines_with (P : list Z → list Z → Prop)
    self input inputPoints aborts :
  Points input = Some inputPoints →
  ∀ lines call r,
    Forall (wf_line (GetNumberOfPoints inputPoints)) lines →
    (∀ line r, line ∈ lines → pq_ids (runQueue r) = [] →
       ∃ kept q,
         P line kept ∧ kept `sublist_of` line ∧
         process_polyline self input inputPoints line r =
           (a ← emit_cell inputPoints (firstVertexIndex r) kept (assembly r);
            Some (mkRun a (Reset q)
                    (firstVertexIndex r + Z.of_nat (length line))))) →
    asm_ok inputPoints (assembly r) →
    pq_ids (runQueue r) = [] →
    ∃ r' kepts cells,
      process_lines self input inputPoints aborts call lines r = Some r' ∧
      asm_ok inputPoints (assembly r') ∧
      pointIdMap (assembly r) ⊆ pointIdMap (assembly r') ∧
      newLines (assembly r') = newLines (assembly r) ++ cells ∧
      Forall2 (cell_ok (pointIdMap (assembly r'))) kepts cells ∧
      Forall2 P (take (processed aborts call (length lines)) lines) kepts.
Proof.
  intros Hpts lines.
  induction lines as [|line rest IH]; intros call r Hwf Hcell Hok Hq.
  { exists r, [], []. simpl. rewrite app_nil_r.
    split_and!; try done; constructor. }
  apply Forall_cons in Hwf as [(_ & _ & Hrange) Hwf].
  simpl. destruct (aborts call) eqn:Habort.
  { exists r, [], []. simpl. rewrite app_nil_r.
    split_and!; try done; constructor. }
  destruct (Hcell line r ltac:(left) Hq) as (kept & q & HP & Hsub & ->).
  assert (Hkept : Forall (λ x, is_Some (GetPoint inputPoints x)) kept).
  { apply Forall_forall. intros x Hx.
    pose proof (elem_of_sublist _ _ _ Hx Hsub) as Hin.
    rewrite Forall_forall in Hrange. specialize (Hrange _ Hin).
    unfold GetPoint, GetNumberOfPoints, lookup_id in *.
    destruct (Z.ltb_spec x 0); [lia|]. apply lookup_lt_is_Some_2. lia. }
  destruct (emit_cell_spec inputPoints (firstVertexIndex r) kept (assembly r)
              Hok Hkept)
    as (a1 & c1 & Hemit1 & Hok1 & Hsub1 & Hc1 & Hlines1 & _).
  rewrite Hemit1. simpl.
  destruct (IH (S call)
              (mkRun a1 (Reset q)
                 (firstVertexIndex r + Z.of_nat (length line))) Hwf)
    as (r' & kepts & cells & Hrun & Hok' & Hsub' & Hlines' & Hcells & HPs).
  { intros l r0 Hl. apply Hcell. by right. }
  { done. }
  { apply pq_ids_Reset. }
  simpl in *.
  exists r', (kept :: kepts), (c1 :: cells).
  split; [done|]. split; [done|]. split; [by etrans|]. split.
  - by rewrite Hlines', Hlines1, <- app_assoc.
  - split; [|by constructor].
    constructor; [|done]. by eapply cell_ok_weaken.
Qed.

Lemma RequestData_with (P : list Z → list Z → Prop)
    self aborts input inputPoints :
  wf_input self input →
  Points input = Some inputPoints →
  (∀ line r, line ∈ input_lines input → pq_ids (runQueue r) = [] →
     ∃ kept q,
       P line kept ∧ kept `sublist_of` line ∧
       process_polyline self input inputPoints line r =
         (a ← emit_cell inputPoints (firstVertexIndex r) kept (assembly r);
          Some (mkRun a (Reset q)
                  (firstVertexIndex r + Z.of_nat (length line))))) →
  ∃ q out,
    RequestData self aborts input = Some (1, q, out) ∧
    Forall2 P
      (take (processed aborts 0 (length (input_lines input)))
         (input_lines input))
      (cell_source_ids out <$> output_cells out).
Proof.
  intros Hwf Hpts Hcell.
  destruct (input_lines input) as [|line rest] eqn:Hlines.
  { rewrite (RequestData_no_lines self aborts input Hlines).
    eexists _, _. split; [done|]. constructor. }
  destruct (wf_input_points self input line rest Hwf Hlines)
    as (pts' & Hpts' & Hn).
  assert (pts' = inputPoints) as -> by congruence.
  rewrite (RequestData_lines self aborts input inputPoints line rest
             Hlines Hpts Hn).
  destruct Hwf as [Hq Hall]. rewrite Hlines in Hall.
  unfold input_point_count in Hall. rewrite Hpts in Hall. simpl in Hall.
  destruct (process_lines_with P self input inputPoints aborts Hpts
              (line :: rest) 0%nat
              (mkRun (mkAssembly
                        (mkPoints (output_data_type self inputPoints) [])
                        [] [] [] ∅)
                 (PriorityQueue_ self) 0)
              Hall Hcell (asm_ok_empty _ _) Hq)
    as (r' & kepts & cells & Hrun & Hok & _ & Hcells' & Hcells & HPs).
  rewrite Hrun. cbn [mbind option_bind].
  eexists _, _. split; [reflexivity|].
  cbn [assembly newLines app] in Hcells'.
  set (out := mkOutput _ _ _ _).
  destruct Hok as (Hdest & _ & _ & Hmap).
  assert (Hsrc : ∀ kept c, cell_ok (pointIdMap (assembly r')) kept c →
                           cell_source_ids out c = kept).
  { intros kept c Hc.
    by apply (cell_source_ids_kept out (pointIdMap (assembly r')) kept c). }
  replace (output_cells out) with cells
    by (subst out; unfold output_cells; simpl; by rewrite Hcells').
  replace (cell_source_ids out <$> cells) with kepts; [done|].
  clear -Hcells Hsrc.
  induction Hcells as [|kept c kepts cs Hc _ IH]; [done|].
  rewrite fmap_cons, <- IH. f_equal. symmetry. by apply Hsrc.
Qed.

(** X17.  A ceiling below every error switches the decimation off.  If,
    in every cell of the input, the error of each vertex between its two
    neighbours in the cell is not within [MaximumError] (a ceiling smaller
    than all of them, or one that is not a number), then the seeding of
    every cell leaves the queue empty, the first pop returns the sentinel
    for an empty queue, and every cell handled is emitted with its
    vertices, all of them and in the same order, whatever the target
    reduction. *)
Theorem ceiling_below_every_error_keeps_cells self aborts input inputPoints :
  wf_input self input →
  Points input = Some inputPoints →
  (∀ line j a k b error,
     line ∈ input_lines input →
     line !! j = Some a → line !! S j = Some k → line !! S (S j) = Some b →
     error_at inputPoints a k b = Some error →
     PrimFloat.leb error (MaximumError self) = false) →
  (∀ line q0, line ∈ input_lines input → pq_ids q0 = [] →
     ∃ polyline q,
       Polyline.new line = Some polyline ∧
       seed self input polyline q0 = Some q ∧
       pq_ids q = [] ∧ (Pop q).1 = -1) ∧
  ∃ q out,
    RequestData self aborts input = Some (1, q, out) ∧
    cell_source_ids out <$> output_cells out
      = take (processed aborts 0 (length (input_lines input)))
          (input_lines input).
Proof.
  intros Hwf Hpts Hblocked.
  assert (Hlines : ∀ line, line ∈ input_lines input →
            wf_line (GetNumberOfPoints inputPoints) line).
  { destruct Hwf as [_ Hall]. unfold input_point_count in Hall.
    rewrite Hpts in Hall. simpl in Hall. by rewrite Forall_forall in Hall. }
  split.
  { intros line q0 Hline Hq0.
    destruct (seed_blocked self input inputPoints line q0 Hpts
                (Hlines line Hline) Hq0)
      as (pl & q & Hnew & _ & Hseed & Hempty).
    { intros j a k b error. by apply Hblocked. }
    exists pl, q. split; [done|]. split; [done|]. split; [done|].
    by destruct (pq_Pop_empty q Hempty). }
  destruct (RequestData_with (λ line kept, kept = line)
              self aborts input inputPoints Hwf Hpts)
    as (q & out & Hrun & Hsame).
  { intros line r Hline Hq.
    destruct Hwf as [_ Hall]. unfold input_point_count in Hall.
    rewrite Hpts in Hall. simpl in Hall.
    rewrite Forall_forall in Hall.
    destruct (process_polyline_blocked self input inputPoints line r
                Hpts (Hall line Hline) Hq) as (q & Hrun).
    { intros j a k b error. by apply Hblocked. }
    by exists line, q. }
  exists q, out. split; [done|].
  revert Hsame. generalize (cell_source_ids out <$> output_cells out).
  generalize (take (processed aborts 0 (length (input_lines input)))
                (input_lines input)).
  intros lines kepts Hsame.
  induction Hsame as [|line kept lines kepts -> _ IH]; [done|].
  by rewrite IH.
Qed.

Lemma numbered_from_app ks k : ∀ next,
  numbered_from next (ks ++ [k]) =
    (m ← numbered_from next ks;
     if bool_decide (k = m) then Some (m + 1)
     else if bool_decide (0 ≤ k < m) then Some m else None).
Proof.
  induction ks as [|k' ks IH]; intros next; simpl.
  - by repeat case_bool_decide.
  - by repeat case_bool_decide.
Qed.

(** The identifiers of all cells, in the order they were inserted. *)
Lemma concat_pts_snoc (cells : list Cell) c k :
  concat (pts <$> (cells ++ [mkCell (npts c) (pts c ++ [k])]))
  = concat (pts <$> (cells ++ [c])) ++ [k].
Proof.
  rewrite !fmap_app, !concat_app. simpl. by rewrite !app_nil_r, app_assoc.
Qed.

(** One round of the emission loop keeps the numbering in order: the
    identifier it appends to the cell is the next unused one when the
    point is new, and one in use when the point was met before. *)
Lemma emit_point_numbered inputPoints x a a' cells c :
  asm_ok inputPoints a → newLines a = cells ++ [c] →
  numbered_from 0 (concat (pts <$> newLines a))
    = Some (Z.of_nat (length (asmPD a))) →
  emit_point inputPoints x a = Some a' →
  numbered_from 0 (concat (pts <$> newLines a'))
    = Some (Z.of_nat (length (asmPD a'))).
Proof.
  intros (Hdest & _ & Hpoints & Hmap) Hlines Hnum. unfold emit_point.
  rewrite Hlines in Hnum. rewrite Hlines.
  destruct (pointIdMap a !! x) as [k|] eqn:Hk.
  - rewrite InsertCellPoint_last. cbn [mbind option_bind].
    intros [= <-]. cbn [newLines asmPD].
    rewrite concat_pts_snoc, numbered_from_app, Hnum. cbn [mbind option_bind].
    apply Hmap in Hk.
    assert (Hin : k ∈ (asmPD a).*2).
    { apply list_elem_of_fmap. by exists (x, k). }
    rewrite Hdest in Hin. apply elem_of_seqZ in Hin.
    rewrite bool_decide_eq_false_2 by lia.
    by rewrite bool_decide_eq_true_2 by lia.
  - destruct (GetPoint inputPoints x) as [p|]; [|done].
    cbn [mbind option_bind]. unfold InsertNextPoint.
    rewrite InsertCellPoint_last. cbn [mbind option_bind].
    intros [= <-]. cbn [newLines asmPD]. unfold CopyData.
    apply Forall2_length in Hpoints. rewrite length_fmap in Hpoints.
    rewrite concat_pts_snoc, numbered_from_app, Hnum. cbn [mbind option_bind].
    rewrite <- Hpoints, bool_decide_eq_true_2 by done.
    rewrite length_app. simpl. f_equal. lia.
Qed.

Lemma emit_ids_numbered inputPoints kept : ∀ a a' cells c,
  asm_ok inputPoints a → newLines a = cells ++ [c] →
  Forall (λ x, is_Some (GetPoint inputPoints x)) kept →
  numbered_from 0 (concat (pts <$> newLines a))
    = Some (Z.of_nat (length (asmPD a))) →
  emit_ids inputPoints kept a = Some a' →
  numbered_from 0 (concat (pts <$> newLines a'))
    = Some (Z.of_nat (length (asmPD a'))).
Proof.
  induction kept as [|x rest IH]; intros a a' cells c Hok Hlines Hkept Hnum.
  { simpl. by intros [= <-]. }
  apply Forall_cons in Hkept as [Hx Hrest]. simpl.
  destruct (emit_point_spec inputPoints x a cells c Hok Hlines Hx)
    as (a1 & k & He & Hok1 & _ & _ & Hlines1 & _).
  rewrite He. cbn [mbind option_bind].
  apply (IH a1 a' cells _ Hok1 Hlines1 Hrest).
  exact (emit_point_numbered inputPoints x a a1 cells c Hok Hlines Hnum He).
Qed.

Lemma emit_cell_numbered inputPoints firstVertexIndex kept a a' :
  asm_ok inputPoints a →
  Forall (λ x, is_Some (GetPoint inputPoints x)) kept →
  numbered_from 0 (concat (pts <$> newLines a))
    = Some (Z.of_nat (length (asmPD a))) →
  emit_cell inputPoints firstVertexIndex kept a = Some a' →
  numbered_from 0 (concat (pts <$> newLines a'))
    = Some (Z.of_nat (length (asmPD a'))).
Proof.
  intros Hok Hkept Hnum. unfold emit_cell, InsertNextCell.
  apply (emit_ids_numbered inputPoints kept _ a' (newLines a)
           (mkCell (Z.of_nat (length kept)) [])); [exact Hok|done|done|].
  cbn [newLines asmPD]. rewrite fmap_app, concat_app. simpl.
  by rewrite !app_nil_r.
Qed.

Lemma emit_cells_numbered inputPoints (cells : list (list Z * list Z)) :
  ∀ firstVertexIndex a a',
    asm_ok inputPoints a →
    Forall (λ lk, Forall (λ x, is_Some (GetPoint inputPoints x)) lk.2) cells →
    numbered_from 0 (concat (pts <$> newLines a))
      = Some (Z.of_nat (length (asmPD a))) →
    emit_cells inputPoints firstVertexIndex cells a = Some a' →
    numbered_from 0 (concat (pts <$> newLines a'))
      = Some (Z.of_nat (length (asmPD a'))).
Proof.
  induction cells as [|[line kept] rest IH]; intros fvi a a' Hok Hall Hnum.
  { simpl. by intros [= <-]. }
  apply Forall_cons in Hall as [Hkept Hrest]. simpl in Hkept. simpl.
  destruct (emit_cell_spec inputPoints fvi kept a Hok Hkept)
    as (a1 & c1 & He & Hok1 & _).
  rewrite He. cbn [mbind option_bind].
  apply IH; [done|done|].
  exact (emit_cell_numbered inputPoints fvi kept a a1 Hok Hkept Hnum He).
Qed.

(** X18.  New point identifiers are handed out in order of first use.
    Reading the point lists of the output cells one after the other, each
    identifier is either the smallest number not used so far or a number
    used before; the numbers used at the end are exactly the indices of
    the output points.  So every identifier in a cell is the index of an
    output point, every output point is used by a cell, and the [k]-th
    output point is the [k]-th distinct point the emission met. *)
Theorem new_points_are_numbered_in_order self aborts input :
  wf_input self input →
  ∃ q out,
    RequestData self aborts input = Some (1, q, out) ∧
    numbered_from 0 (concat (pts <$> output_cells out))
      = Some (Z.of_nat (length (output_points out))).
Proof.
  intros Hwf.
  destruct (RequestData_spec self aborts input Hwf)
    as (q & out & kepts & m & Hrun & _ & Hlen & Hsurv & Hcells & _ & _ & _
        & Hpoints & _).
  exists q, out. split; [done|].
  destruct (input_lines input) as [|line0 rest0] eqn:Hlines.
  { rewrite (RequestData_no_lines self aborts input Hlines) in Hrun.
    by injection Hrun as _ <-. }
  destruct (wf_input_points self input line0 rest0 Hwf Hlines)
    as (inputPoints & Hpts & _).
  destruct (Hsurv inputPoints Hpts) as [Hall Hemit].
  specialize (Hpoints inputPoints Hpts).
  apply Forall2_length in Hpoints. rewrite length_fmap in Hpoints.
  rewrite <- Hpoints.
  apply (emit_cells_numbered inputPoints _ 0 _ _ (asm_ok_empty _ _))
    in Hemit; [done| |done].
  destruct Hwf as [_ Hwf]. rewrite Hlines in Hwf.
  unfold input_point_count in Hwf. rewrite Hpts in Hwf. simpl in Hwf.
  apply (Forall_take _ (length kepts)) in Hwf.
  revert Hall Hwf. generalize (take (length kepts) (line0 :: rest0)).
  intros lines Hall Hwf. clear -Hall Hwf.
  induction Hall as [|line kept lines kepts' Hs _ IH]; [constructor|].
  apply Forall_cons in Hwf as [(_ & _ & Hrange) Hwf].
  simpl. constructor; [|by apply IH]. simpl.
  destruct Hs as (Hsub & _).
  apply Forall_forall. intros x Hx.
  pose proof (elem_of_sublist _ _ _ Hx Hsub) as Hin.
  rewrite Forall_forall in Hrange. specialize (Hrange _ Hin).
  unfold GetPoint, GetNumberOfPoints, lookup_id in *.
  destruct (Z.ltb_spec x 0); [lia|]. apply lookup_lt_is_Some_2. lia.
Qed.

(** X19.  Removing a vertex changes the error of its two former
    neighbours only: after [Remove] on a vertex linked between two others,
    [ComputeError] gives for every other index what it gave before.  This
    is why the reduction loop recomputes the error of [prev] and [next]
    and of no other vertex. *)
Theorem Remove_changes_neighbours_only input ordering polyline l1 a k b l2 :
  linked ordering polyline (l1 ++ a :: k :: b :: l2) →
  ∃ polyline',
    Polyline.Remove polyline (Z.of_nat k) = Some polyline' ∧
    ∀ j, j ≠ Z.of_nat a → j ≠ Z.of_nat b →
      ComputeError input polyline' j = ComputeError input polyline j.
Proof.
  intros Hlinked.
  destruct (Remove_linked _ _ _ _ _ _ _ Hlinked)
    as (va & vb & Hva & Hvb & Hrem & _).
  eexists. split; [exact Hrem|]. intros j Hja Hjb.
  destruct polyline as [size vs loop]. cbn [Polyline.Vertices] in *.
  by apply ComputeError_frame.
Qed.

(** What is left of a cell, when a vertex was removed, was reached by a
    round that the loop condition let in: with one vertex more, the
    condition of the [while] still held. *)
Lemma process_polyline_last_round self input inputPoints ordering r :
  Points input = Some inputPoints →
  wf_line (GetNumberOfPoints inputPoints) ordering →
  pq_ids (runQueue r) = [] →
  ∃ kept q,
    ((length kept < length ordering)%nat →
     guard_at self ordering (Z.of_nat (length kept) + 1) = true) ∧
    kept `sublist_of` ordering ∧
    process_polyline self input inputPoints ordering r =
      (a ← emit_cell inputPoints (firstVertexIndex r) kept (assembly r);
       Some (mkRun a (Reset q)
               (firstVertexIndex r + Z.of_nat (length ordering)))).
Proof.
  intros Hpts (Hne & Hsmall & Hrange) Hq0.
  destruct (new_linked _ Hne Hsmall) as (pl & Hnew & Hlinked0).
  destruct (seed_spec self input inputPoints ordering Hpts Hrange _ _
              Hlinked0 Hq0) as (q & Hseed & Hinv0).
  destruct (reduce_spec self input inputPoints ordering Hpts Hrange
              (length ordering) _ _ Hsmall Hinv0)
    as (live & s' & s1 & Hred & Hrounds & Hpoly & Hlinked & Hcur & Hsub & _).
  { by rewrite length_seq. }
  exists (live_ids (polyline_ s')), (queue_ s').
  destruct (live_ids_linked _ _ _ Hlinked) as [Hids _].
  split; [|split].
  - rewrite Hids, length_fmap. intros Hlt.
    rewrite Hpoly in Hlinked.
    inversion Hrounds as [Heq|sp s2 Hrounds' Hguard Hbody Heq].
    + subst s1. cbn [polyline_] in Hlinked.
      pose proof (live_slots_linked _ _ _ Hlinked) as Hl.
      rewrite (live_slots_linked _ _ _ Hlinked0) in Hl. subst live.
      rewrite length_seq in Hlt. lia.
    + subst s2.
      destruct (rounds_reducing self input inputPoints ordering Hpts Hrange
                  _ _ _ Hsmall Hinv0 Hrounds') as (livep & Hinvp & _).
      rewrite (loop_guard_guard_at self input ordering _ _ Hinvp) in Hguard.
      destruct (loop_body_continue self input inputPoints ordering Hpts Hrange
                  _ _ _ Hsmall Hinvp Hbody)
        as (l1 & a & k & b & l2 & q' & _ & -> & _ & _ & (Hlinked1 & _)).
      pose proof (live_slots_linked _ _ _ Hlinked) as Hl.
      rewrite (live_slots_linked _ _ _ Hlinked1) in Hl. subst live.
      rewrite <- Hguard. f_equal. rewrite !length_app. simpl. lia.
  - rewrite Hids.
    etrans; [by apply (fmap_sublist (λ k, ordering !!! k)), Hsub|].
    by rewrite fmap_lookup_total_seq.
  - by eapply process_polyline_reduce.
Qed.

(** X20.  No vertex is removed beyond the target.  When an output cell has
    fewer vertices than the input cell, the last removal was made while
    the loop condition held: with one vertex more than the cell has now,
    the reduction reached was still below [TargetReduction], and more
    vertices were left than the floor (two, three in a loop). *)
Theorem no_vertex_removed_beyond_target self aborts input :
  wf_input self input →
  ∃ q out,
    RequestData self aborts input = Some (1, q, out) ∧
    ∀ i line c,
      input_lines input !! i = Some line →
      output_cells out !! i = Some c →
      (length (pts c) < length line)%nat →
      below_target self (Z.of_nat (length line))
        (Z.of_nat (length (pts c)) + 1) = true ∧
      (floor_size line ≤ length (pts c))%nat.
Proof.
  intros Hwf.
  destruct (input_lines input) as [|line0 rest0] eqn:Hlines.
  { rewrite (RequestData_no_lines self aborts input Hlines).
    eexists _, _. split; [done|]. intros i line c Hline.
    by rewrite lookup_nil in Hline. }
  destruct (wf_input_points self input line0 rest0 Hwf Hlines)
    as (inputPoints & Hpts & _).
  destruct (RequestData_with
              (λ line kept, (length kept < length line)%nat →
                 guard_at self line (Z.of_nat (length kept) + 1) = true)
              self aborts input inputPoints Hwf Hpts)
    as (q & out & Hrun & Hlast).
  { intros line r Hline Hq.
    destruct Hwf as [_ Hall]. unfold input_point_count in Hall.
    rewrite Hpts in Hall. simpl in Hall.
    rewrite Forall_forall in Hall.
    by apply process_polyline_last_round; [|apply Hall|]. }
  rewrite Hlines in Hlast.
  exists q, out. split; [done|]. intros i line c Hline Hc Hlt.
  assert (Hi : take (processed aborts 0 (length (line0 :: rest0)))
                 (line0 :: rest0) !! i = Some line).
  { apply lookup_take_Some. split; [done|].
    apply Forall2_length in Hlast.
    rewrite length_fmap in Hlast. rewrite length_take in Hlast.
    apply lookup_lt_Some in Hc. lia. }
  eapply Forall2_lookup_lr in Hlast;
    [|exact Hi|by rewrite list_lookup_fmap, Hc].
  unfold cell_source_ids in Hlast. rewrite length_fmap in Hlast.
  specialize (Hlast Hlt). unfold guard_at in Hlast.
  apply andb_true_iff in Hlast as [Hbelow Habove].
  split; [done|].
  unfold above_floor, floor_size in *.
  destruct (bool_decide (head line = last line)); simpl in Habove.
  - apply Z.ltb_lt in Habove. lia.
  - rewrite orb_false_r in Habove. apply Z.ltb_lt in Habove. lia.
Qed.

End Further.

(** ** The further properties at concrete inputs *)

Lemma scenario_wf_line : wf_line (GetNumberOfPoints scenario_points) [0; 1; 2; 3].
Proof.
  split; [done|]. split; [done|].
  repeat constructor; (done || by vm_compute).
Qed.

Lemma scenario_polyline_linked :
  linked [0; 1; 2; 3] scenario_polyline [0; 1; 2; 3]%nat.
Proof.
  destruct (new_linked [0; 1; 2; 3]) as (polyline & Hnew & Hlinked);
    [done|done|].
  by injection Hnew as <-.
Qed.

Lemma scenario_seeded_state :
  reduction_state (reference_filter ninety_percent VTK_DOUBLE_MAX)
    (lines_over_scenario [[0; 1; 2; 3]]) [0; 1; 2; 3] [] scenario_seeded.
Proof.
  exists scenario_polyline, (queue_ scenario_seeded).
  split; [reflexivity|]. split; [reflexivity|]. constructor.
Qed.

Lemma two_cells_wf (self : Filter (Queue := ListQueue)) :
  PriorityQueue_ self = [] → wf_input self two_cells.
Proof. intros Hq. by apply wf_lines_over_scenario. Qed.

Lemma constructor_lists_the_ordering_witness :
  ∃ polyline,
    Polyline.new [0; 1; 2; 3] = Some polyline ∧
    Polyline.Size polyline = Z.of_nat (length [0; 1; 2; 3]) ∧
    Polyline.IsLoop polyline
      = bool_decide (head [0; 1; 2; 3] = last [0; 1; 2; 3]) ∧
    live_ids polyline = [0; 1; 2; 3] ∧
    length (Polyline.Vertices polyline) = length [0; 1; 2; 3] ∧
    ∀ i v, Polyline.Vertices polyline !! i = Some v →
      Vertex.index v = Z.of_nat i ∧
      [0; 1; 2; 3] !! i = Some (Vertex.id v) ∧
      Vertex.removable v
        = bool_decide (0 < i < length [0; 1; 2; 3]%Z - 1)%nat.
Proof.
  apply (constructor_lists_the_ordering [0; 1; 2; 3]); [done|reflexivity].
Defined.

Lemma Remove_unlinks_one_vertex_witness :
  ∃ polyline' v,
    Polyline.Remove scenario_polyline 1 = Some polyline' ∧
    linked [0; 1; 2; 3] polyline' [0; 2; 3]%nat ∧
    live_slots scenario_polyline = [0; 1; 2; 3]%nat ∧
    live_slots polyline' = [0; 2; 3]%nat ∧
    Polyline.Size polyline' = Polyline.Size scenario_polyline - 1 ∧
    Polyline.Vertices scenario_polyline !! 1%nat = Some v ∧
    Polyline.Vertices polyline' !! 1%nat = Some v ∧
    Vertex.prev v = Some 0%nat ∧ Vertex.next v = Some 2%nat.
Proof.
  exact (Remove_unlinks_one_vertex [0; 1; 2; 3] scenario_polyline
           [] 0%nat 1%nat 2%nat [3%nat] scenario_polyline_linked).
Defined.

Lemma Remove_outside_interior_witness :
  Polyline.Remove scenario_polyline 0 = None ∧
  Polyline.Remove scenario_polyline 3 = None.
Proof.
  split.
  - apply (Remove_outside_interior [0; 1; 2; 3] scenario_polyline
             [0; 1; 2; 3]%nat 0 scenario_polyline_linked). simpl. lia.
  - apply (Remove_outside_interior [0; 1; 2; 3] scenario_polyline
             [0; 1; 2; 3]%nat 3 scenario_polyline_linked). simpl. lia.
Defined.

Lemma ComputeError_needs_both_neighbours_witness :
  (∀ k, k ∈ [0; 1; 2; 3]%nat → (0 < k < length [0; 1; 2; 3]%Z - 1)%nat →
     is_Some (ComputeError (lines_over_scenario [[0; 1; 2; 3]])
                scenario_polyline (Z.of_nat k))) ∧
  (∀ i, ¬ (0 < i < Z.of_nat (length [0; 1; 2; 3]) - 1) →
     ComputeError (lines_over_scenario [[0; 1; 2; 3]]) scenario_polyline i
       = None).
Proof.
  apply (ComputeError_needs_both_neighbours
           (lines_over_scenario [[0; 1; 2; 3]]) scenario_points
           [0; 1; 2; 3] scenario_polyline [0; 1; 2; 3]%nat eq_refl).
  - apply scenario_wf_line.
  - apply scenario_polyline_linked.
Defined.

Lemma queue_holds_the_candidates_witness :
  NoDup (pq_ids (queue_ scenario_seeded)) ∧
  ∀ i, i ∈ pq_ids (queue_ scenario_seeded) ↔
       ∃ (k : nat) error,
         i = Z.of_nat k ∧ k ∈ live_slots (polyline_ scenario_seeded) ∧
         (0 < k < length [0; 1; 2; 3]%Z - 1)%nat ∧
         ComputeError (lines_over_scenario [[0; 1; 2; 3]])
           (polyline_ scenario_seeded) i = Some error ∧
         PrimFloat.leb error
           (MaximumError (reference_filter ninety_percent VTK_DOUBLE_MAX))
           = true.
Proof.
  exact (queue_holds_the_candidates
           (reference_filter ninety_percent VTK_DOUBLE_MAX)
           (lines_over_scenario [[0; 1; 2; 3]]) scenario_points [0; 1; 2; 3]
           [] scenario_seeded eq_refl scenario_wf_line eq_refl
           scenario_seeded_state).
Defined.

Lemma counters_follow_the_list_witness :
  currentNumPts scenario_seeded = Polyline.Size (polyline_ scenario_seeded) ∧
  Polyline.Size (polyline_ scenario_seeded)
    = Z.of_nat (length (live_ids (polyline_ scenario_seeded))) ∧
  live_ids (polyline_ scenario_seeded) `sublist_of` [0; 1; 2; 3] ∧
  (length [0; 1; 2; 3]%Z `min` floor_size [0; 1; 2; 3]%Z
   ≤ length (live_ids (polyline_ scenario_seeded)))%nat ∧
  ∀ s', loop_body (reference_filter ninety_percent VTK_DOUBLE_MAX)
          (lines_over_scenario [[0; 1; 2; 3]]) scenario_seeded
          = Some (Continue s') →
    currentNumPts s' = currentNumPts scenario_seeded - 1 ∧
    Polyline.Size (polyline_ s')
      = Polyline.Size (polyline_ scenario_seeded) - 1.
Proof.
  exact (counters_follow_the_list
           (reference_filter ninety_percent VTK_DOUBLE_MAX)
           (lines_over_scenario [[0; 1; 2; 3]]) scenario_points [0; 1; 2; 3]
           [] scenario_seeded eq_refl scenario_wf_line eq_refl
           scenario_seeded_state).
Defined.

Lemma empty_cell_is_undefined_witness :
  RequestData (reference_filter ninety_percent VTK_DOUBLE_MAX) never_aborts
    (lines_over_scenario [[0; 1]; []]) = None.
Proof.
  apply (empty_cell_is_undefined _ never_aborts
           (lines_over_scenario [[0; 1]; []]) scenario_points [[0; 1]] []
           eq_refl eq_refl); [done|].
  intros call _. reflexivity.
Defined.

Lemma nothing_to_decimate_witness :
  RequestData (reference_filter ninety_percent VTK_DOUBLE_MAX) never_aborts
    (mkPolyData None (Some scenario_points))
  = Some (1, PriorityQueue_ (reference_filter ninety_percent VTK_DOUBLE_MAX),
          empty_output) ∧
  RequestData (reference_filter ninety_percent VTK_DOUBLE_MAX) never_aborts
    (mkPolyData (Some [[0; 1]]) (Some (mkPoints VTK_DOUBLE [])))
  = Some (1, PriorityQueue_ (reference_filter ninety_percent VTK_DOUBLE_MAX),
          empty_output).
Proof.
  split.
  - apply nothing_to_decimate. by left.
  - apply nothing_to_decimate. by right.
Defined.

Lemma cancellation_keeps_whole_cells_witness :
  ∃ q out,
    RequestData (reference_filter ninety_percent VTK_DOUBLE_MAX) (aborts_at 1)
      two_cells = Some (1, q, out) ∧
    pq_ids q = [] ∧
    length (output_cells out) = 1%nat ∧
    length (outCD out) = 1%nat ∧
    ∀ i c, output_cells out !! i = Some c →
      ∃ line, input_lines two_cells !! i = Some line ∧
              cell_source_ids out c `sublist_of` line ∧
              npts c = Z.of_nat (length (pts c)).
Proof.
  apply (cancellation_keeps_whole_cells
           (reference_filter ninety_percent VTK_DOUBLE_MAX) (aborts_at 1)
           two_cells 1
           (two_cells_wf (reference_filter ninety_percent VTK_DOUBLE_MAX)
              eq_refl)).
  - simpl. lia.
  - intros [|j] Hj; [reflexivity|lia].
  - reflexivity.
Defined.

Lemma scenario_errors_within (a k b : Z) :
  0 ≤ a < 4 → 0 ≤ k < 4 → 0 ≤ b < 4 →
  ∃ error, error_at scenario_points a k b = Some error ∧
           PrimFloat.leb error VTK_DOUBLE_MAX = true.
Proof.
  intros Ha Hk Hb.
  assert (a = 0 ∨ a = 1 ∨ a = 2 ∨ a = 3) as [->|[->|[->| ->]]] by lia;
  assert (k = 0 ∨ k = 1 ∨ k = 2 ∨ k = 3) as [->|[->|[->| ->]]] by lia;
  assert (b = 0 ∨ b = 1 ∨ b = 2 ∨ b = 3) as [->|[->|[->| ->]]] by lia;
  (eexists; split; [vm_compute; reflexivity|vm_compute; reflexivity]).
Qed.

Lemma two_cells_always_within line :
  line ∈ input_lines two_cells →
  always_within (reference_filter ninety_percent VTK_DOUBLE_MAX)
    scenario_points line.
Proof.
  intros Hline a k b Ha Hk Hb.
  destruct (two_cells_wf (reference_filter ninety_percent VTK_DOUBLE_MAX)
              eq_refl) as [_ Hwf].
  rewrite Forall_forall in Hwf. destruct (Hwf line Hline) as (_ & _ & Hrange).
  rewrite Forall_forall in Hrange.
  apply scenario_errors_within; by apply Hrange.
Qed.

Lemma output_points_precision_witness :
  ∃ q out newPts newLines,
    RequestData (reference_filter ninety_percent VTK_DOUBLE_MAX) never_aborts
      two_cells = Some (1, q, out) ∧
    outPoints out = Some newPts ∧ outLines out = Some newLines ∧
    (OutputPointsPrecision (reference_filter ninety_percent VTK_DOUBLE_MAX)
       = DEFAULT_PRECISION →
     DataType newPts = DataType scenario_points) ∧
    (OutputPointsPrecision (reference_filter ninety_percent VTK_DOUBLE_MAX)
       = SINGLE_PRECISION →
     DataType newPts = VTK_FLOAT) ∧
    (OutputPointsPrecision (reference_filter ninety_percent VTK_DOUBLE_MAX)
       = DOUBLE_PRECISION →
     DataType newPts = VTK_DOUBLE).
Proof.
  apply (output_points_precision
           (reference_filter ninety_percent VTK_DOUBLE_MAX) never_aborts
           two_cells scenario_points
           (two_cells_wf (reference_filter ninety_percent VTK_DOUBLE_MAX)
              eq_refl)); [done|reflexivity].
Defined.

Lemma fresh_filter_is_ready_witness :
  ∃ q out,
    RequestData (vtkDecimatePolylineFilter_new (Queue := ListQueue))
      never_aborts two_cells = Some (1, q, out) ∧
    pq_ids q = [] ∧
    ∀ inputPoints newPts,
      Points two_cells = Some inputPoints → outPoints out = Some newPts →
      DataType newPts = DataType inputPoints.
Proof.
  apply (fresh_filter_is_ready (Queue := ListQueue) never_aborts two_cells).
  exact (proj2 (two_cells_wf (reference_filter ninety_percent VTK_DOUBLE_MAX)
                  eq_refl)).
Defined.

Lemma filter_is_reusable_witness :
  ∃ q out q' out',
    RequestData (reference_filter ninety_percent VTK_DOUBLE_MAX) never_aborts
      two_cells = Some (1, q, out) ∧
    pq_ids q = [] ∧
    RequestData
      (mkFilter
         (TargetReduction (reference_filter ninety_percent VTK_DOUBLE_MAX))
         (MaximumError (reference_filter ninety_percent VTK_DOUBLE_MAX))
         (OutputPointsPrecision
            (reference_filter ninety_percent VTK_DOUBLE_MAX)) q)
      (aborts_at 1) two_cells
      = Some (1, q', out') ∧
    pq_ids q' = [].
Proof.
  apply (filter_is_reusable
           (reference_filter ninety_percent VTK_DOUBLE_MAX) never_aborts
           two_cells (aborts_at 1) two_cells
           (two_cells_wf (reference_filter ninety_percent VTK_DOUBLE_MAX)
              eq_refl)).
  exact (proj2 (two_cells_wf (reference_filter ninety_percent VTK_DOUBLE_MAX)
                  eq_refl)).
Defined.

Lemma output_cell_is_subsequence_witness :
  ∃ q out,
    RequestData (reference_filter ninety_percent VTK_DOUBLE_MAX) never_aborts
      two_cells = Some (1, q, out) ∧
    (length (output_cells out) ≤ length (input_lines two_cells))%nat ∧
    ∀ i c, output_cells out !! i = Some c →
      ∃ line, input_lines two_cells !! i = Some line ∧
              cell_source_ids out c `sublist_of` line.
Proof.
  exact (output_cell_is_subsequence
           (reference_filter ninety_percent VTK_DOUBLE_MAX) never_aborts
           two_cells
           (two_cells_wf (reference_filter ninety_percent VTK_DOUBLE_MAX)
              eq_refl)).
Defined.

Lemma reduction_stops_at_target_or_floor_witness :
  ∃ q out,
    RequestData (reference_filter ninety_percent VTK_DOUBLE_MAX) never_aborts
      two_cells = Some (1, q, out) ∧
    ∀ i line c,
      input_lines two_cells !! i = Some line →
      output_cells out !! i = Some c →
      below_target (reference_filter ninety_percent VTK_DOUBLE_MAX)
        (Z.of_nat (length line)) (Z.of_nat (length (pts c))) = false
      ∨ (length (pts c) ≤ floor_size line)%nat.
Proof.
  exact (reduction_stops_at_target_or_floor
           (reference_filter ninety_percent VTK_DOUBLE_MAX) never_aborts
           two_cells scenario_points
           (two_cells_wf (reference_filter ninety_percent VTK_DOUBLE_MAX)
              eq_refl)
           eq_refl two_cells_always_within).
Defined.

Lemma short_cells_are_kept_whole_witness :
  ∃ q out,
    RequestData (reference_filter ninety_percent VTK_DOUBLE_MAX) never_aborts
      (lines_over_scenario [[0; 1]; [2; 3; 2]]) = Some (1, q, out) ∧
    length (output_cells out)
      = processed never_aborts 0
          (length (input_lines (lines_over_scenario [[0; 1]; [2; 3; 2]]))) ∧
    ∀ i line,
      input_lines (lines_over_scenario [[0; 1]; [2; 3; 2]]) !! i = Some line →
      (i < processed never_aborts 0
             (length (input_lines
                        (lines_over_scenario [[0; 1]; [2; 3; 2]]%Z))))%nat →
      (length line ≤ floor_size line)%nat →
      ∃ c,
        output_cells out !! i = Some c ∧
        cell_source_ids out c = line ∧ npts c = Z.of_nat (length line).
Proof.
  apply (short_cells_are_kept_whole
           (reference_filter ninety_percent VTK_DOUBLE_MAX) never_aborts
           (lines_over_scenario [[0; 1]; [2; 3; 2]])).
  by apply wf_lines_over_scenario.
Defined.

Lemma no_target_no_removal_witness :
  ∃ q out,
    RequestData (reference_filter (-1) VTK_DOUBLE_MAX) never_aborts two_cells
      = Some (1, q, out) ∧
    cell_source_ids out <$> output_cells out
      = take (processed never_aborts 0 (length (input_lines two_cells)))
          (input_lines two_cells).
Proof.
  exact (no_target_no_removal (reference_filter (-1) VTK_DOUBLE_MAX)
           never_aborts two_cells
           (two_cells_wf (reference_filter (-1) VTK_DOUBLE_MAX) eq_refl)
           eq_refl).
Defined.

(** In the two cells, the error of every vertex between its neighbours is
    above 2^-10. *)
Lemma two_cells_errors_above line j a k b error :
  line ∈ input_lines two_cells →
  line !! j = Some a → line !! S j = Some k → line !! S (S j) = Some b →
  error_at scenario_points a k b = Some error →
  PrimFloat.leb error 0x1p-10 = false.
Proof.
  intros Hline Ha Hk Hb He.
  apply elem_of_cons in Hline as [->|Hline];
    [|apply list_elem_of_singleton in Hline as ->];
    destruct j as [|[|j]]; simpl in Ha, Hk, Hb; try done;
    injection Ha as <-; injection Hk as <-; injection Hb as <-;
    vm_compute in He; injection He as <-; reflexivity.
Qed.

Lemma ceiling_below_every_error_keeps_cells_witness :
  (∀ line q0, line ∈ input_lines two_cells → pq_ids q0 = [] →
     ∃ polyline q,
       Polyline.new line = Some polyline ∧
       seed (reference_filter ninety_percent 0x1p-10) two_cells polyline q0
         = Some q ∧
       pq_ids q = [] ∧ (Pop q).1 = -1) ∧
  ∃ q out,
    RequestData (reference_filter ninety_percent 0x1p-10) never_aborts
      two_cells = Some (1, q, out) ∧
    cell_source_ids out <$> output_cells out
      = take (processed never_aborts 0 (length (input_lines two_cells)))
          (input_lines two_cells).
Proof.
  exact (ceiling_below_every_error_keeps_cells
           (reference_filter ninety_percent 0x1p-10) never_aborts two_cells
           scenario_points
           (two_cells_wf (reference_filter ninety_percent 0x1p-10) eq_refl)
           eq_refl two_cells_errors_above).
Defined.

Lemma new_points_are_numbered_in_order_witness :
  ∃ q out,
    RequestData (reference_filter 0 VTK_DOUBLE_MAX) never_aborts
      (lines_over_scenario [[0; 1; 2]; [3; 1; 0]]) = Some (1, q, out) ∧
    numbered_from 0 (concat (pts <$> output_cells out))
      = Some (Z.of_nat (length (output_points out))).
Proof.
  apply (new_points_are_numbered_in_order (reference_filter 0 VTK_DOUBLE_MAX)
           never_aborts (lines_over_scenario [[0; 1; 2]; [3; 1; 0]])).
  by apply wf_lines_over_scenario.
Defined.

Lemma Remove_changes_neighbours_only_witness :
  ∃ polyline',
    Polyline.Remove scenario_polyline 1 = Some polyline' ∧
    ∀ j, j ≠ 0 → j ≠ 2 →
      ComputeError (lines_over_scenario [[0; 1; 2; 3]]) polyline' j
      = ComputeError (lines_over_scenario [[0; 1; 2; 3]]) scenario_polyline j.
Proof.
  exact (Remove_changes_neighbours_only (lines_over_scenario [[0; 1; 2; 3]])
           [0; 1; 2; 3] scenario_polyline [] 0%nat 1%nat 2%nat [3%nat]
           scenario_polyline_linked).
Defined.

Lemma no_vertex_removed_beyond_target_witness :
  ∃ q out,
    RequestData (reference_filter ninety_percent VTK_DOUBLE_MAX) never_aborts
      two_cells = Some (1, q, out) ∧
    ∀ i line c,
      input_lines two_cells !! i = Some line →
      output_cells out !! i = Some c →
      (length (pts c) < length line)%nat →
      below_target (reference_filter ninety_percent VTK_DOUBLE_MAX)
        (Z.of_nat (length line)) (Z.of_nat (length (pts c)) + 1) = true ∧
      (floor_size line ≤ length (pts c))%nat.
Proof.
  exact (no_vertex_removed_beyond_target
           (reference_filter ninety_percent VTK_DOUBLE_MAX) never_aborts
           two_cells
           (two_cells_wf (reference_filter ninety_percent VTK_DOUBLE_MAX)
              eq_refl)).
Defined.
